(** * Dodecahedral sampler: a shallow embedding of
      [poly_sampler/dodecahedral_sampler.py] and the properties of its
      unwrapping pipeline.

    The Python class [DodecahedralSampler] is embedded method by method.
    Every NumPy array is an object in an explicit store (a list of cells
    addressed by position); a method is a computation in a state-and-error
    monad over that store.  Python floats are IEEE binary64 numbers, here
    Rocq's primitive floats; the arithmetic operators of the source are the
    primitive operations, while the functions of NumPy, SciPy, OpenCV and of
    the module [utils] are taken from a record of library functions. *)

From Stdlib Require Import ZArith List Lia Bool Floats.
From stdpp Require Import base list.

Local Open Scope Z_scope.

(** * Python values *)

(** ** Exceptions *)

Inductive PyError : Type :=
| ShapeValidationError   (* raised by [utils.check_eq_image_shape] *)
| IndexError
| UnboundLocalError
| ValueError
| OverflowError
| TypeError.

Inductive Result (A : Type) : Type :=
| Ok (a : A)
| Err (e : PyError).
Arguments Ok {A} a.
Arguments Err {A} e.

(** ** Floats *)

(** [float(z)] for a Python int: rounding to nearest, ties to even. *)
Definition float_of_int (z : Z) : float :=
  SF2Prim (binary_normalize prec emax z 0 false).

(** The integer part of a finite float, rounding toward zero. *)
Definition trunc_float (f : float) : option Z :=
  match Prim2SF f with
  | S754_zero _ => Some 0
  | S754_finite s m e =>
      let mag := if 0 <=? e then Z.shiftl (Zpos m) e else Z.shiftr (Zpos m) (- e) in
      Some (if s then - mag else mag)
  | S754_infinity _ => None
  | S754_nan => None
  end.

(** Python's [int(x)] on a float: [ValueError] on a NaN, [OverflowError] on
    an infinity. *)
Definition py_int (f : float) : Result Z :=
  match Prim2SF f with
  | S754_nan => Err ValueError
  | S754_infinity _ => Err OverflowError
  | _ => match trunc_float f with Some z => Ok z | None => Err ValueError end
  end.

(** NumPy's [a.astype(T)] from float64 to a signed integer type of [bits]
    bits is the C conversion: truncation when the value fits, and the
    "integer indefinite" value [-2^(bits-1)] otherwise (the x86-64 result). *)
Definition astype_int (bits : Z) (f : float) : Z :=
  match trunc_float f with
  | Some z => if (- 2 ^ (bits - 1) <=? z) && (z <? 2 ^ (bits - 1)) then z
              else - 2 ^ (bits - 1)
  | None => - 2 ^ (bits - 1)
  end.

(** [np.pi] *)
Definition np_pi : float := 0x1.921fb54442d18p+1%float.

(** ** Arrays *)

Definition rgb : Type := Z * Z * Z.
Definition rgba : Type := Z * Z * Z * Z.

(** An array of shape [im_h, im_w] (and a trailing channel axis folded into
    the pixel type [P]).  The shape is kept beside the data, as NumPy does:
    an array with no row still has a width. *)
Record image (P : Type) : Type := Image {
  im_h : nat;
  im_w : nat;
  im_px : list (list P)
}.
Arguments Image {P} _ _ _.
Arguments im_h {P} _.
Arguments im_w {P} _.
Arguments im_px {P} _.

Inductive ndarray : Type :=
| NdF (rows : list (list float))   (* float64, shape [N, k] *)
| NdFv (v : list float)            (* float64, shape [N] *)
| NdI (rows : list (list Z))       (* integer, shape [N, k] *)
| NdMask (m : image Z)             (* uint8, shape [H, W] *)
| NdRGB (px : list rgb)            (* uint8, shape [N, 3] *)
| NdPano (im : image rgb)          (* uint8, shape [H, W, 3] *)
| NdRGBA (im : image rgba).        (* uint8, shape [H, W, 4] *)

(** * The store and the monad *)

Abbreviation loc := nat (only parsing).

(** What a run leaves behind besides the store, in the order it happened:
    the index arrays of every read of a panorama (with the panorama's shape),
    and the pixels every indexed assignment to a canvas wrote. *)
Inductive Event : Type :=
| EvSample (shape : nat * nat) (rows cols : list Z)
| EvWrite (canvas : nat) (pixels : list (nat * nat)).

Record State : Type := mkState {
  heap : list ndarray;
  log : list Event
}.

Definition M (A : Type) : Type := State -> Result A * State.

Definition ret {A} (a : A) : M A := fun st => (Ok a, st).

Definition bind {A B} (m : M A) (f : A -> M B) : M B :=
  fun st => match m st with
            | (Ok a, st') => f a st'
            | (Err e, st') => (Err e, st')
            end.

Definition throw {A} (e : PyError) : M A := fun st => (Err e, st).

Notation "x <- m ;; k" := (bind m (fun x => k))
  (at level 100, m at next level, right associativity).
Notation "m ;;; k" := (bind m (fun _ => k))
  (at level 100, right associativity).

Definition lift {A} (r : Result A) : M A :=
  match r with Ok a => ret a | Err e => throw e end.

(** A new array object. *)
Definition alloc (c : ndarray) : M loc :=
  fun st => (Ok (length (heap st)), mkState (heap st ++ [c]) (log st)).

(** Reading the object behind a reference. *)
Definition load (p : loc) : M ndarray :=
  fun st => match heap st !! p with
            | Some c => (Ok c, st)
            | None => (Err TypeError, st)
            end.

(** Overwriting the object behind a reference (an in-place operation). *)
Definition store (p : loc) (c : ndarray) : M unit :=
  fun st => if decide (p < length (heap st))%nat
            then (Ok tt, mkState (<[p := c]> (heap st)) (log st))
            else (Err TypeError, st).

Definition trace (e : Event) : M unit :=
  fun st => (Ok tt, mkState (heap st) (log st ++ [e])).

Definition load_F (p : loc) : M (list (list float)) :=
  c <- load p ;; match c with NdF rows => ret rows | _ => throw TypeError end.
Definition load_Fv (p : loc) : M (list float) :=
  c <- load p ;; match c with NdFv v => ret v | _ => throw TypeError end.
Definition load_I (p : loc) : M (list (list Z)) :=
  c <- load p ;; match c with NdI rows => ret rows | _ => throw TypeError end.
Definition load_Mask (p : loc) : M (image Z) :=
  c <- load p ;; match c with NdMask m => ret m | _ => throw TypeError end.
Definition load_RGB (p : loc) : M (list rgb) :=
  c <- load p ;; match c with NdRGB px => ret px | _ => throw TypeError end.
Definition load_Pano (p : loc) : M (image rgb) :=
  c <- load p ;; match c with NdPano im => ret im | _ => throw TypeError end.
Definition load_RGBA (p : loc) : M (image rgba) :=
  c <- load p ;; match c with NdRGBA im => ret im | _ => throw TypeError end.

(** Results of pure steps. *)
Definition rbind {A B} (r : Result A) (f : A -> Result B) : Result B :=
  match r with Ok a => f a | Err e => Err e end.

Notation "x <~ r ;; k" := (rbind r (fun x => k))
  (at level 100, r at next level, right associativity).

Fixpoint for_each {A} (xs : list A) (body : A -> M unit) : M unit :=
  match xs with
  | [] => ret tt
  | x :: xs' => body x ;;; for_each xs' body
  end.

Fixpoint map_m {A B} (f : A -> M B) (xs : list A) : M (list B) :=
  match xs with
  | [] => ret []
  | x :: xs' => y <- f x ;; ys <- map_m f xs' ;; ret (y :: ys)
  end.

(** [range(n)] *)
Definition py_range (n : nat) : list Z := map Z.of_nat (seq 0 n).

(** * NumPy operations *)

(** [np.zeros([h, w, ...], dtype=np.uint8)]: negative dimensions are not
    allowed. *)
Definition np_zeros {P} (zero : P) (hh ww : Z) : Result (image P) :=
  if (hh <? 0) || (ww <? 0) then Err ValueError
  else Ok (Image (Z.to_nat hh) (Z.to_nat ww)
                 (replicate (Z.to_nat hh) (replicate (Z.to_nat ww) zero))).

(** An index into an axis of length [n]: negative indices count from the
    end, anything else out of range is an [IndexError]. *)
Definition norm_index (n : nat) (i : Z) : Result nat :=
  if (0 <=? i) && (i <? Z.of_nat n) then Ok (Z.to_nat i)
  else if (- Z.of_nat n <=? i) && (i <? 0) then Ok (Z.to_nat (i + Z.of_nat n))
  else Err IndexError.

(** [a[i]] on the first axis. *)
Definition index_row {A} (rows : list A) (i : Z) : Result A :=
  k <~ norm_index (length rows) i ;;
  match rows !! k with Some r => Ok r | None => Err IndexError end.

(** [a[idx]] with an integer array [idx] on the first axis. *)
Fixpoint take_rows {A} (rows : list A) (idx : list Z) : Result (list A) :=
  match idx with
  | [] => Ok []
  | i :: idx' => r <~ index_row rows i ;; rs <~ take_rows rows idx' ;; Ok (r :: rs)
  end.

(** [a[..., k]], a column of a two-dimensional array. *)
Definition column (k : nat) (rows : list (list Z)) : list Z :=
  map (fun r => nth k r 0) rows.

(** The index pairs of [a[ys, xs]] in an array of shape [hh, ww]. *)
Fixpoint norm_indices (hh ww : nat) (ys xs : list Z) : Result (list (nat * nat)) :=
  match ys, xs with
  | y :: ys', x :: xs' =>
      i <~ norm_index hh y ;; j <~ norm_index ww x ;;
      rest <~ norm_indices hh ww ys' xs' ;; Ok ((i, j) :: rest)
  | [], [] => Ok []
  | _, _ => Err IndexError
  end.

(** Broadcasting [n] rows of values: the same number of rows, or one row
    repeated. *)
Definition broadcast_rows {A} (n : nat) (vals : list A) : Result (list A) :=
  if decide (length vals = n) then Ok vals
  else match vals with
       | [v] => Ok (replicate n v)
       | _ => Err ValueError
       end.

Definition px_get {P} (d : P) (im : image P) (i j : nat) : P :=
  match im_px im !! i with
  | Some row => default d (row !! j)
  | None => d
  end.

Definition px_update {P} (f : P -> P) (i j : nat) (im : image P) : image P :=
  Image (im_h im) (im_w im) (alter (alter f j) i (im_px im)).

(** [a[ys, xs]]: one value per index pair. *)
Definition getitem {P} (d : P) (im : image P) (ys xs : list Z) : Result (list P) :=
  idx <~ norm_indices (im_h im) (im_w im) ys xs ;;
  Ok (map (fun ij => px_get d im ij.1 ij.2) idx).

(** [a[ys, xs, ...] = vals]: the pairs are written in order, so the last
    write to a pixel is the one that stays.  [wr v p] is the pixel [p] after
    the value [v] was written into the channels the index selects. *)
Definition paste {P V} (wr : V -> P -> P) (im : image P)
    (idx : list (nat * nat)) (vals : list V) : image P :=
  fold_left (fun acc iv => px_update (wr iv.2) iv.1.1 iv.1.2 acc) (zip idx vals) im.

(** The channel selections of the source. *)
Definition wr_bgr (v : rgb) (p : rgba) : rgba :=       (* [..., 2::-1] = v *)
  let '(v0, v1, v2) := v in let '(_, _, _, p3) := p in (v2, v1, v0, p3).
Definition wr_alpha (v : Z) (p : rgba) : rgba :=       (* [..., 3] = v *)
  let '(p0, p1, p2, _) := p in (p0, p1, p2, v).
Definition wr_all (v : rgba) (_ : rgba) : rgba := v.   (* [...] = v *)

Definition alpha (p : rgba) : Z := p.2.

(** [np.argwhere(canvas == 1)[:, ::-1]]: the positions holding 1, in row-major
    order, each as [[column; row]]. *)
Fixpoint argwhere_row (i j : Z) (row : list Z) : list (list Z) :=
  match row with
  | [] => []
  | v :: row' => (if v =? 1 then [[j; i]] else []) ++ argwhere_row i (j + 1) row'
  end.

Fixpoint argwhere_rows (i : Z) (rows : list (list Z)) : list (list Z) :=
  match rows with
  | [] => []
  | r :: rows' => argwhere_row i 0 r ++ argwhere_rows (i + 1) rows'
  end.

Definition argwhere_eq1_rev (m : image Z) : list (list Z) :=
  argwhere_rows 0 (im_px m).

(** * The libraries *)

Inductive Axis : Type := AxisX | AxisY | AxisZ.

(** The functions the module takes from NumPy, SciPy and OpenCV, and those of
    the sibling module [utils] ([rotate_on_axis], [xyz_2_polar],
    [polar_2_equi]).  Functions that NumPy applies to every row or element of
    an array are given on one row or element. *)
Record Library : Type := {
  np_sin : float -> float;
  np_cos : float -> float;
  np_tan : float -> float;
  np_power : float -> float -> float;                 (* [x ** y] *)
  np_mean_axis0 : list (list float) -> list float;    (* [a.mean(axis=0)] *)
  np_linalg_norm : list float -> float;               (* norm of one vector *)
  np_matmul : list (list float) -> list (list float) -> list (list float);
  (* [R.from_euler('yxz', [a, b, c]).as_matrix()] *)
  R_from_euler_yxz : float -> float -> float -> list (list float);
  (* does the filled contour cover the pixel of column [x] and row [y]? *)
  cv2_filled : list (Z * Z) -> Z -> Z -> bool;
  cv2_getRotationMatrix2D : Z * Z -> float -> float -> list (list float);
  (* the pixel of row [y] and column [x] of [cv2.warpAffine(src, m, dsize)] *)
  cv2_warp_pixel : image rgba -> list (list float) -> nat -> nat -> rgba;
  utils_rotate_on_axis : list float -> Axis -> float -> list float;
  utils_xyz_2_polar : list float -> float * float;
  utils_polar_2_equi : float -> float -> nat * nat -> float * float
}.

(** Modelled from the spec: [utils.check_eq_image_shape], whose module is not
    part of the sources.  The panorama must be a non-empty pixel grid whose
    width is twice its height; otherwise the call raises the shape-validation
    error. *)
Definition valid_shape (im : image rgb) : bool :=
  (0 <? im_h im)%nat && (im_w im =? 2 * im_h im)%nat.

Definition check_eq_image_shape (eq_image : loc) : M unit :=
  im <- load_Pano eq_image ;;
  if valid_shape im then ret tt else throw ShapeValidationError.

(** [cv2.drawContours(canvas, contours, idx, color=1, thickness=-1)]: the
    canvas is changed in place, its shape stays. *)
Fixpoint draw_row (inside : Z -> bool) (j : Z) (row : list Z) : list Z :=
  match row with
  | [] => []
  | v :: row' => (if inside j then 1 else v) :: draw_row inside (j + 1) row'
  end.

Fixpoint draw_rows (inside : Z -> Z -> bool) (i : Z) (rows : list (list Z)) : list (list Z) :=
  match rows with
  | [] => []
  | r :: rows' => draw_row (fun j => inside j i) 0 r :: draw_rows inside (i + 1) rows'
  end.

Definition cv2_drawContours (L : Library) (canvas : loc)
    (contours : list (list (Z * Z))) (idx : Z) : M unit :=
  m <- load_Mask canvas ;;
  contour <- lift (index_row contours idx) ;;
  store canvas (NdMask (Image (im_h m) (im_w m)
                              (draw_rows (cv2_filled L contour) 0 (im_px m)))).

(** [cv2.warpAffine(src, m, (w, h))]: a new array of the requested size. *)
Definition cv2_warpAffine (L : Library) (src : image rgba)
    (m : list (list float)) (dsize : Z * Z) : image rgba :=
  let ww := Z.to_nat dsize.1 in
  let hh := Z.to_nat dsize.2 in
  Image hh ww (map (fun y => map (fun x => cv2_warp_pixel L src m y x) (seq 0 ww))
                   (seq 0 hh)).

(** * The class [DodecahedralSampler] *)

Module DodecahedralSampler.

(** The attributes [__init__] sets.  [faces] and [vertices] are references to
    array objects in the store. *)
Record Sampler : Type := mkSampler {
  unit_edge_length : float;
  resolution : Z;
  scaled_edge_length : Z;
  h : float;
  l : float;
  pentagon_l : Z;
  height_to_centre : float;
  pentagon_h : Z;
  circumradius : Z;
  faces : loc;
  vertices : loc
}.

(** The literal of [self.faces]. *)
Definition FACES : list (list Z) :=
  [ [0; 1; 2; 3; 4];
    [0; 5; 11; 6; 1]; [1; 6; 10; 7; 2]; [2; 7; 14; 8; 3]; [3; 8; 13; 9; 4]; [4; 9; 12; 5; 0];
    [15; 10; 7; 14; 19]; [19; 14; 8; 13; 18]; [18; 13; 9; 12; 17]; [17; 12; 5; 11; 16];
    [16; 11; 6; 10; 15];
    [19; 18; 17; 16; 15] ].

(** [get_is_up]: [True if (0<face_no<6) | (face_no == 11) else False] *)
Definition get_is_up (face_no : Z) : bool :=
  ((0 <? face_no) && (face_no <? 6)) || (face_no =? 11).

(** [get_rotation]: no branch assigns [rotation_offset] for a face number
    outside 0..11, and the [return] then fails. *)
Definition get_rotation (face_no : Z) : Result float :=
  if (face_no =? 0) || (face_no =? 11) then Ok (float_of_int 0)
  else if (0 <? face_no) && (face_no <? 6) then
    Ok (np_pi * 6 / 5 + float_of_int (face_no - 1) * (np_pi * 2 / 5))%float
  else if (6 <=? face_no) && (face_no <? 11) then
    Ok (- np_pi * 4 / 5 - float_of_int (face_no - 6) * (np_pi * 2 / 5))%float
  else Err UnboundLocalError.

Section Methods.
Context (L : Library).

Local Abbreviation fl := float_of_int.

(** [get_vertices]; of [self] it reads [unit_edge_length] only, which
    [__init__] has set by then. *)
Definition get_vertices (unit_edge : float) (radius : float) : M loc :=
  let top_circumradius := (unit_edge / (2 * np_sin L (np_pi / 5)))%float in
  let y0 := np_power L (np_power L radius 2 - np_power L top_circumradius 2) 0.5 in
  let z0 := np_power L (np_power L radius 2 - np_power L y0 2) 0.5 in
  let v0 := [fl 0; y0; z0] in
  let ring1 := map (fun i => utils_rotate_on_axis L v0 AxisY (fl i * np_pi * 2 / 5)%float)
                   [1; 2; 3; 4] in
  let ratio := ((np_cos L (np_pi * 3 / 10) + np_sin L (np_pi * 2 / 5))
                / np_sin L (np_pi * 2 / 5))%float in
  let y5 := ((ratio - 1) / (ratio + 1) * y0)%float in
  let z5 := np_power L (radius - np_power L y5 2) 0.5 in
  let v5 := [fl 0; y5; z5] in
  let ring2 := map (fun i => utils_rotate_on_axis L v5 AxisY (fl i * np_pi * 2 / 5)%float)
                   [1; 2; 3; 4] in
  let north := v0 :: ring1 ++ v5 :: ring2 in
  let south := map (fun v => map PrimFloat.opp (firstn 3 v)) (rev north) in
  vs <- alloc (NdF (north ++ south)) ;;
  (* vertices /= np.linalg.norm(vertices, axis=-1, keepdims=True) *)
  rows <- load_F vs ;;
  store vs (NdF (map (fun r => map (fun c => (c / np_linalg_norm L r)%float) r) rows)) ;;;
  (* vertices *= radius *)
  rows <- load_F vs ;;
  store vs (NdF (map (map (fun c => (c * radius)%float)) rows)) ;;;
  ret vs.

(** [__init__] *)
Definition init (res : Z) : M Sampler :=
  let radius := 1%float in
  let unit_edge := ((PrimFloat.sqrt 5 - 1) / PrimFloat.sqrt 3 * radius)%float in
  let scaled := res in
  let hh := (fl scaled * np_sin L (np_pi / 5 * 2))%float in
  let ll := (fl scaled * np_cos L (np_pi / 5 * 2))%float in
  pl <- lift (py_int (2 * ll + fl scaled)%float) ;;
  let htc := (fl scaled / (2 * np_tan L (np_pi / 5)))%float in
  ph <- lift (py_int (htc + fl scaled / (2 * np_sin L (np_pi / 5)))%float) ;;
  cr <- lift (py_int (fl scaled / (2 * np_sin L (np_pi / 5)))%float) ;;
  fs <- alloc (NdI FACES) ;;
  vs <- get_vertices unit_edge radius ;;
  ret (mkSampler unit_edge res scaled hh ll pl htc ph cr fs vs).

Section WithSelf.
Context (self : Sampler).

(** The two contours of [get_pentagon_coords], after [astype(np.int32)]. *)
Definition pentagon : list (list (Z * Z)) :=
  let pl := fl (pentagon_l self) in
  let ph := fl (pentagon_h self) in
  map (map (fun p : float * float => (astype_int 32 p.1, astype_int 32 p.2)))
    [ [ (l self, fl 0); (pl - l self, fl 0); (pl, h self);
        (pl / 2, ph); (fl 0, h self) ]%float;
      [ (l self, ph); (pl - l self, ph); (pl, ph - h self);
        (pl / 2, fl 0); (fl 0, ph - h self) ]%float ].

(** [get_pentagon_coords(base_resolution, is_up, center, normalize,
    homogeneous)] *)
Definition get_pentagon_coords (base_resolution : Z) (is_up : bool)
    (center normalize homogeneous : bool) : M loc :=
  zeros <- lift (np_zeros 0 (pentagon_h self) (pentagon_l self)) ;;
  canvas <- alloc (NdMask zeros) ;;
  cv2_drawContours L canvas pentagon (if is_up then 1 else 0) ;;;
  m <- load_Mask canvas ;;
  coords <- alloc (NdI (argwhere_eq1_rev m)) ;;
  (if center then
     rows <- load_I coords ;;
     store coords (NdI (map (fun r => alter (fun x => x - pentagon_l self / 2) 0%nat r) rows)) ;;;
     dy <- lift (if is_up
                 then py_int (fl (pentagon_h self) - height_to_centre self)%float
                 else py_int (height_to_centre self)) ;;
     rows <- load_I coords ;;
     store coords (NdI (map (fun r => alter (fun y => y - dy) 1%nat r) rows))
   else ret tt) ;;;
  coords <- (if normalize then
               c <- load coords ;;
               match c with
               | NdI rows =>
                   alloc (NdF (map (map (fun z => (fl z / fl (pentagon_l self))%float)) rows))
               | NdF rows =>
                   alloc (NdF (map (map (fun z => (z / fl (pentagon_l self))%float)) rows))
               | _ => throw TypeError
               end
             else ret coords) ;;
  coords <- (if homogeneous then
               c <- load coords ;;
               match c with
               | NdI rows => alloc (NdI (map (fun r => r ++ [1]) rows))
               | NdF rows => alloc (NdF (map (fun r => r ++ [fl 1]) rows))
               | _ => throw TypeError
               end
             else ret coords) ;;
  ret coords.

(** [get_face_xyz] *)
Definition get_face_xyz (face_no : Z) : M loc :=
  tbl <- load_I (faces self) ;;
  face <- lift (index_row tbl face_no) ;;
  verts <- load_F (vertices self) ;;
  vertex_xyz <- lift (take_rows verts face) ;;
  let center := np_mean_axis0 L vertex_xyz in
  let norm := np_linalg_norm L center in
  let norm_center := map (fun c => (c / norm)%float) center in
  xyz <- get_pentagon_coords (resolution self) (get_is_up face_no) true true true ;;
  let xy_scale_factor := (2 * l self + fl (resolution self))%float in
  (* xyz[:, :2] *= xy_scale_factor *)
  rows <- load_F xyz ;;
  store xyz (NdF (map (fun r => map (fun c => (c * xy_scale_factor)%float) (firstn 2 r)
                                ++ skipn 2 r) rows)) ;;;
  let top_circumradius := (fl (resolution self) / (2 * np_sin L (np_pi / 5)))%float in
  let sphere_radius :=
    (fl (resolution self) / ((PrimFloat.sqrt 5 - 1) / PrimFloat.sqrt 3))%float in
  let z_scale_factor :=
    np_power L (np_power L sphere_radius 2 - np_power L top_circumradius 2) 0.5 in
  (* xyz[:, 2] *= z_scale_factor *)
  rows <- load_F xyz ;;
  store xyz (NdF (map (alter (fun c => (c * z_scale_factor)%float) 2%nat) rows)) ;;;
  let pt := utils_xyz_2_polar L norm_center in
  z_rotation_offset <- lift (get_rotation face_no) ;;
  rows <- load_F xyz ;;
  pentagon_xyz <- alloc (NdF (np_matmul L rows
                     (R_from_euler_yxz L (- pt.1)%float pt.2 z_rotation_offset))) ;;
  ret pentagon_xyz.

(** [get_face_rgb] *)
Definition get_face_rgb (face_no : Z) (eq_image : loc) (rotation_offset : float) : M loc :=
  check_eq_image_shape eq_image ;;;
  xyz <- get_face_xyz face_no ;;
  rows <- load_F xyz ;;
  let ray_xyz := map (fun r => map (fun c => (c / np_linalg_norm L r)%float) r) rows in
  let polar := map (utils_xyz_2_polar L) ray_xyz in
  phi <- alloc (NdFv (map fst polar)) ;;
  let theta := map snd polar in
  (* phi += rotation_offset *)
  v <- load_Fv phi ;;
  store phi (NdFv (map (fun a => (a + rotation_offset)%float) v)) ;;;
  im <- load_Pano eq_image ;;
  v <- load_Fv phi ;;
  let xy := zip_with (fun a b => utils_polar_2_equi L a b (im_h im, im_w im)) v theta in
  let rows_idx := map (fun p => astype_int 64 p.2 `mod` Z.of_nat (im_h im)) xy in
  let cols_idx := map (fun p => astype_int 64 p.1 `mod` Z.of_nat (im_w im)) xy in
  trace (EvSample (im_h im, im_w im) rows_idx cols_idx) ;;;
  px <- lift (getitem (0, 0, 0) im rows_idx cols_idx) ;;
  rgb_ <- alloc (NdRGB px) ;;
  ret rgb_.

(** The two statements by which every layout moves a face onto a canvas:
    [canvas[ys, xs, 2::-1] = colors] and [canvas[ys, xs, 3] = 255]. *)
Definition setitem_bgr (canvas : loc) (ys xs : list Z) (colors : loc) : M unit :=
  vals <- load_RGB colors ;;
  im <- load_RGBA canvas ;;
  idx <- lift (norm_indices (im_h im) (im_w im) ys xs) ;;
  vs <- lift (broadcast_rows (length idx) vals) ;;
  trace (EvWrite canvas idx) ;;;
  store canvas (NdRGBA (paste wr_bgr im idx vs)).

Definition setitem_alpha (canvas : loc) (ys xs : list Z) (a : Z) : M unit :=
  im <- load_RGBA canvas ;;
  idx <- lift (norm_indices (im_h im) (im_w im) ys xs) ;;
  trace (EvWrite canvas idx) ;;;
  store canvas (NdRGBA (paste wr_alpha im idx (replicate (length idx) a))).

(** [canvas[ys, xs] = vals], all four channels *)
Definition setitem_rgba (canvas : loc) (ys xs : list Z) (vals : list rgba) : M unit :=
  im <- load_RGBA canvas ;;
  idx <- lift (norm_indices (im_h im) (im_w im) ys xs) ;;
  vs <- lift (broadcast_rows (length idx) vals) ;;
  trace (EvWrite canvas idx) ;;;
  store canvas (NdRGBA (paste wr_all im idx vs)).

(** [xy[..., k] + offset] *)
Definition shifted (k : nat) (xy : list (list Z)) (offset : Z) : list Z :=
  map (fun v => v + offset) (column k xy).

(** [get_face_image] *)
Definition get_face_image (face_no : Z) (eq_image : loc) (rotation_offset : float) : M loc :=
  check_eq_image_shape eq_image ;;;
  colors <- get_face_rgb face_no eq_image rotation_offset ;;
  (* vertex_xyz = self.vertices[self.faces[face_no]] *)
  tbl <- load_I (faces self) ;;
  face <- lift (index_row tbl face_no) ;;
  verts <- load_F (vertices self) ;;
  vertex_xyz <- lift (take_rows verts face) ;;
  xy <- get_pentagon_coords (resolution self) (get_is_up face_no) false false false ;;
  zeros <- lift (np_zeros (0, 0, 0, 0) (pentagon_h self) (pentagon_l self)) ;;
  canvas <- alloc (NdRGBA zeros) ;;
  c <- load_I xy ;;
  setitem_bgr canvas (column 1 c) (column 0 c) colors ;;;
  c <- load_I xy ;;
  setitem_alpha canvas (column 1 c) (column 0 c) 255 ;;;
  ret canvas.

(** The offsets of the faces around face 0 and around face 11, as the loops of
    [unwrap] and [half_unwrap] compute them. *)
Definition upper_offsets (face_0_x_offset face_0_y_offset num : Z) : float * float :=
  let rotational_offset := (- np_pi / 5 - fl num * (np_pi * 2 / 5))%float in
  let upper_x_offset :=
    (fl face_0_x_offset + 2 * height_to_centre self * np_sin L rotational_offset)%float in
  let upper_y_center_offset :=
    (height_to_centre self - fl (scaled_edge_length self) / (2 * np_sin L (np_pi / 5)))%float in
  let upper_y_offset :=
    (fl face_0_y_offset + upper_y_center_offset
     + 2 * height_to_centre self * np_cos L rotational_offset)%float in
  (upper_y_offset, upper_x_offset).

Definition lower_offsets (face_11_x_offset face_11_y_offset num : Z) : float * float :=
  let rotational_offset := (np_pi * 1 / 5 - fl num * (np_pi * 2 / 5))%float in
  let lower_x_offset :=
    (fl face_11_x_offset + 2 * height_to_centre self * np_sin L rotational_offset)%float in
  let lower_y_center_offset :=
    (height_to_centre self - fl (scaled_edge_length self) / (2 * np_sin L (np_pi / 5)))%float in
  let lower_y_offset :=
    (fl face_11_y_offset - lower_y_center_offset
     - 2 * height_to_centre self * np_cos L rotational_offset)%float in
  (lower_y_offset, lower_x_offset).

(** [canvas[xy[..., 1] + oy, xy[..., 0] + ox, 2::-1] = colors[face]] followed
    by [canvas[xy[..., 1] + oy, xy[..., 0] + ox, 3] = 255]. *)
Definition put_face (canvas xy : loc) (oy ox : Z) (colors : list loc) (face : Z) : M unit :=
  col <- lift (index_row colors face) ;;
  c <- load_I xy ;;
  setitem_bgr canvas (shifted 1 c oy) (shifted 0 c ox) col ;;;
  c <- load_I xy ;;
  setitem_alpha canvas (shifted 1 c oy) (shifted 0 c ox) 255.

(** [unwrap] *)
Definition unwrap (eq_image : loc) (rotation_offset : float) : M loc :=
  check_eq_image_shape eq_image ;;;
  colors <- map_m (fun i => get_face_rgb i eq_image rotation_offset) (py_range 12) ;;
  canvas_length <-
    lift (py_int (fl (3 * (pentagon_l self + resolution self)) + l self)%float) ;;
  canvas_height <- lift (py_int (fl (2 * pentagon_h self) + h self)%float) ;;
  zeros <- lift (np_zeros (0, 0, 0, 0) canvas_height canvas_length) ;;
  canvas <- alloc (NdRGBA zeros) ;;
  xy_up <- get_pentagon_coords (resolution self) true false false false ;;
  xy_down <- get_pentagon_coords (resolution self) false false false false ;;
  (* top face *)
  face_0_x_offset <- lift (py_int (fl (pentagon_l self) - l self)%float) ;;
  let face_0_y_offset := pentagon_h self in
  put_face canvas xy_down face_0_y_offset face_0_x_offset colors 0 ;;;
  (* faces 1-5 *)
  for_each (py_range 5) (fun num =>
    let face := 1 + num in
    let off := upper_offsets face_0_x_offset face_0_y_offset num in
    oy <- lift (py_int off.1) ;;
    ox <- lift (py_int off.2) ;;
    put_face canvas xy_up oy ox colors face) ;;;
  (* bottom face *)
  let face_11_x_offset := 2 * (pentagon_l self + resolution self) in
  face_11_y_offset <- lift (py_int (h self)) ;;
  put_face canvas xy_up face_11_y_offset face_11_x_offset colors 11 ;;;
  (* faces 6-10 *)
  for_each (py_range 5) (fun num =>
    let face := 6 + num in
    let off := lower_offsets face_11_x_offset face_11_y_offset num in
    oy <- lift (py_int off.1) ;;
    ox <- lift (py_int off.2) ;;
    put_face canvas xy_down oy ox colors face) ;;;
  ret canvas.

(** [half_unwrap]; the result is the pair [(canvas_lower, canvas_upper)]. *)
Definition half_unwrap (eq_image : loc) (rotation_offset : float) : M (loc * loc) :=
  check_eq_image_shape eq_image ;;;
  colors <- map_m (fun i => get_face_rgb i eq_image rotation_offset) (py_range 12) ;;
  let canvas_length := 2 * pentagon_l self + resolution self in
  canvas_height <- lift (py_int (fl (2 * pentagon_h self) + h self)%float) ;;
  zeros <- lift (np_zeros (0, 0, 0, 0) canvas_height canvas_length) ;;
  canvas_upper <- alloc (NdRGBA zeros) ;;
  zeros <- lift (np_zeros (0, 0, 0, 0) canvas_height canvas_length) ;;
  canvas_lower <- alloc (NdRGBA zeros) ;;
  xy_up <- get_pentagon_coords (resolution self) true false false false ;;
  xy_down <- get_pentagon_coords (resolution self) false false false false ;;
  (* top face *)
  face_0_x_offset <- lift (py_int (fl (pentagon_l self) - l self)%float) ;;
  let face_0_y_offset := pentagon_h self in
  put_face canvas_lower xy_down face_0_y_offset face_0_x_offset colors 0 ;;;
  (* faces 1-5 *)
  for_each (py_range 5) (fun num =>
    let face := 1 + num in
    let off := upper_offsets face_0_x_offset face_0_y_offset num in
    oy <- lift (py_int off.1) ;;
    ox <- lift (py_int off.2) ;;
    put_face canvas_lower xy_up oy ox colors face) ;;;
  (* bottom face *)
  face_11_x_offset <- lift (py_int (l self + fl (resolution self))%float) ;;
  face_11_y_offset <- lift (py_int (h self)) ;;
  put_face canvas_upper xy_up face_11_y_offset face_11_x_offset colors 11 ;;;
  (* faces 6-10 *)
  for_each (py_range 5) (fun num =>
    let face := 6 + num in
    let off := lower_offsets face_11_x_offset face_11_y_offset num in
    oy <- lift (py_int off.1) ;;
    ox <- lift (py_int off.2) ;;
    put_face canvas_upper xy_down oy ox colors face) ;;;
  ret (canvas_lower, canvas_upper).

(** The public method [rotate_face_rgb] *)
Definition rotate_face_rgb (rgb_ : loc) (rotation_deg : float) (is_up : bool) : M loc :=
  zeros <- lift (np_zeros (0, 0, 0, 0) (2 * circumradius self) (2 * circumradius self)) ;;
  padded_rgb <- alloc (NdRGBA zeros) ;;
  padding_top <- lift (if is_up then Ok 0
                       else py_int (fl (circumradius self) - height_to_centre self)%float) ;;
  padding_left <-
    lift (py_int (fl (circumradius self) - fl (pentagon_l self) / 2)%float) ;;
  xy <- get_pentagon_coords (resolution self) is_up false false false ;;
  c <- load_I xy ;;
  setitem_bgr padded_rgb (shifted 1 c padding_top) (shifted 0 c padding_left) rgb_ ;;;
  c <- load_I xy ;;
  setitem_alpha padded_rgb (shifted 1 c padding_top) (shifted 0 c padding_left) 255 ;;;
  let rotation_matrix :=
    cv2_getRotationMatrix2D L (circumradius self, circumradius self) rotation_deg 1 in
  src <- load_RGBA padded_rgb ;;
  rotated_canvas <- alloc (NdRGBA (cv2_warpAffine L src rotation_matrix
                                     (circumradius self * 2, circumradius self * 2))) ;;
  ret rotated_canvas.

(** The function [rotate_face_rgb] nested in [a4_optimised_unwrap] *)
Definition a4_rotate_face_rgb (rgb_ : loc) (rotation_deg : float) (is_up : bool) : M loc :=
  zeros <- lift (np_zeros (0, 0, 0, 0) (2 * circumradius self) (2 * circumradius self)) ;;
  padded_rgb <- alloc (NdRGBA zeros) ;;
  padding_top <- lift (if is_up then Ok 0
                       else py_int (fl (circumradius self) - height_to_centre self)%float) ;;
  padding_left <-
    lift (py_int (fl (circumradius self) - fl (pentagon_l self) / 2)%float) ;;
  xy <- get_pentagon_coords (resolution self) is_up false false false ;;
  c <- load_I xy ;;
  setitem_bgr padded_rgb (shifted 1 c padding_top) (shifted 0 c padding_left) rgb_ ;;;
  c <- load_I xy ;;
  setitem_alpha padded_rgb (shifted 1 c padding_top) (shifted 0 c padding_left) 255 ;;;
  let rotation_matrix :=
    cv2_getRotationMatrix2D L (circumradius self, circumradius self) rotation_deg 1 in
  src <- load_RGBA padded_rgb ;;
  rotated_canvas <- alloc (NdRGBA (cv2_warpAffine L src rotation_matrix
                                     (circumradius self * 2, circumradius self * 2))) ;;
  ret rotated_canvas.

(** In [a4_optimised_unwrap], a face goes through the rotated square:
    [rotated_rgba = rotated_canvas[xy[..., 1] + top, xy[..., 0] + left]] and
    [canvas[xy[..., 1] + oy, xy[..., 0] + ox] = rotated_rgba]. *)
Definition put_rotated (canvas rotated_canvas xy : loc) (top left oy ox : Z) : M unit :=
  c <- load_I xy ;;
  src <- load_RGBA rotated_canvas ;;
  rotated_rgba <- lift (getitem (0, 0, 0, 0) src (shifted 1 c top) (shifted 0 c left)) ;;
  c <- load_I xy ;;
  setitem_rgba canvas (shifted 1 c oy) (shifted 0 c ox) rotated_rgba.

(** The branches of the first loop of [a4_optimised_unwrap]:
    [(upper_y_offset, upper_x_offset)] of face [1 + num]. *)
Definition a4_upper_offsets (face_0_x_offset face_0_y_offset face : Z) : Result (Z * Z) :=
  let pl := fl (pentagon_l self) in
  let x0 := fl face_0_x_offset in
  let y0 := fl face_0_y_offset in
  if face =? 1 then
    x <~ py_int (x0 - fl (3 * pentagon_l self) / 2 + l self)%float ;;
    Ok (face_0_y_offset, x)
  else if face =? 2 then
    y <~ py_int (y0 - h self)%float ;;
    x <~ py_int (x0 - pl + l self)%float ;;
    Ok (y, x)
  else if face =? 3 then
    Ok (face_0_y_offset - pentagon_h self, face_0_x_offset)
  else if face =? 4 then
    y <~ py_int (y0 - h self)%float ;;
    x <~ py_int (x0 + pl - l self)%float ;;
    Ok (y, x)
  else if face =? 5 then
    x <~ py_int (x0 + fl (3 * pentagon_l self) / 2 - l self)%float ;;
    Ok (face_0_y_offset, x)
  else Err UnboundLocalError.

(** The branches of the second loop: [(rotational_offset, upper_y_offset,
    upper_x_offset, rotated_is_up)] of face [6 + num]. *)
Definition a4_lower_table (face_0_x_offset face_0_y_offset face : Z)
  : Result (Z * Z * Z * bool) :=
  let pl := fl (pentagon_l self) in
  let ph := fl (pentagon_h self) in
  let e := fl (scaled_edge_length self) in
  let x0 := fl face_0_x_offset in
  let y0 := fl face_0_y_offset in
  if face =? 6 then
    y <~ py_int (y0 - h self - ph)%float ;;
    x <~ py_int (x0 - pl + l self)%float ;;
    Ok (252, y, x, true)
  else if face =? 7 then
    y <~ py_int (y0 - h self - ph)%float ;;
    x <~ py_int (x0 + pl - l self)%float ;;
    Ok (108, y, x, true)
  else if face =? 8 then
    Ok (36, face_0_y_offset - pentagon_h self,
        face_0_x_offset + pentagon_l self + scaled_edge_length self, true)
  else if face =? 9 then
    y <~ py_int (y0 - h self)%float ;;
    x <~ py_int (x0 - 3 * l self - fl (3 * scaled_edge_length self))%float ;;
    Ok (0, y, x, false)
  else if face =? 10 then
    x <~ py_int (x0 - 2 * l self - fl (2 * scaled_edge_length self))%float ;;
    Ok (324, face_0_y_offset - pentagon_h self, x, true)
  else if face =? 11 then
    y <~ py_int (y0 - h self - ph)%float ;;
    x <~ py_int (x0 - 3 * l self - 2.5 * e)%float ;;
    Ok (324, y, x, false)
  else Err UnboundLocalError.

(** [a4_optimised_unwrap] *)
Definition a4_optimised_unwrap (eq_image : loc) (rotation_offset : float) : M loc :=
  check_eq_image_shape eq_image ;;;
  colors <- map_m (fun i => get_face_rgb i eq_image rotation_offset) (py_range 12) ;;
  canvas_length <-
    lift (py_int (fl (3 * (pentagon_l self + scaled_edge_length self)) + l self)%float) ;;
  canvas_height <- lift (py_int (fl (2 * pentagon_h self) + h self)%float) ;;
  zeros <- lift (np_zeros (0, 0, 0, 0) canvas_height canvas_length) ;;
  canvas <- alloc (NdRGBA zeros) ;;
  xy_up <- get_pentagon_coords (resolution self) true false false false ;;
  xy_down <- get_pentagon_coords (resolution self) false false false false ;;
  padding_top <- lift (py_int (fl (circumradius self) - height_to_centre self)%float) ;;
  padding_left <-
    lift (py_int (fl (circumradius self) - fl (pentagon_l self) / 2)%float) ;;
  (* top face *)
  face_0_x_offset <-
    lift (py_int (fl (2 * pentagon_l self + scaled_edge_length self) - l self)%float) ;;
  face_0_y_offset <- lift (py_int (fl (pentagon_h self) + h self)%float) ;;
  let face_0_rotation_offset := 0 in
  col <- lift (index_row colors 0) ;;
  rotated_canvas <- a4_rotate_face_rgb col (fl face_0_rotation_offset) (get_is_up 0) ;;
  put_rotated canvas rotated_canvas xy_down padding_top padding_left
    face_0_y_offset face_0_x_offset ;;;
  (* faces 1-5 *)
  for_each (py_range 5) (fun num =>
    let face := 1 + num in
    let rotational_offset := -72 + 36 * num in
    off <- lift (a4_upper_offsets face_0_x_offset face_0_y_offset face) ;;
    let upper_y_offset := off.1 in
    let upper_x_offset := off.2 in
    col <- lift (index_row colors face) ;;
    rotated_canvas <- a4_rotate_face_rgb col (fl rotational_offset) (get_is_up face) ;;
    let rotated_is_up := (num + 1) `mod` 2 =? 1 in
    if rotated_is_up
    then put_rotated canvas rotated_canvas xy_up 0 padding_left upper_y_offset upper_x_offset
    else put_rotated canvas rotated_canvas xy_down padding_top padding_left
           upper_y_offset upper_x_offset) ;;;
  (* faces 6-11 *)
  for_each (py_range 6) (fun num =>
    let face := 6 + num in
    row <- lift (a4_lower_table face_0_x_offset face_0_y_offset face) ;;
    let rotational_offset := row.1.1.1 in
    let upper_y_offset := row.1.1.2 in
    let upper_x_offset := row.1.2 in
    let rotated_is_up := row.2 in
    col <- lift (index_row colors face) ;;
    rotated_canvas <- a4_rotate_face_rgb col (fl rotational_offset) (get_is_up face) ;;
    if rotated_is_up
    then put_rotated canvas rotated_canvas xy_up 0 padding_left upper_y_offset upper_x_offset
    else put_rotated canvas rotated_canvas xy_down padding_top padding_left
           upper_y_offset upper_x_offset) ;;;
  ret canvas.

End WithSelf.
End Methods.
End DodecahedralSampler.

(** * A reference library

    An executable instance of [Library], used to run the methods on concrete
    inputs.  The trigonometric functions are series evaluated in binary64;
    the polygon fill is the inclusive point-in-convex-polygon test; the
    affine warp maps every destination pixel back into the source, blends
    the four neighbouring pixels and takes 0 outside the source. *)

Module Reference.

Local Open Scope float_scope.
Local Abbreviation fl := float_of_int.

Definition floor_float (x : float) : Z :=
  match trunc_float x with
  | Some z => if (x <? fl z) then (z - 1)%Z else z
  | None => 0%Z
  end.

Fixpoint sin_series (n : nat) (k : Z) (term x2 acc : float) : float :=
  match n with
  | O => acc
  | S n' =>
      let term' := - term * x2 / (fl ((k + 1) * (k + 2))) in
      sin_series n' (k + 2) term' x2 (acc + term')
  end.

(** The argument brought into [[-pi, pi]]. *)
Definition reduce_angle (x : float) : float :=
  x - fl (floor_float (x / (2 * np_pi) + 0.5)) * (2 * np_pi).

Definition sin (x : float) : float :=
  let r := reduce_angle x in sin_series 16 1 r (r * r) r.

Definition cos (x : float) : float :=
  let r := reduce_angle x in sin_series 16 0 1 (r * r) 1.

Definition tan (x : float) : float := sin x / cos x.

Definition power (x y : float) : float :=
  if y =? 2 then x * x else if y =? 0.5 then PrimFloat.sqrt x else nan.

(** [atan] on [[-1, 1]]: three halvings of the angle, then the series. *)
Fixpoint atan_series (n : nat) (k : Z) (term x2 acc : float) : float :=
  match n with
  | O => acc
  | S n' =>
      let term' := - term * x2 in
      atan_series n' (k + 2) term' x2 (acc + term' / fl (k + 2))
  end.

Definition atan_small (t : float) : float :=
  let half u := u / (1 + PrimFloat.sqrt (1 + u * u)) in
  let u := half (half (half t)) in
  8 * atan_series 12 1 u (u * u) u.

Definition atan2 (y x : float) : float :=
  if (x =? 0) && (y =? 0) then 0
  else if abs y <=? abs x then
    let a := atan_small (y / x) in
    if 0 <? x then a else if 0 <=? y then a + np_pi else a - np_pi
  else
    let a := atan_small (x / y) in
    if 0 <? y then np_pi / 2 - a else - np_pi / 2 - a.

Definition asin (y : float) : float := atan2 y (PrimFloat.sqrt (1 - y * y)).

Definition fsum (v : list float) : float := fold_left PrimFloat.add v 0.

Definition norm (v : list float) : float :=
  PrimFloat.sqrt (fsum (map (fun c => c * c) v)).

Definition fnth (k : nat) (v : list float) : float := nth k v 0.

Definition mean_axis0 (rows : list (list float)) : list float :=
  match rows with
  | [] => []
  | r :: _ =>
      map (fun k => fsum (map (fnth k) rows) / fl (Z.of_nat (length rows)))
          (seq 0 (length r))
  end.

Definition matmul (a b : list (list float)) : list (list float) :=
  match b with
  | [] => map (fun _ => []) a
  | b0 :: _ =>
      map (fun r => map (fun k => fsum (zip_with PrimFloat.mul r (map (fnth k) b)))
                        (seq 0 (length b0))) a
  end.

Definition rot_x (a : float) : list (list float) :=
  [[1; 0; 0]; [0; cos a; - sin a]; [0; sin a; cos a]].
Definition rot_y (a : float) : list (list float) :=
  [[cos a; 0; sin a]; [0; 1; 0]; [- sin a; 0; cos a]].
Definition rot_z (a : float) : list (list float) :=
  [[cos a; - sin a; 0]; [sin a; cos a; 0]; [0; 0; 1]].

(** Extrinsic rotations about y, then x, then z. *)
Definition from_euler_yxz (a b c : float) : list (list float) :=
  matmul (rot_z c) (matmul (rot_x b) (rot_y a)).

Definition rotate_on_axis (v : list float) (ax : Axis) (a : float) : list float :=
  let m := match ax with AxisX => rot_x a | AxisY => rot_y a | AxisZ => rot_z a end in
  map (fun r => fsum (zip_with PrimFloat.mul r v)) m.

Definition xyz_2_polar (v : list float) : float * float :=
  let n := norm v in
  (atan2 (fnth 0 v / n) (fnth 2 v / n), asin (fnth 1 v / n)).

Definition polar_2_equi (phi theta : float) (shape : nat * nat) : float * float :=
  ((phi / (2 * np_pi) + 0.5) * fl (Z.of_nat shape.2),
   (0.5 - theta / np_pi) * fl (Z.of_nat shape.1)).

(** The pixel lies in the closed convex polygon: it is on the same side of
    every edge. *)
Definition side (p q : Z * Z) (x y : Z) : Z :=
  ((q.1 - p.1) * (y - p.2) - (q.2 - p.2) * (x - p.1))%Z.

Definition filled (contour : list (Z * Z)) (x y : Z) : bool :=
  match contour with
  | [] => false
  | p0 :: rest =>
      let edges := zip contour (rest ++ [p0]) in
      forallb (fun e => (0 <=? side e.1 e.2 x y)%Z) edges
      || forallb (fun e => (side e.1 e.2 x y <=? 0)%Z) edges
  end.

Definition getRotationMatrix2D (center : Z * Z) (angle scale : float) : list (list float) :=
  let a := scale * cos (angle * np_pi / 180) in
  let b := scale * sin (angle * np_pi / 180) in
  let cx := fl center.1 in
  let cy := fl center.2 in
  [[a; b; (1 - a) * cx - b * cy]; [- b; a; b * cx + (1 - a) * cy]].

Definition round_float (x : float) : Z := floor_float (x + 0.5).

Definition blend (w00 w01 w10 w11 : float) (a b c d : Z) : Z :=
  round_float (w00 * fl a + w01 * fl b + w10 * fl c + w11 * fl d).

Definition src_px (src : image rgba) (y x : Z) : rgba :=
  if ((0 <=? y) && (y <? Z.of_nat (im_h src)) && (0 <=? x) && (x <? Z.of_nat (im_w src)))%Z
  then px_get (0, 0, 0, 0)%Z src (Z.to_nat y) (Z.to_nat x)
  else (0, 0, 0, 0)%Z.

Definition warp_pixel (src : image rgba) (m : list (list float)) (y x : nat) : rgba :=
  let m11 := fnth 0 (nth 0 m []) in let m12 := fnth 1 (nth 0 m []) in
  let b1 := fnth 2 (nth 0 m []) in
  let m21 := fnth 0 (nth 1 m []) in let m22 := fnth 1 (nth 1 m []) in
  let b2 := fnth 2 (nth 1 m []) in
  let d := m11 * m22 - m12 * m21 in
  let u := fl (Z.of_nat x) - b1 in
  let v := fl (Z.of_nat y) - b2 in
  let sx := (m22 * u - m12 * v) / d in
  let sy := (m11 * v - m21 * u) / d in
  let x0 := floor_float sx in
  let y0 := floor_float sy in
  let fx := sx - fl x0 in
  let fy := sy - fl y0 in
  let '(a0, a1, a2, a3) := src_px src y0 x0 in
  let '(b0, b1_, b2_, b3) := src_px src y0 (x0 + 1) in
  let '(c0, c1, c2, c3) := src_px src (y0 + 1) x0 in
  let '(d0, d1, d2, d3) := src_px src (y0 + 1) (x0 + 1) in
  let w00 := (1 - fx) * (1 - fy) in
  let w01 := fx * (1 - fy) in
  let w10 := (1 - fx) * fy in
  let w11 := fx * fy in
  (blend w00 w01 w10 w11 a0 b0 c0 d0, blend w00 w01 w10 w11 a1 b1_ c1 d1,
   blend w00 w01 w10 w11 a2 b2_ c2 d2, blend w00 w01 w10 w11 a3 b3 c3 d3).

Definition library : Library := {|
  np_sin := sin;
  np_cos := cos;
  np_tan := tan;
  np_power := power;
  np_mean_axis0 := mean_axis0;
  np_linalg_norm := norm;
  np_matmul := matmul;
  R_from_euler_yxz := from_euler_yxz;
  cv2_filled := filled;
  cv2_getRotationMatrix2D := getRotationMatrix2D;
  cv2_warp_pixel := warp_pixel;
  utils_rotate_on_axis := rotate_on_axis;
  utils_xyz_2_polar := xyz_2_polar;
  utils_polar_2_equi := polar_2_equi
|}.

End Reference.

(** * Reasoning about runs *)

(** ** One run: weakest preconditions *)

Definition wp {A} (m : M A) (Q : Result A -> State -> Prop) (st : State) : Prop :=
  Q (m st).1 (m st).2.

(** The postcondition of a run that returned; an exception satisfies it. *)
Definition returns {A} (Q : A -> State -> Prop) : Result A -> State -> Prop :=
  fun r st => match r with Ok a => Q a st | Err _ => True end.

Lemma wp_mono {A} (m : M A) (Q Q' : Result A -> State -> Prop) st :
  wp m Q st -> (forall r st', Q r st' -> Q' r st') -> wp m Q' st.
Proof. unfold wp. auto. Qed.

Lemma wp_ret {A} (a : A) Q st : Q (Ok a) st -> wp (ret a) Q st.
Proof. auto. Qed.

Lemma wp_throw {A} e (Q : Result A -> State -> Prop) st : Q (Err e) st -> wp (throw e) Q st.
Proof. auto. Qed.

Lemma wp_bind {A B} (m : M A) (f : A -> M B) Q st :
  wp m (fun r st' => match r with
                     | Ok a => wp (f a) Q st'
                     | Err e => Q (Err e) st'
                     end) st ->
  wp (bind m f) Q st.
Proof. unfold wp, bind. destruct (m st) as [[a|e] st']; auto. Qed.

Lemma wp_lift {A} (r : Result A) Q st : Q r st -> wp (lift r) Q st.
Proof. destruct r; auto. Qed.

Lemma wp_alloc c Q st :
  Q (Ok (length (heap st))) (mkState (heap st ++ [c]) (log st)) -> wp (alloc c) Q st.
Proof. auto. Qed.

Lemma wp_load p Q st :
  (forall c, heap st !! p = Some c -> Q (Ok c) st) ->
  (heap st !! p = None -> Q (Err TypeError) st) ->
  wp (load p) Q st.
Proof. unfold wp, load. intros H1 H2. destruct (heap st !! p); simpl; auto. Qed.

Lemma wp_store p c Q st :
  ((p < length (heap st))%nat -> Q (Ok tt) (mkState (<[p := c]> (heap st)) (log st))) ->
  (¬ (p < length (heap st))%nat -> Q (Err TypeError) st) ->
  wp (store p c) Q st.
Proof. unfold wp, store. intros H1 H2. destruct (decide _); simpl; auto. Qed.

Lemma wp_trace e Q st :
  Q (Ok tt) (mkState (heap st) (log st ++ [e])) -> wp (trace e) Q st.
Proof. auto. Qed.

Lemma wp_run {A} (m : M A) Q st r st' : wp m Q st -> m st = (r, st') -> Q r st'.
Proof. unfold wp. intros Hq E. rewrite E in Hq. exact Hq. Qed.

(** ** Two runs: the same program on two stores

    [σ1] and [σ2] are the stores at the start of the two runs.  During the
    runs the stores are [σ1 ++ ext] and [σ2 ++ ext] for one and the same [ext]:
    whatever the program allocates or overwrites lies in [ext].  References
    correspond when they point at the same place of [ext], or at cells of
    [σ1] and [σ2] that hold the same array. *)

Section TwoRuns.
Context (σ1 σ2 : list ndarray).

Definition fresh_rel (p1 p2 : loc) : Prop :=
  exists k : nat, p1 = (length σ1 + k)%nat /\ p2 = (length σ2 + k)%nat.

Definition input_rel (p1 p2 : loc) : Prop :=
  (p1 < length σ1)%nat /\ (p2 < length σ2)%nat /\ σ1 !! p1 = σ2 !! p2.

Definition loc_rel (p1 p2 : loc) : Prop := fresh_rel p1 p2 \/ input_rel p1 p2.

Definition res_rel {A B} (R : A -> B -> Prop) (r1 : Result A) (r2 : Result B) : Prop :=
  match r1, r2 with
  | Ok a, Ok b => R a b
  | Err e1, Err e2 => e1 = e2
  | _, _ => False
  end.

Definition rel {A B} (R : A -> B -> Prop) (m1 : M A) (m2 : M B) : Prop :=
  forall ext g1 g2, exists ext' g1' g2' r1 r2,
    m1 (mkState (σ1 ++ ext) g1) = (r1, mkState (σ1 ++ ext') g1') /\
    m2 (mkState (σ2 ++ ext) g2) = (r2, mkState (σ2 ++ ext') g2') /\
    res_rel R r1 r2.

Lemma res_rel_refl {A} (r : Result A) : res_rel eq r r.
Proof. destruct r; simpl; auto. Qed.

Lemma rel_ret {A B} (R : A -> B -> Prop) a b : R a b -> rel R (ret a) (ret b).
Proof. intros H ext g1 g2. exists ext, g1, g2, (Ok a), (Ok b). auto. Qed.

Lemma rel_throw {A B} (R : A -> B -> Prop) e : rel R (throw e) (throw e).
Proof. intros ext g1 g2. exists ext, g1, g2, (Err e), (Err e). simpl. auto. Qed.

Lemma rel_lift {A B} (R : A -> B -> Prop) r1 r2 :
  res_rel R r1 r2 -> rel R (lift r1) (lift r2).
Proof.
  destruct r1, r2; simpl; intros H; try contradiction.
  - by apply rel_ret.
  - subst. apply rel_throw.
Qed.

Lemma rel_lift_eq {A} (r : Result A) : rel eq (lift r) (lift r).
Proof. apply rel_lift, res_rel_refl. Qed.

Lemma rel_bind {A1 A2 B1 B2} (R : A1 -> A2 -> Prop) (S : B1 -> B2 -> Prop)
    (m1 : M A1) (m2 : M A2) (f1 : A1 -> M B1) (f2 : A2 -> M B2) :
  rel R m1 m2 ->
  (forall a b, R a b -> rel S (f1 a) (f2 b)) ->
  rel S (bind m1 f1) (bind m2 f2).
Proof.
  intros Hm Hf ext g1 g2.
  destruct (Hm ext g1 g2) as (ext' & g1' & g2' & r1 & r2 & E1 & E2 & Hr).
  unfold bind. rewrite E1, E2.
  destruct r1 as [a|e1], r2 as [b|e2]; simpl in Hr; try contradiction.
  - apply (Hf a b Hr).
  - subst. exists ext', g1', g2', (Err e2), (Err e2). simpl. auto.
Qed.

Lemma rel_mono {A B} (R R' : A -> B -> Prop) m1 m2 :
  rel R m1 m2 -> (forall a b, R a b -> R' a b) -> rel R' m1 m2.
Proof.
  intros Hm HR ext g1 g2.
  destruct (Hm ext g1 g2) as (ext' & g1' & g2' & r1 & r2 & E1 & E2 & Hr).
  exists ext', g1', g2', r1, r2. repeat split; auto.
  destruct r1, r2; simpl in *; auto.
Qed.

Lemma rel_alloc c : rel fresh_rel (alloc c) (alloc c).
Proof.
  intros ext g1 g2. unfold alloc; simpl.
  exists (ext ++ [c]), g1, g2, (Ok (length (σ1 ++ ext))), (Ok (length (σ2 ++ ext))).
  rewrite <- !app_assoc. repeat split; auto.
  exists (length ext). rewrite !length_app. auto.
Qed.

Lemma lookup_rel p1 p2 ext : loc_rel p1 p2 -> (σ1 ++ ext) !! p1 = (σ2 ++ ext) !! p2.
Proof.
  intros [(k & -> & ->) | (H1 & H2 & E)].
  - rewrite !lookup_app_r by lia. f_equal. lia.
  - rewrite !lookup_app_l by lia. exact E.
Qed.

Lemma rel_load p1 p2 : loc_rel p1 p2 -> rel eq (load p1) (load p2).
Proof.
  intros H ext g1 g2. unfold load; simpl.
  rewrite (lookup_rel p1 p2 ext H).
  destruct ((σ2 ++ ext) !! p2) as [c|].
  - exists ext, g1, g2, (Ok c), (Ok c). simpl. auto.
  - exists ext, g1, g2, (Err TypeError), (Err TypeError). simpl. auto.
Qed.

Lemma rel_store p1 p2 c : fresh_rel p1 p2 -> rel eq (store p1 c) (store p2 c).
Proof.
  intros (k & -> & ->) ext g1 g2. unfold store; simpl.
  rewrite !length_app.
  destruct (decide (k < length ext)%nat) as [Hk|Hk].
  - exists (<[k := c]> ext), g1, g2, (Ok tt), (Ok tt).
    rewrite !decide_True by lia.
    rewrite !insert_app_r_alt by lia.
    replace (length σ1 + k - length σ1)%nat with k by lia.
    replace (length σ2 + k - length σ2)%nat with k by lia.
    simpl. auto.
  - exists ext, g1, g2, (Err TypeError), (Err TypeError).
    rewrite !decide_False by lia. simpl. auto.
Qed.

Lemma rel_trace e1 e2 : rel eq (trace e1) (trace e2).
Proof.
  intros ext g1 g2. exists ext, (g1 ++ [e1]), (g2 ++ [e2]), (Ok tt), (Ok tt).
  simpl. auto.
Qed.

Lemma rel_for_each {A} (xs : list A) body1 body2 :
  (forall x, rel eq (body1 x) (body2 x)) ->
  rel eq (for_each xs body1) (for_each xs body2).
Proof.
  intros Hb. induction xs as [|x xs IH]; simpl.
  - by apply rel_ret.
  - eapply rel_bind; [apply Hb|]. intros _ _ _. apply IH.
Qed.

Lemma rel_map_m {A B1 B2} (R : B1 -> B2 -> Prop) (xs : list A) f1 f2 :
  (forall x, rel R (f1 x) (f2 x)) ->
  rel (Forall2 R) (map_m f1 xs) (map_m f2 xs).
Proof.
  intros Hf. induction xs as [|x xs IH]; simpl.
  - apply rel_ret. constructor.
  - eapply rel_bind; [apply Hf|]. intros y1 y2 Hy.
    eapply rel_bind; [apply IH|]. intros ys1 ys2 Hys.
    apply rel_ret. by constructor.
Qed.

Lemma fresh_loc_rel p1 p2 : fresh_rel p1 p2 -> loc_rel p1 p2.
Proof. by left. Qed.

End TwoRuns.

(** ** The methods, run twice *)

Section MethodsTwice.
Import DodecahedralSampler.
Context (L : Library) (σ1 σ2 : list ndarray).

Local Abbreviation Rel := (rel σ1 σ2).
Local Abbreviation fresh := (fresh_rel σ1 σ2).
Local Abbreviation related := (loc_rel σ1 σ2).

(** Two sampler objects with the same numbers, whose tables correspond. *)
Definition sampler_rel (s1 s2 : Sampler) : Prop :=
  unit_edge_length s1 = unit_edge_length s2 /\
  resolution s1 = resolution s2 /\
  scaled_edge_length s1 = scaled_edge_length s2 /\
  h s1 = h s2 /\
  l s1 = l s2 /\
  pentagon_l s1 = pentagon_l s2 /\
  height_to_centre s1 = height_to_centre s2 /\
  pentagon_h s1 = pentagon_h s2 /\
  circumradius s1 = circumradius s2 /\
  related (faces s1) (faces s2) /\
  related (vertices s1) (vertices s2).

Ltac rel_load_typed :=
  intros; eapply rel_bind; [apply rel_load; eassumption|];
  intros c ? <-; destruct c; first [by apply rel_ret | apply rel_throw].

Lemma rel_load_F p1 p2 : related p1 p2 -> Rel eq (load_F p1) (load_F p2).
Proof. rel_load_typed. Qed.
Lemma rel_load_Fv p1 p2 : related p1 p2 -> Rel eq (load_Fv p1) (load_Fv p2).
Proof. rel_load_typed. Qed.
Lemma rel_load_I p1 p2 : related p1 p2 -> Rel eq (load_I p1) (load_I p2).
Proof. rel_load_typed. Qed.
Lemma rel_load_Mask p1 p2 : related p1 p2 -> Rel eq (load_Mask p1) (load_Mask p2).
Proof. rel_load_typed. Qed.
Lemma rel_load_RGB p1 p2 : related p1 p2 -> Rel eq (load_RGB p1) (load_RGB p2).
Proof. rel_load_typed. Qed.
Lemma rel_load_Pano p1 p2 : related p1 p2 -> Rel eq (load_Pano p1) (load_Pano p2).
Proof. rel_load_typed. Qed.
Lemma rel_load_RGBA p1 p2 : related p1 p2 -> Rel eq (load_RGBA p1) (load_RGBA p2).
Proof. rel_load_typed. Qed.

Create HintDb rel discriminated.
Hint Resolve fresh_loc_rel : rel.
Hint Resolve rel_load_F rel_load_Fv rel_load_I rel_load_Mask rel_load_RGB rel_load_Pano
  rel_load_RGBA : rel.

(** Two runs of the same code correspond: the proof follows the code. *)
Ltac rel_go :=
  lazymatch goal with
  | |- rel _ _ _ (ret _) (ret _) =>
      apply rel_ret; first [eassumption | exact eq_refl | auto with rel]
  | |- rel _ _ _ (throw _) (throw _) => apply rel_throw
  | |- rel _ _ _ (lift _) (lift _) =>
      first [apply rel_lift_eq | apply rel_lift; eauto with rel]
  | |- rel _ _ _ (map_m _ _) (map_m _ _) => apply rel_map_m; intros ?; rel_go
  | |- rel _ _ _ (alloc _) (alloc _) => apply rel_alloc
  | |- rel _ _ _ (store _ _) (store _ _) => apply rel_store; assumption
  | |- rel _ _ _ (trace _) (trace _) => apply rel_trace
  | |- rel _ _ _ (load _) (load _) => apply rel_load; auto with rel
  | |- rel _ _ _ (for_each _ _) (for_each _ _) => apply rel_for_each; intros ?; rel_go
  | |- rel _ _ _ (bind (if ?b then _ else _) _) (bind (if ?b then _ else _) _) =>
      destruct b; rel_go
  | |- rel _ _ _ (bind (match ?x with _ => _ end) _) (bind (match ?x with _ => _ end) _) =>
      destruct x; rel_go
  | |- rel _ _ _ (bind _ _) (bind _ _) =>
      eapply rel_bind;
      [ rel_go
      | let H := fresh "R" in intros ? ? H; try subst; rel_go ]
  | |- rel _ _ _ (if ?b then _ else _) (if ?b then _ else _) => destruct b; rel_go
  | |- rel _ _ _ (match ?x with _ => _ end) (match ?x with _ => _ end) =>
      destruct x; rel_go
  | |- rel _ _ _ _ _ => try solve [eauto with rel]
  end.

Ltac rel_auto := rel_go.

Lemma check_eq_image_shape_rel p1 p2 :
  related p1 p2 -> Rel eq (check_eq_image_shape p1) (check_eq_image_shape p2).
Proof. intros. unfold check_eq_image_shape. rel_auto. Qed.

Lemma cv2_drawContours_rel c1 c2 contours idx :
  fresh c1 c2 -> Rel eq (cv2_drawContours L c1 contours idx) (cv2_drawContours L c2 contours idx).
Proof. intros. unfold cv2_drawContours. rel_auto. Qed.

Lemma get_vertices_rel u r : Rel fresh (get_vertices L u r) (get_vertices L u r).
Proof. unfold get_vertices. rel_auto. Qed.

Hint Resolve check_eq_image_shape_rel cv2_drawContours_rel get_vertices_rel : rel.

Lemma init_rel res : Rel sampler_rel (init L res) (init L res).
Proof.
  unfold init. rel_auto.
  unfold sampler_rel; simpl. repeat split; auto with rel.
Qed.

(** The scalars of [s2] replaced by those of [s1]. *)
Ltac same_scalars H s2 :=
  let H' := fresh "Hs" in
  pose proof H as H';
  destruct s2; unfold sampler_rel in H; simpl in H;
  destruct H as (? & ? & ? & ? & ? & ? & ? & ? & ? & ? & ?); subst.

Lemma get_pentagon_coords_rel s1 s2 b1 b2 up c n hm :
  sampler_rel s1 s2 ->
  Rel fresh (get_pentagon_coords L s1 b1 up c n hm) (get_pentagon_coords L s2 b2 up c n hm).
Proof.
  intros H. same_scalars H s2.
  unfold get_pentagon_coords, pentagon; cbn [pentagon_l pentagon_h l h height_to_centre].
  rel_auto.
Qed.

Hint Resolve get_pentagon_coords_rel : rel.

Lemma get_face_xyz_rel s1 s2 face_no :
  sampler_rel s1 s2 ->
  Rel fresh (get_face_xyz L s1 face_no) (get_face_xyz L s2 face_no).
Proof.
  intros H. same_scalars H s2.
  unfold get_face_xyz; cbn [faces vertices resolution l].
  rel_auto.
Qed.

Hint Resolve get_face_xyz_rel : rel.

Lemma get_face_rgb_rel s1 s2 face_no p1 p2 rot :
  sampler_rel s1 s2 -> related p1 p2 ->
  Rel fresh (get_face_rgb L s1 face_no p1 rot) (get_face_rgb L s2 face_no p2 rot).
Proof. intros. unfold get_face_rgb. rel_auto. Qed.

Hint Resolve get_face_rgb_rel : rel.

Lemma setitem_bgr_rel c1 c2 ys xs p1 p2 :
  fresh c1 c2 -> related p1 p2 ->
  Rel eq (setitem_bgr c1 ys xs p1) (setitem_bgr c2 ys xs p2).
Proof. intros. unfold setitem_bgr. rel_auto. Qed.

Lemma setitem_alpha_rel c1 c2 ys xs a :
  fresh c1 c2 -> Rel eq (setitem_alpha c1 ys xs a) (setitem_alpha c2 ys xs a).
Proof. intros. unfold setitem_alpha. rel_auto. Qed.

Lemma setitem_rgba_rel c1 c2 ys xs vals :
  fresh c1 c2 -> Rel eq (setitem_rgba c1 ys xs vals) (setitem_rgba c2 ys xs vals).
Proof. intros. unfold setitem_rgba. rel_auto. Qed.

Hint Resolve setitem_bgr_rel setitem_alpha_rel setitem_rgba_rel : rel.

Lemma rel_index_row (cs1 cs2 : list loc) i :
  Forall2 fresh cs1 cs2 ->
  res_rel fresh (index_row cs1 i) (index_row cs2 i).
Proof.
  intros HF. unfold index_row.
  pose proof (Forall2_length _ _ _ HF) as Hlen. rewrite <- Hlen.
  destruct (norm_index (length cs1) i) as [k|e]; simpl; [|done].
  destruct (cs1 !! k) as [c1|] eqn:E1.
  - destruct (Forall2_lookup_l _ _ _ _ _ HF E1) as (c2 & -> & Hc). exact Hc.
  - apply lookup_ge_None in E1. rewrite Hlen in E1.
    apply lookup_ge_None in E1. rewrite E1. done.
Qed.

Lemma put_face_rel c1 c2 xy1 xy2 oy ox cs1 cs2 face :
  fresh c1 c2 -> fresh xy1 xy2 -> Forall2 fresh cs1 cs2 ->
  Rel eq (put_face c1 xy1 oy ox cs1 face) (put_face c2 xy2 oy ox cs2 face).
Proof.
  intros. unfold put_face.
  eapply rel_bind; [apply rel_lift, rel_index_row; eassumption|].
  intros. rel_auto.
Qed.

Hint Resolve put_face_rel : rel.

Lemma get_face_image_rel s1 s2 face_no p1 p2 rot :
  sampler_rel s1 s2 -> related p1 p2 ->
  Rel fresh (get_face_image L s1 face_no p1 rot) (get_face_image L s2 face_no p2 rot).
Proof.
  intros H Hp. unfold get_face_image.
  eapply rel_bind; [rel_auto|]. intros _ _ _.
  eapply rel_bind; [rel_auto|]. intros c1 c2 Hc.
  same_scalars H s2. cbn [faces vertices resolution pentagon_l pentagon_h].
  rel_auto.
Qed.

Hint Resolve rel_index_row get_face_image_rel : rel.

Lemma unwrap_rel s1 s2 p1 p2 rot :
  sampler_rel s1 s2 -> related p1 p2 ->
  Rel fresh (unwrap L s1 p1 rot) (unwrap L s2 p2 rot).
Proof.
  intros H Hp. unfold unwrap.
  eapply rel_bind; [rel_auto|]. intros _ _ _.
  eapply rel_bind; [rel_auto|]. intros cs1 cs2 Hcs.
  same_scalars H s2.
  unfold upper_offsets, lower_offsets;
    cbn [resolution pentagon_l pentagon_h l h height_to_centre scaled_edge_length].
  rel_auto.
Qed.

Lemma half_unwrap_rel s1 s2 p1 p2 rot :
  sampler_rel s1 s2 -> related p1 p2 ->
  Rel (fun a b => fresh a.1 b.1 /\ fresh a.2 b.2)
      (half_unwrap L s1 p1 rot) (half_unwrap L s2 p2 rot).
Proof.
  intros H Hp. unfold half_unwrap.
  eapply rel_bind; [rel_auto|]. intros _ _ _.
  eapply rel_bind; [rel_auto|]. intros cs1 cs2 Hcs.
  same_scalars H s2.
  unfold upper_offsets, lower_offsets;
    cbn [resolution pentagon_l pentagon_h l h height_to_centre scaled_edge_length].
  rel_auto.
Qed.

Lemma rotate_face_rgb_rel s1 s2 p1 p2 deg up :
  sampler_rel s1 s2 -> related p1 p2 ->
  Rel fresh (rotate_face_rgb L s1 p1 deg up) (rotate_face_rgb L s2 p2 deg up).
Proof.
  intros H Hp. same_scalars H s2.
  unfold rotate_face_rgb;
    cbn [resolution pentagon_l pentagon_h l h height_to_centre circumradius].
  rel_auto.
Qed.

Lemma a4_rotate_face_rgb_rel s1 s2 p1 p2 deg up :
  sampler_rel s1 s2 -> related p1 p2 ->
  Rel fresh (a4_rotate_face_rgb L s1 p1 deg up) (a4_rotate_face_rgb L s2 p2 deg up).
Proof.
  intros H Hp. same_scalars H s2.
  unfold a4_rotate_face_rgb;
    cbn [resolution pentagon_l pentagon_h l h height_to_centre circumradius].
  rel_auto.
Qed.

Lemma put_rotated_rel c1 c2 r1 r2 xy1 xy2 top left oy ox :
  fresh c1 c2 -> fresh r1 r2 -> fresh xy1 xy2 ->
  Rel eq (put_rotated c1 r1 xy1 top left oy ox) (put_rotated c2 r2 xy2 top left oy ox).
Proof. intros. unfold put_rotated. rel_auto. Qed.

Hint Resolve a4_rotate_face_rgb_rel put_rotated_rel : rel.

Lemma a4_optimised_unwrap_rel s1 s2 p1 p2 rot :
  sampler_rel s1 s2 -> related p1 p2 ->
  Rel fresh (a4_optimised_unwrap L s1 p1 rot) (a4_optimised_unwrap L s2 p2 rot).
Proof.
  intros H Hp. unfold a4_optimised_unwrap.
  eapply rel_bind; [rel_auto|]. intros _ _ _.
  eapply rel_bind; [rel_auto|]. intros cs1 cs2 Hcs.
  same_scalars H s2.
  unfold a4_upper_offsets, a4_lower_table;
    cbn [resolution pentagon_l pentagon_h l h height_to_centre scaled_edge_length
         circumradius].
  rel_auto.
Qed.

End MethodsTwice.

(** ** What a run appends to the log

    [logs n P Q m]: started on a store of at least [n] cells, [m] keeps at
    least [n] cells, only appends to the log, appends only events that
    satisfy [P], and returns only values that satisfy [Q]. *)

Definition logs {A} (n : nat) (P : Event -> Prop) (Q : A -> Prop) (m : M A) : Prop :=
  forall st, (n <= length (heap st))%nat ->
    (n <= length (heap (m st).2))%nat /\
    (exists evs, log (m st).2 = log st ++ evs /\ Forall P evs) /\
    (forall a, (m st).1 = Ok a -> Q a).

Section Logs.
Context (n : nat) (P : Event -> Prop).

Lemma logs_ret {A} (Q : A -> Prop) a : Q a -> logs n P Q (ret a).
Proof.
  intros Ha st Hn; simpl. split; [done|]. split.
  - exists []. by rewrite app_nil_r.
  - intros ? [= <-]. done.
Qed.

Lemma logs_throw {A} (Q : A -> Prop) e : logs n P Q (throw e).
Proof.
  intros st Hn; simpl. split; [done|]. split.
  - exists []. by rewrite app_nil_r.
  - intros ? [=].
Qed.

Lemma logs_lift {A} (r : Result A) : logs n P (fun _ => True) (lift r).
Proof. destruct r; [by apply logs_ret | apply logs_throw]. Qed.

Lemma logs_mono {A} (Q Q' : A -> Prop) m :
  logs n P Q m -> (forall a, Q a -> Q' a) -> logs n P Q' m.
Proof.
  intros H HQ st Hn. destruct (H st Hn) as (? & ? & ?). repeat split; auto.
Qed.

Lemma logs_bind {A B} (Q : A -> Prop) (Q' : B -> Prop) (m : M A) (f : A -> M B) :
  logs n P Q m -> (forall a, Q a -> logs n P Q' (f a)) -> logs n P Q' (bind m f).
Proof.
  intros Hm Hf st Hn. destruct (Hm st Hn) as (Hn' & (evs & Hl & Hevs) & Hq).
  unfold bind. destruct (m st) as [[a|e] st'] eqn:E; simpl in *.
  - destruct (Hf a (Hq a eq_refl) st' Hn') as (Hn'' & (evs' & Hl' & Hevs') & Hq').
    split; [done|]. split; [|done].
    exists (evs ++ evs'). rewrite Hl', Hl, app_assoc. split; [done|].
    by apply Forall_app.
  - split; [done|]. split; [by exists evs|]. intros ? [=].
Qed.

Lemma logs_bind_ret {A B} (Q' : B -> Prop) (a : A) (f : A -> M B) :
  logs n P Q' (f a) -> logs n P Q' (bind (ret a) f).
Proof. intros H st Hn. exact (H st Hn). Qed.

Lemma logs_alloc c : logs n P (fun p => (n <= p)%nat) (alloc c).
Proof.
  intros st Hn; simpl. rewrite length_app; simpl. split; [lia|]. split.
  - exists []. by rewrite app_nil_r.
  - intros ? [= <-]. done.
Qed.

Lemma logs_load p : logs n P (fun _ => True) (load p).
Proof.
  intros st Hn. unfold load. destruct (heap st !! p); simpl.
  - split; [done|]. split; [|done]. exists []. by rewrite app_nil_r.
  - split; [done|]. split; [|done]. exists []. by rewrite app_nil_r.
Qed.

Lemma logs_store p c : logs n P (fun _ => True) (store p c).
Proof.
  intros st Hn. unfold store. destruct (decide _); simpl.
  - rewrite length_insert. split; [done|]. split; [|done].
    exists []. by rewrite app_nil_r.
  - split; [done|]. split; [|done]. exists []. by rewrite app_nil_r.
Qed.

Lemma logs_trace e : P e -> logs n P (fun _ => True) (trace e).
Proof.
  intros He st Hn; simpl. split; [done|]. split; [|done].
  exists [e]. split; [done|]. by constructor.
Qed.

Lemma logs_for_each {A} (xs : list A) body :
  (forall x, logs n P (fun _ => True) (body x)) ->
  logs n P (fun _ => True) (for_each xs body).
Proof.
  intros Hb. induction xs as [|x xs IH]; simpl.
  - by apply logs_ret.
  - eapply logs_bind; [apply Hb|]. intros _ _. apply IH.
Qed.

Lemma logs_map_m {A B} (Q : B -> Prop) (xs : list A) f :
  (forall x, logs n P Q (f x)) -> logs n P (Forall Q) (map_m f xs).
Proof.
  intros Hf. induction xs as [|x xs IH]; simpl.
  - by apply logs_ret.
  - eapply logs_bind; [apply Hf|]. intros y Hy.
    eapply logs_bind; [apply IH|]. intros ys Hys.
    apply logs_ret. by constructor.
Qed.

Lemma logs_any {A} (Q : A -> Prop) m : logs n P Q m -> logs n P (fun _ => True) m.
Proof. intros H. eapply logs_mono; [exact H|]. done. Qed.

End Logs.

(** The log of a run follows the code. *)
Ltac logs_go :=
  lazymatch goal with
  | |- logs _ _ _ (ret _) =>
      apply logs_ret; cbv beta; first [eassumption | exact I | lia | idtac]
  | |- logs _ _ _ (throw _) => apply logs_throw
  | |- logs _ _ _ (lift _) => first [apply logs_lift | eapply logs_mono; [apply logs_lift|]; done]
  | |- logs _ _ _ (alloc _) => apply logs_alloc
  | |- logs _ _ _ (load _) => apply logs_load
  | |- logs _ _ _ (store _ _) => apply logs_store
  | |- logs _ _ _ (trace _) => apply logs_trace; first [exact I | assumption | simpl; lia | idtac]
  | |- logs _ _ _ (for_each _ _) => apply logs_for_each; intros ?; logs_go
  | |- logs _ _ _ (map_m _ _) => apply logs_map_m; intros ?; logs_go
  | |- logs _ _ _ (bind (ret _) _) => apply logs_bind_ret; logs_go
  | |- logs _ _ _ (bind (if ?b then _ else _) _) => destruct b; logs_go
  | |- logs _ _ _ (bind (match ?x with _ => _ end) _) => destruct x; logs_go
  | |- logs _ _ _ (bind _ _) =>
      eapply logs_bind;
      [ logs_go | let H := fresh "Q" in intros ? H; cbv beta in H; logs_go ]
  | |- logs _ _ _ (if ?b then _ else _) => destruct b; logs_go
  | |- logs _ _ _ (match ?x with _ => _ end) => destruct x; logs_go
  | |- logs _ _ _ _ => try solve [eauto with logs]
  end.

Create HintDb logs discriminated.

Section MethodLogs.
Import DodecahedralSampler.
Context (L : Library) (self : Sampler) (n : nat).

(** Events that are no write to a cell below [n]. *)
Definition above (e : Event) : Prop :=
  match e with
  | EvSample _ _ _ => True
  | EvWrite p _ => (n <= p)%nat
  end.

Definition is_sample (e : Event) : Prop :=
  match e with
  | EvSample _ _ _ => True
  | EvWrite _ _ => False
  end.

Definition no_event (e : Event) : Prop := False.

Ltac logs_typed := intros; unfold load_F, load_Fv, load_I, load_Mask, load_RGB, load_Pano,
  load_RGBA; logs_go.

Lemma logs_load_F P p : logs n P (fun _ => True) (load_F p).
Proof. logs_typed. Qed.
Lemma logs_load_Fv P p : logs n P (fun _ => True) (load_Fv p).
Proof. logs_typed. Qed.
Lemma logs_load_I P p : logs n P (fun _ => True) (load_I p).
Proof. logs_typed. Qed.
Lemma logs_load_Mask P p : logs n P (fun _ => True) (load_Mask p).
Proof. logs_typed. Qed.
Lemma logs_load_RGB P p : logs n P (fun _ => True) (load_RGB p).
Proof. logs_typed. Qed.
Lemma logs_load_Pano P p : logs n P (fun _ => True) (load_Pano p).
Proof. logs_typed. Qed.
Lemma logs_load_RGBA P p : logs n P (fun _ => True) (load_RGBA p).
Proof. logs_typed. Qed.

Hint Resolve logs_load_F logs_load_Fv logs_load_I logs_load_Mask logs_load_RGB
  logs_load_Pano logs_load_RGBA : logs.

Lemma check_eq_image_shape_logs P p : logs n P (fun _ => True) (check_eq_image_shape p).
Proof. unfold check_eq_image_shape. logs_go. Qed.

Lemma cv2_drawContours_logs P c contours idx :
  logs n P (fun _ => True) (cv2_drawContours L c contours idx).
Proof. unfold cv2_drawContours. logs_go. Qed.

Hint Resolve check_eq_image_shape_logs cv2_drawContours_logs : logs.

Lemma get_vertices_logs P u r : logs n P (fun p => (n <= p)%nat) (get_vertices L u r).
Proof. unfold get_vertices. logs_go. Qed.

Hint Resolve get_vertices_logs : logs.

Lemma init_logs P res : logs n P (fun _ => True) (init L res).
Proof. unfold init. logs_go. Qed.

Lemma get_pentagon_coords_logs P b up c nm hm :
  logs n P (fun p => (n <= p)%nat) (get_pentagon_coords L self b up c nm hm).
Proof. unfold get_pentagon_coords. logs_go. Qed.

Hint Resolve get_pentagon_coords_logs : logs.

Lemma get_face_xyz_logs P face_no :
  logs n P (fun p => (n <= p)%nat) (get_face_xyz L self face_no).
Proof. unfold get_face_xyz. logs_go. Qed.

Hint Resolve get_face_xyz_logs : logs.

Lemma get_face_rgb_logs face_no p rot :
  logs n is_sample (fun p => (n <= p)%nat) (get_face_rgb L self face_no p rot).
Proof. unfold get_face_rgb. logs_go. Qed.

Lemma setitem_bgr_logs c ys xs p :
  (n <= c)%nat -> logs n above (fun _ => True) (setitem_bgr c ys xs p).
Proof. intros. unfold setitem_bgr. logs_go. Qed.

Lemma setitem_alpha_logs c ys xs a :
  (n <= c)%nat -> logs n above (fun _ => True) (setitem_alpha c ys xs a).
Proof. intros. unfold setitem_alpha. logs_go. Qed.

Hint Resolve setitem_bgr_logs setitem_alpha_logs : logs.

Lemma rotate_face_rgb_logs p deg up :
  logs n above (fun r => (n <= r)%nat) (rotate_face_rgb L self p deg up).
Proof. unfold rotate_face_rgb. logs_go. Qed.

Lemma a4_rotate_face_rgb_logs p deg up :
  logs n above (fun r => (n <= r)%nat) (a4_rotate_face_rgb L self p deg up).
Proof. unfold a4_rotate_face_rgb. logs_go. Qed.

End MethodLogs.

(** ** Runs only extend the store *)

Definition extends {A} (m : M A) : Prop :=
  forall st, exists ext, heap (m st).2 = heap st ++ ext.

Lemma loc_rel_refl σ p : loc_rel σ σ p p.
Proof.
  destruct (decide (p < length σ)%nat).
  - right. by repeat split.
  - left. exists (p - length σ)%nat. lia.
Qed.

Lemma sampler_rel_refl σ s : sampler_rel σ σ s s.
Proof. unfold sampler_rel. repeat split; auto using loc_rel_refl. Qed.

Lemma rel_extends {A} (R : list ndarray -> A -> A -> Prop) (m : M A) :
  (forall σ, rel σ σ (R σ) m m) -> extends m.
Proof.
  intros H [σ g].
  destruct (H σ [] g g) as (ext' & g1' & _ & r1 & _ & E1 & _).
  rewrite app_nil_r in E1. exists ext'. simpl. by rewrite E1.
Qed.

Lemma extends_run {A} (m : M A) st r st' :
  extends m -> m st = (r, st') -> exists ext, heap st' = heap st ++ ext.
Proof. intros H E. destruct (H st) as [ext Hx]. rewrite E in Hx. by exists ext. Qed.

Lemma logs_run {A} n P (Q : A -> Prop) (m : M A) st r st' :
  logs n P Q m -> (n <= length (heap st))%nat -> m st = (r, st') ->
  (exists evs, log st' = log st ++ evs /\ Forall P evs) /\ (forall a, r = Ok a -> Q a).
Proof.
  intros H Hn E. destruct (H st Hn) as (_ & Hl & Hq). rewrite E in Hl, Hq. auto.
Qed.

Section MethodsExtend.
Import DodecahedralSampler.
Context (L : Library) (self : Sampler).

Lemma init_extends res : extends (init L res).
Proof. apply (rel_extends (fun σ => sampler_rel σ σ)). intros. apply init_rel. Qed.

Lemma get_pentagon_coords_extends b up c n hm :
  extends (get_pentagon_coords L self b up c n hm).
Proof.
  apply (rel_extends (fun σ => fresh_rel σ σ)). intros. apply get_pentagon_coords_rel, sampler_rel_refl.
Qed.

Lemma get_face_xyz_extends face_no : extends (get_face_xyz L self face_no).
Proof. apply (rel_extends (fun σ => fresh_rel σ σ)). intros. apply get_face_xyz_rel, sampler_rel_refl. Qed.

Lemma get_face_rgb_extends face_no p rot : extends (get_face_rgb L self face_no p rot).
Proof.
  apply (rel_extends (fun σ => fresh_rel σ σ)). intros.
  apply get_face_rgb_rel; [apply sampler_rel_refl | apply loc_rel_refl].
Qed.

Lemma get_face_image_extends face_no p rot : extends (get_face_image L self face_no p rot).
Proof.
  apply (rel_extends (fun σ => fresh_rel σ σ)). intros.
  apply get_face_image_rel; [apply sampler_rel_refl | apply loc_rel_refl].
Qed.

Lemma unwrap_extends p rot : extends (unwrap L self p rot).
Proof.
  apply (rel_extends (fun σ => fresh_rel σ σ)). intros.
  apply unwrap_rel; [apply sampler_rel_refl | apply loc_rel_refl].
Qed.

Lemma half_unwrap_extends p rot : extends (half_unwrap L self p rot).
Proof.
  apply (rel_extends (fun σ a b => fresh_rel σ σ a.1 b.1 /\ fresh_rel σ σ a.2 b.2)). intros.
  apply half_unwrap_rel; [apply sampler_rel_refl | apply loc_rel_refl].
Qed.

Lemma rotate_face_rgb_extends p deg up : extends (rotate_face_rgb L self p deg up).
Proof.
  apply (rel_extends (fun σ => fresh_rel σ σ)). intros.
  apply rotate_face_rgb_rel; [apply sampler_rel_refl | apply loc_rel_refl].
Qed.

Lemma a4_rotate_face_rgb_extends p deg up : extends (a4_rotate_face_rgb L self p deg up).
Proof.
  apply (rel_extends (fun σ => fresh_rel σ σ)). intros.
  apply a4_rotate_face_rgb_rel; [apply sampler_rel_refl | apply loc_rel_refl].
Qed.

Lemma a4_optimised_unwrap_extends p rot : extends (a4_optimised_unwrap L self p rot).
Proof.
  apply (rel_extends (fun σ => fresh_rel σ σ)). intros.
  apply a4_optimised_unwrap_rel; [apply sampler_rel_refl | apply loc_rel_refl].
Qed.

End MethodsExtend.

(** ** A run that returned, step by step *)

Lemma bind_Ok {A B} (m : M A) (f : A -> M B) st b st' :
  bind m f st = (Ok b, st') ->
  exists a st1, m st = (Ok a, st1) /\ f a st1 = (Ok b, st').
Proof.
  unfold bind. destruct (m st) as [[a|e] st1]; [|discriminate].
  intros H. by exists a, st1.
Qed.

Lemma bind_Err {A B} (m : M A) (f : A -> M B) st e st' :
  m st = (Err e, st') -> bind m f st = (Err e, st').
Proof. unfold bind. by intros ->. Qed.

Lemma bind_run {A B} (m : M A) (f : A -> M B) st a st' :
  m st = (Ok a, st') -> bind m f st = f a st'.
Proof. unfold bind. by intros ->. Qed.

Lemma ret_Ok {A} (a b : A) st st' : ret a st = (Ok b, st') -> b = a /\ st' = st.
Proof. by intros [= -> ->]. Qed.

Lemma lift_Ok {A} (r : Result A) a st st' : lift r st = (Ok a, st') -> r = Ok a /\ st' = st.
Proof. destruct r; simpl; [by intros [= -> ->] | discriminate]. Qed.

Lemma alloc_Ok c p st st' :
  alloc c st = (Ok p, st') ->
  p = length (heap st) /\ heap st' = heap st ++ [c] /\ log st' = log st.
Proof. by intros [= <- <-]. Qed.

Lemma load_Ok p c st st' : load p st = (Ok c, st') -> heap st !! p = Some c /\ st' = st.
Proof. unfold load. destruct (heap st !! p); [by intros [= -> ->] | discriminate]. Qed.

Lemma store_Ok p c st st' :
  store p c st = (Ok tt, st') ->
  (p < length (heap st))%nat /\ heap st' = <[p := c]> (heap st) /\ log st' = log st.
Proof. unfold store. destruct (decide _); [by intros [= <-] | discriminate]. Qed.

Lemma trace_Ok e st st' :
  trace e st = (Ok tt, st') -> heap st' = heap st /\ log st' = log st ++ [e].
Proof. by intros [= <-]. Qed.

Lemma load_I_Ok p rows st st' :
  load_I p st = (Ok rows, st') -> heap st !! p = Some (NdI rows) /\ st' = st.
Proof.
  intros H. apply bind_Ok in H as (c & st1 & H1 & H2).
  apply load_Ok in H1 as [H1 ->]. destruct c; try discriminate.
  by apply ret_Ok in H2 as [-> ->].
Qed.

Lemma load_F_Ok p rows st st' :
  load_F p st = (Ok rows, st') -> heap st !! p = Some (NdF rows) /\ st' = st.
Proof.
  intros H. apply bind_Ok in H as (c & st1 & H1 & H2).
  apply load_Ok in H1 as [H1 ->]. destruct c; try discriminate.
  by apply ret_Ok in H2 as [-> ->].
Qed.

Lemma load_Fv_Ok p v st st' :
  load_Fv p st = (Ok v, st') -> heap st !! p = Some (NdFv v) /\ st' = st.
Proof.
  intros H. apply bind_Ok in H as (c & st1 & H1 & H2).
  apply load_Ok in H1 as [H1 ->]. destruct c; try discriminate.
  by apply ret_Ok in H2 as [-> ->].
Qed.

Lemma load_RGB_Ok p px st st' :
  load_RGB p st = (Ok px, st') -> heap st !! p = Some (NdRGB px) /\ st' = st.
Proof.
  intros H. apply bind_Ok in H as (c & st1 & H1 & H2).
  apply load_Ok in H1 as [H1 ->]. destruct c; try discriminate.
  by apply ret_Ok in H2 as [-> ->].
Qed.

Lemma load_Pano_Ok p im st st' :
  load_Pano p st = (Ok im, st') -> heap st !! p = Some (NdPano im) /\ st' = st.
Proof.
  intros H. apply bind_Ok in H as (c & st1 & H1 & H2).
  apply load_Ok in H1 as [H1 ->]. destruct c; try discriminate.
  by apply ret_Ok in H2 as [-> ->].
Qed.

Lemma load_RGBA_Ok p im st st' :
  load_RGBA p st = (Ok im, st') -> heap st !! p = Some (NdRGBA im) /\ st' = st.
Proof.
  intros H. apply bind_Ok in H as (c & st1 & H1 & H2).
  apply load_Ok in H1 as [H1 ->]. destruct c; try discriminate.
  by apply ret_Ok in H2 as [-> ->].
Qed.

Lemma load_Mask_Ok p m st st' :
  load_Mask p st = (Ok m, st') -> heap st !! p = Some (NdMask m) /\ st' = st.
Proof.
  intros H. apply bind_Ok in H as (c & st1 & H1 & H2).
  apply load_Ok in H1 as [H1 ->]. destruct c; try discriminate.
  by apply ret_Ok in H2 as [-> ->].
Qed.

(** Taking a run of straight-line code apart. *)
Ltac run_inv :=
  repeat match goal with
  | H : bind _ _ _ = (Ok _, _) |- _ =>
      let H1 := fresh "Hrun" in apply bind_Ok in H as (? & ? & H1 & H)
  | H : ret _ _ = (Ok _, _) |- _ => apply ret_Ok in H as [? ?]; subst
  | H : lift _ _ = (Ok _, _) |- _ => apply lift_Ok in H as [? ?]; subst
  | H : alloc _ _ = (Ok _, _) |- _ => apply alloc_Ok in H as (? & ? & ?); subst
  | H : load_I _ _ = (Ok _, _) |- _ => apply load_I_Ok in H as [? ?]; subst
  | H : load_F _ _ = (Ok _, _) |- _ => apply load_F_Ok in H as [? ?]; subst
  | H : load_Fv _ _ = (Ok _, _) |- _ => apply load_Fv_Ok in H as [? ?]; subst
  | H : load_RGB _ _ = (Ok _, _) |- _ => apply load_RGB_Ok in H as [? ?]; subst
  | H : load_RGBA _ _ = (Ok _, _) |- _ => apply load_RGBA_Ok in H as [? ?]; subst
  | H : load_Pano _ _ = (Ok _, _) |- _ => apply load_Pano_Ok in H as [? ?]; subst
  | H : load_Mask _ _ = (Ok _, _) |- _ => apply load_Mask_Ok in H as [? ?]; subst
  | H : load _ _ = (Ok _, _) |- _ => apply load_Ok in H as [? ?]; subst
  | H : store _ _ _ = (Ok ?u, _) |- _ => destruct u; apply store_Ok in H as (? & ? & ?)
  | H : trace _ _ = (Ok ?u, _) |- _ => destruct u; apply trace_Ok in H as (? & ?)
  | H : throw _ _ = (Ok _, _) |- _ => discriminate H
  | H : (if ?b then _ else _) _ = (Ok _, _) |- _ => destruct b
  | H : (match ?c with _ => _ end) _ = (Ok _, _) |- _ => destruct c; try discriminate H
  end.

Lemma for_each_Ok {A} (Inv : State -> Prop) (xs : list A) body st st' :
  (forall x s s', Inv s -> body x s = (Ok tt, s') -> Inv s') ->
  Inv st -> for_each xs body st = (Ok tt, st') -> Inv st'.
Proof.
  intros Hb. revert st. induction xs as [|x xs IH]; simpl; intros st Hi H.
  - by apply ret_Ok in H as [_ ->].
  - apply bind_Ok in H as ([] & st1 & H1 & H2). eauto.
Qed.

(** ** Images *)

Definition wf_image {P} (im : image P) : Prop :=
  length (im_px im) = im_h im /\ Forall (fun r => length r = im_w im) (im_px im).

Lemma np_zeros_Ok {P} (z : P) hh ww im :
  np_zeros z hh ww = Ok im ->
  wf_image im /\ Z.of_nat (im_h im) = hh /\ Z.of_nat (im_w im) = ww /\
  forall i j, px_get z im i j = z.
Proof.
  unfold np_zeros. destruct (_ || _) eqn:E; [discriminate|]. intros [= <-].
  apply orb_false_iff in E as [E1 E2]. apply Z.ltb_ge in E1, E2.
  unfold wf_image; cbn [im_px im_h im_w]. repeat split.
  - by rewrite length_replicate.
  - apply Forall_replicate. by rewrite length_replicate.
  - lia.
  - lia.
  - intros i j. unfold px_get; cbn [im_px].
    destruct (replicate _ _ !! i) as [row|] eqn:Er; [|done].
    apply lookup_replicate in Er as [-> _].
    destruct (replicate _ z !! j) as [p|] eqn:Ep; [|done].
    by apply lookup_replicate in Ep as [-> _].
Qed.

Lemma wf_px_update {P} (f : P -> P) i j (im : image P) :
  wf_image im -> wf_image (px_update f i j im).
Proof.
  intros [Hh Hw]. split; simpl.
  - by rewrite length_alter.
  - apply Forall_alter; [done|]. intros r _. by rewrite length_alter.
Qed.

Lemma px_get_update_ne {P} (d : P) f i j (im : image P) i' j' :
  (i, j) <> (i', j') -> px_get d (px_update f i j im) i' j' = px_get d im i' j'.
Proof.
  intros Hne. unfold px_get, px_update; simpl.
  destruct (decide (i = i')) as [->|Hi].
  - rewrite list_lookup_alter_eq. destruct (im_px im !! i') as [row|]; simpl; [|done].
    rewrite list_lookup_alter_ne; [done|]. congruence.
  - by rewrite list_lookup_alter_ne.
Qed.

Lemma px_get_update_eq {P} (d : P) f i j (im : image P) :
  wf_image im -> (i < im_h im)%nat -> (j < im_w im)%nat ->
  px_get d (px_update f i j im) i j = f (px_get d im i j).
Proof.
  intros [Hh Hw] Hi Hj. unfold px_get, px_update; simpl.
  rewrite list_lookup_alter_eq.
  destruct (lookup_lt_is_Some_2 (im_px im) i) as [row Hr]; [lia|].
  rewrite Hr; simpl. rewrite list_lookup_alter_eq.
  assert (length row = im_w im) as Hlen.
  { eapply (proj1 (Forall_lookup _ _) Hw); eauto. }
  destruct (lookup_lt_is_Some_2 row j) as [p Hp]; [lia|].
  by rewrite Hp.
Qed.

Lemma px_update_shape {P} (f : P -> P) i j (im : image P) :
  im_h (px_update f i j im) = im_h im /\ im_w (px_update f i j im) = im_w im.
Proof. done. Qed.

Lemma norm_index_Ok n i k : norm_index n i = Ok k -> (k < n)%nat.
Proof.
  unfold norm_index.
  destruct ((0 <=? i) && (i <? Z.of_nat n)) eqn:E1.
  - intros [= <-]. apply andb_true_iff in E1 as [? ?%Z.ltb_lt]. lia.
  - destruct ((- Z.of_nat n <=? i) && (i <? 0)) eqn:E2; [|done].
    intros [= <-]. apply andb_true_iff in E2 as [?%Z.leb_le ?%Z.ltb_lt]. lia.
Qed.

Lemma norm_indices_Ok hh ww ys xs idx :
  norm_indices hh ww ys xs = Ok idx ->
  Forall (fun ij => (ij.1 < hh)%nat /\ (ij.2 < ww)%nat) idx.
Proof.
  revert xs idx. induction ys as [|y ys IH]; intros [|x xs] idx; simpl; try discriminate.
  - intros [= <-]. constructor.
  - destruct (norm_index hh y) as [i|] eqn:Ei; simpl; [|discriminate].
    destruct (norm_index ww x) as [j|] eqn:Ej; simpl; [|discriminate].
    destruct (norm_indices hh ww ys xs) as [rest|] eqn:Er; simpl; [|discriminate].
    intros [= <-]. constructor; [|by eapply IH].
    simpl. eauto using norm_index_Ok.
Qed.

Lemma broadcast_rows_Ok {A} n (vals vs : list A) :
  broadcast_rows n vals = Ok vs -> length vs = n.
Proof.
  unfold broadcast_rows. destruct (decide _) as [<-|_]; [by intros [= <-]|].
  destruct vals as [|v [|? ?]]; try discriminate.
  intros [= <-]. by rewrite length_replicate.
Qed.

Section Paste.
Context {P V : Type} (wr : V -> P -> P) (d : P).

Lemma paste_wf idx vals (im : image P) :
  wf_image im -> wf_image (paste wr im idx vals).
Proof.
  unfold paste. generalize (zip idx vals). intros ivs. revert im.
  induction ivs as [|iv ivs IH]; simpl; intros im Hwf; [done|].
  apply IH. by apply wf_px_update.
Qed.

Lemma paste_shape idx vals (im : image P) :
  im_h (paste wr im idx vals) = im_h im /\ im_w (paste wr im idx vals) = im_w im.
Proof.
  unfold paste. generalize (zip idx vals). intros ivs. revert im.
  induction ivs as [|iv ivs IH]; simpl; intros im; [done|].
  destruct (IH (px_update (wr iv.2) iv.1.1 iv.1.2 im)) as [-> ->]. done.
Qed.

(** A pixel no index pair names keeps its value. *)
Lemma paste_other idx vals (im : image P) i j :
  (i, j) ∉ idx -> px_get d (paste wr im idx vals) i j = px_get d im i j.
Proof.
  unfold paste. revert vals im.
  induction idx as [|[i0 j0] idx IH]; intros vals im Hnin; [done|].
  destruct vals as [|v vals]; [done|]. simpl.
  apply not_elem_of_cons in Hnin as [Hne Hnin].
  rewrite IH by done. apply px_get_update_ne. congruence.
Qed.

(** A property of pixels that every write keeps or establishes. *)
Lemma paste_pixel (K : P -> Prop) idx vals (im : image P) i j :
  (forall v p, K p -> K (wr v p)) ->
  wf_image im -> Forall (fun ij => (ij.1 < im_h im)%nat /\ (ij.2 < im_w im)%nat) idx ->
  K (px_get d im i j) -> K (px_get d (paste wr im idx vals) i j).
Proof.
  intros HK. unfold paste. revert vals im.
  induction idx as [|[i0 j0] idx IH]; intros vals im Hwf Hidx Hk; [done|].
  destruct vals as [|v vals]; [done|]. simpl.
  apply Forall_cons in Hidx as [[Hi Hj] Hidx]; simpl in *.
  apply IH; [by apply wf_px_update | done |].
  destruct (decide ((i0, j0) = (i, j))) as [[= -> ->]|Hne].
  - rewrite px_get_update_eq by done. by apply HK.
  - by rewrite px_get_update_ne.
Qed.

(** A property every written value establishes holds at every written pixel. *)
Lemma paste_written (K : P -> Prop) idx vals (im : image P) i j :
  Forall (fun v => forall p, K (wr v p)) vals ->
  wf_image im -> Forall (fun ij => (ij.1 < im_h im)%nat /\ (ij.2 < im_w im)%nat) idx ->
  length vals = length idx ->
  (i, j) ∈ idx -> K (px_get d (paste wr im idx vals) i j).
Proof.
  unfold paste. revert vals im.
  induction idx as [|[i0 j0] idx IH]; intros vals im HK Hwf Hidx Hlen Hin.
  { by apply elem_of_nil in Hin. }
  destruct vals as [|v vals]; [discriminate|]. simpl.
  apply Forall_cons in Hidx as [[Hi Hj] Hidx]; simpl in *.
  apply Forall_cons in HK as [Hv HK].
  destruct (decide ((i, j) ∈ idx)) as [Hin'|Hnin].
  - apply IH; [done | by apply wf_px_update | done | lia | done].
  - apply elem_of_cons in Hin as [[= -> ->]|?]; [|done].
    fold (paste wr (px_update (wr v) i0 j0 im) idx vals).
    rewrite paste_other by done.
    rewrite px_get_update_eq by done. apply Hv.
Qed.

End Paste.

(** ** The pixels a run wrote to a canvas *)

Definition zero_px : rgba := (0, 0, 0, 0).

(** The pixels the indexed assignments of [evs] wrote to the canvas [c]. *)
Definition written (c : loc) (evs : list Event) : list (nat * nat) :=
  concat (map (fun e => match e with
                        | EvWrite p idx => if decide (p = c) then idx else []
                        | EvSample _ _ _ => []
                        end) evs).

Lemma written_app c evs1 evs2 : written c (evs1 ++ evs2) = written c evs1 ++ written c evs2.
Proof. unfold written. by rewrite map_app, concat_app. Qed.

Lemma written_above c n evs : Forall (above n) evs -> (c < n)%nat -> written c evs = [].
Proof.
  intros H Hc. induction H as [|e evs He _ IH]; [done|].
  change (e :: evs) with ([e] ++ evs). rewrite written_app, IH, app_nil_r.
  unfold written; simpl. destruct e as [| p idx]; [done|].
  simpl in He. rewrite decide_False by lia. done.
Qed.

Lemma written_samples c evs : Forall is_sample evs -> written c evs = [].
Proof.
  intros H. induction H as [|e evs He _ IH]; [done|].
  change (e :: evs) with ([e] ++ evs). rewrite written_app, IH, app_nil_r.
  unfold written; simpl. by destruct e.
Qed.

Lemma written_none c evs : Forall no_event evs -> written c evs = [].
Proof. intros H. destruct H as [|e evs He _]; [done|]. destruct He. Qed.

(** The state of a canvas [c] of shape [hh, ww] in a run whose log started
    as [log0]: a written pixel has an alpha that satisfies [on], any other
    pixel has alpha 0. *)
Definition canvas_inv (on : Z -> Prop) (c : loc) (log0 : list Event) (hh ww : nat)
    (st : State) : Prop :=
  exists im evs,
    heap st !! c = Some (NdRGBA im) /\ wf_image im /\ im_h im = hh /\ im_w im = ww /\
    log st = log0 ++ evs /\
    forall i j, (i < hh)%nat -> (j < ww)%nat ->
      ((i, j) ∈ written c evs -> on (alpha (px_get zero_px im i j))) /\
      ((i, j) ∉ written c evs -> alpha (px_get zero_px im i j) = 0).

(** Steps that leave the canvas alone keep its invariant. *)
Lemma canvas_inv_frame on c log0 hh ww st st' evs :
  canvas_inv on c log0 hh ww st ->
  heap st' !! c = heap st !! c -> log st' = log st ++ evs ->
  written c evs = [] ->
  canvas_inv on c log0 hh ww st'.
Proof.
  intros (im & evs0 & Hc & Hwf & Hh & Hw & Hl & Hpx) Hheap Hlog Hev.
  exists im, (evs0 ++ evs).
  split; [by rewrite Hheap|]. do 3 (split; [done|]).
  split; [by rewrite Hlog, Hl, app_assoc|].
  intros i j Hi Hj. rewrite written_app, Hev, app_nil_r. by apply Hpx.
Qed.

Lemma canvas_inv_step on c log0 hh ww st st' ext evs :
  canvas_inv on c log0 hh ww st ->
  heap st' = heap st ++ ext -> log st' = log st ++ evs ->
  written c evs = [] ->
  canvas_inv on c log0 hh ww st'.
Proof.
  intros Hinv Hheap Hlog Hev. eapply canvas_inv_frame; try eassumption.
  destruct Hinv as (im & ? & Hc & _).
  rewrite Hheap, Hc. by apply lookup_app_l_Some.
Qed.

(** One or two assignments through the same index arrays [idx] to the canvas
    [c]: its invariant is kept when the written pixels get an alpha that
    satisfies [on] and the others keep theirs. *)
Lemma canvas_inv_write on c log0 hh ww st st' im' idx ws :
  canvas_inv on c log0 hh ww st ->
  heap st' = <[c := NdRGBA im']> (heap st) ->
  log st' = log st ++ ws ->
  (ws = [EvWrite c idx] \/ ws = [EvWrite c idx; EvWrite c idx]) ->
  wf_image im' -> im_h im' = hh -> im_w im' = ww ->
  (forall im i j, heap st !! c = Some (NdRGBA im) -> (i < hh)%nat -> (j < ww)%nat ->
     ((i, j) ∈ idx -> on (alpha (px_get zero_px im' i j))) /\
     ((i, j) ∉ idx -> alpha (px_get zero_px im' i j) = alpha (px_get zero_px im i j))) ->
  canvas_inv on c log0 hh ww st'.
Proof.
  intros (im0 & evs0 & Hc & Hwf & Hh & Hw & Hl & Hpx) Hheap Hlog Hws Hwf' Hh' Hw' Hnew.
  assert (forall ij, ij ∈ written c ws <-> ij ∈ idx) as Hwr.
  { intros ij. destruct Hws as [-> | ->]; unfold written; simpl;
      rewrite !decide_True by done; rewrite ?app_nil_r; [done|].
    rewrite elem_of_app. tauto. }
  exists im', (evs0 ++ ws).
  split; [rewrite Hheap; apply list_lookup_insert_eq; by eapply lookup_lt_Some|].
  do 3 (split; [done|]).
  split; [by rewrite Hlog, Hl, app_assoc|].
  intros i j Hi Hj. split.
  - intros Hin. rewrite written_app in Hin.
    destruct (decide ((i, j) ∈ idx)) as [Hx|Hx].
    + by apply (Hnew im0).
    + rewrite (proj2 (Hnew im0 i j Hc ltac:(done) ltac:(done)) Hx).
      apply elem_of_app in Hin as [Hin|Hin]; [by apply Hpx|].
      by apply Hwr in Hin.
  - intros Hnin. rewrite written_app in Hnin.
    apply not_elem_of_app in Hnin as [Hn0 Hn1].
    assert ((i, j) ∉ idx) as Hx by (by rewrite <- Hwr).
    rewrite (proj2 (Hnew im0 i j Hc ltac:(done) ltac:(done)) Hx). by apply Hpx.
Qed.

(** Assignments to another canvas. *)
Lemma canvas_inv_other on c c' log0 hh ww st st' x ws :
  canvas_inv on c' log0 hh ww st ->
  c <> c' ->
  heap st' = <[c := x]> (heap st) ->
  log st' = log st ++ ws ->
  Forall (fun e => exists idx, e = EvWrite c idx) ws ->
  canvas_inv on c' log0 hh ww st'.
Proof.
  intros Hinv Hne Hheap Hlog Hws. eapply canvas_inv_frame; try eassumption.
  - rewrite Hheap. by apply list_lookup_insert_ne.
  - clear Hlog. induction Hws as [|e ws [idx ->] _ IH]; [done|].
    change (EvWrite c idx :: ws) with ([EvWrite c idx] ++ ws).
    rewrite written_app, IH, app_nil_r. unfold written; simpl.
    by rewrite decide_False.
Qed.

Section Assignments.
Import DodecahedralSampler.

Lemma setitem_bgr_Ok c ys xs p st st' :
  setitem_bgr c ys xs p st = (Ok tt, st') ->
  exists im idx vs,
    heap st !! c = Some (NdRGBA im) /\
    norm_indices (im_h im) (im_w im) ys xs = Ok idx /\
    length vs = length idx /\
    heap st' = <[c := NdRGBA (paste wr_bgr im idx vs)]> (heap st) /\
    log st' = log st ++ [EvWrite c idx].
Proof.
  intros H. unfold setitem_bgr in H.
  apply bind_Ok in H as (vals & s1 & H1 & H). apply load_RGB_Ok in H1 as [_ ->].
  apply bind_Ok in H as (im & s1 & H1 & H). apply load_RGBA_Ok in H1 as [Him ->].
  apply bind_Ok in H as (idx & s1 & H1 & H). apply lift_Ok in H1 as [Hidx ->].
  apply bind_Ok in H as (vs & s1 & H1 & H). apply lift_Ok in H1 as [Hvs ->].
  apply bind_Ok in H as ([] & s1 & H1 & H). apply trace_Ok in H1 as [Hh Hl].
  apply store_Ok in H as (_ & Hh' & Hl').
  exists im, idx, vs. repeat split; try done.
  - by eapply broadcast_rows_Ok.
  - by rewrite Hh', Hh.
  - by rewrite Hl', Hl.
Qed.

Lemma setitem_alpha_Ok c ys xs a st st' :
  setitem_alpha c ys xs a st = (Ok tt, st') ->
  exists im idx,
    heap st !! c = Some (NdRGBA im) /\
    norm_indices (im_h im) (im_w im) ys xs = Ok idx /\
    heap st' = <[c := NdRGBA (paste wr_alpha im idx (replicate (length idx) a))]> (heap st) /\
    log st' = log st ++ [EvWrite c idx].
Proof.
  intros H. unfold setitem_alpha in H.
  apply bind_Ok in H as (im & s1 & H1 & H). apply load_RGBA_Ok in H1 as [Him ->].
  apply bind_Ok in H as (idx & s1 & H1 & H). apply lift_Ok in H1 as [Hidx ->].
  apply bind_Ok in H as ([] & s1 & H1 & H). apply trace_Ok in H1 as [Hh Hl].
  apply store_Ok in H as (_ & Hh' & Hl').
  exists im, idx. repeat split; try done.
  - by rewrite Hh', Hh.
  - by rewrite Hl', Hl.
Qed.

Lemma setitem_rgba_Ok c ys xs vals st st' :
  setitem_rgba c ys xs vals st = (Ok tt, st') ->
  exists im idx vs,
    heap st !! c = Some (NdRGBA im) /\
    norm_indices (im_h im) (im_w im) ys xs = Ok idx /\
    length vs = length idx /\
    heap st' = <[c := NdRGBA (paste wr_all im idx vs)]> (heap st) /\
    log st' = log st ++ [EvWrite c idx].
Proof.
  intros H. unfold setitem_rgba in H.
  apply bind_Ok in H as (im & s1 & H1 & H). apply load_RGBA_Ok in H1 as [Him ->].
  apply bind_Ok in H as (idx & s1 & H1 & H). apply lift_Ok in H1 as [Hidx ->].
  apply bind_Ok in H as (vs & s1 & H1 & H). apply lift_Ok in H1 as [Hvs ->].
  apply bind_Ok in H as ([] & s1 & H1 & H). apply trace_Ok in H1 as [Hh Hl].
  apply store_Ok in H as (_ & Hh' & Hl').
  exists im, idx, vs. repeat split; try done.
  - by eapply broadcast_rows_Ok.
  - by rewrite Hh', Hh.
  - by rewrite Hl', Hl.
Qed.

Lemma alpha_wr_bgr v p : alpha (wr_bgr v p) = alpha p.
Proof. by destruct v as [[? ?] ?], p as [[[? ?] ?] ?]. Qed.

Lemma alpha_wr_alpha a p : alpha (wr_alpha a p) = a.
Proof. by destruct p as [[[? ?] ?] ?]. Qed.

(** [put_face] keeps the invariant of every canvas, with opaque faces. *)
Lemma put_face_inv c xy oy ox cs face st st' c' log0 hh ww :
  put_face c xy oy ox cs face st = (Ok tt, st') ->
  canvas_inv (fun a => a = 255) c' log0 hh ww st ->
  canvas_inv (fun a => a = 255) c' log0 hh ww st'.
Proof.
  intros H Hinv. unfold put_face in H.
  apply bind_Ok in H as (col & s1 & H1 & H). apply lift_Ok in H1 as [_ ->].
  apply bind_Ok in H as (rows & s1 & H1 & H). apply load_I_Ok in H1 as [Hxy ->].
  apply bind_Ok in H as ([] & s1 & H1 & H).
  apply setitem_bgr_Ok in H1 as (im & idx & vs & Him & Hidx & Hvs & Hh1 & Hl1).
  apply bind_Ok in H as (rows' & s2 & H2 & H). apply load_I_Ok in H2 as [Hxy' ->].
  apply setitem_alpha_Ok in H as (im1 & idx' & Him1 & Hidx' & Hh2 & Hl2).
  assert (c <> xy) as Hne by (intros ->; congruence).
  rewrite Hh1, list_lookup_insert_ne in Hxy' by done.
  assert (rows' = rows) as -> by congruence.
  rewrite Hh1, list_lookup_insert_eq in Him1 by (by eapply lookup_lt_Some).
  injection Him1 as <-.
  destruct (paste_shape wr_bgr idx vs im) as [Eh Ew].
  rewrite Eh, Ew, Hidx in Hidx'. injection Hidx' as <-.
  pose proof (norm_indices_Ok _ _ _ _ _ Hidx) as Hrange.
  assert (heap st' = <[c := NdRGBA (paste wr_alpha (paste wr_bgr im idx vs) idx
                                      (replicate (length idx) 255))]> (heap st)) as Hheap.
  { rewrite Hh2, Hh1. apply list_insert_insert_eq. }
  assert (log st' = log st ++ [EvWrite c idx; EvWrite c idx]) as Hlog.
  { rewrite Hl2, Hl1, <- app_assoc. reflexivity. }
  destruct (decide (c = c')) as [<-|Hcc].
  - destruct Hinv as (im0 & evs0 & Hc0 & Hwf0 & Hh0 & Hw0 & Hrest).
    assert (im0 = im) as -> by congruence.
    eapply (canvas_inv_write _ c _ _ _ st st' _ idx); try eassumption.
    + exists im, evs0. done.
    + by right.
    + by apply paste_wf, paste_wf.
    + destruct (paste_shape wr_alpha idx (replicate (length idx) 255)
                  (paste wr_bgr im idx vs)) as [-> _]. congruence.
    + destruct (paste_shape wr_alpha idx (replicate (length idx) 255)
                  (paste wr_bgr im idx vs)) as [_ ->]. congruence.
    + intros im' i j Him' Hi Hj. assert (im' = im) as -> by congruence. split.
      * intros Hin.
        apply (paste_written wr_alpha zero_px (fun p => alpha p = 255)); try done.
        -- apply Forall_replicate. intros. apply alpha_wr_alpha.
        -- by apply paste_wf.
        -- by rewrite Eh, Ew.
        -- by rewrite length_replicate.
      * intros Hnin. rewrite paste_other by done.
        by apply (paste_pixel wr_bgr zero_px
                    (fun p => alpha p = alpha (px_get zero_px im i j)));
          [intros v p <-; apply alpha_wr_bgr | | |].
  - eapply canvas_inv_other; try eassumption.
    repeat constructor; by eexists.
Qed.

(** An assignment of whole pixels keeps the weaker invariant: the pixels
    that were never written have alpha 0. *)
Lemma setitem_rgba_inv c ys xs vals st st' c' log0 hh ww :
  setitem_rgba c ys xs vals st = (Ok tt, st') ->
  canvas_inv (fun _ => True) c' log0 hh ww st ->
  canvas_inv (fun _ => True) c' log0 hh ww st'.
Proof.
  intros H Hinv.
  apply setitem_rgba_Ok in H as (im & idx & vs & Him & Hidx & Hvs & Hh1 & Hl1).
  destruct (decide (c = c')) as [<-|Hcc].
  - destruct Hinv as (im0 & evs0 & Hc0 & Hwf0 & Hh0 & Hw0 & Hrest).
    assert (im0 = im) as -> by congruence.
    eapply (canvas_inv_write _ c _ _ _ st st' _ idx); try eassumption.
    + exists im, evs0. done.
    + by left.
    + by apply paste_wf.
    + destruct (paste_shape wr_all idx vs im) as [-> _]. done.
    + destruct (paste_shape wr_all idx vs im) as [_ ->]. done.
    + intros im' i j Him' Hi Hj. assert (im' = im) as -> by congruence. split; [done|].
      intros Hnin. by rewrite paste_other.
  - eapply canvas_inv_other; try eassumption.
    repeat constructor; by eexists.
Qed.

(** The invariant with opaque faces gives the weaker one. *)
Lemma canvas_inv_weaken (on on' : Z -> Prop) c log0 hh ww st :
  (forall a, on a -> on' a) ->
  canvas_inv on c log0 hh ww st -> canvas_inv on' c log0 hh ww st.
Proof.
  intros Hon (im & evs & Hc & Hwf & Hh & Hw & Hl & Hpx).
  exists im, evs. do 5 (split; [done|]).
  intros i j Hi Hj. split.
  - intros Hin. by apply Hon, Hpx.
  - by apply Hpx.
Qed.

End Assignments.

(** ** The canvases of the three layouts *)

Section Layouts.
Import DodecahedralSampler.
Context (L : Library) (self : Sampler).

Local Abbreviation fl := float_of_int.

(** The twelve calls of [get_face_rgb] log samples only. *)
Lemma colors_logs p rot st st1 st2 cs :
  check_eq_image_shape p st = (Ok tt, st1) ->
  map_m (fun i => get_face_rgb L self i p rot) (py_range 12) st1 = (Ok cs, st2) ->
  exists evs, log st2 = log st ++ evs /\ Forall is_sample evs.
Proof.
  intros H1 H2.
  destruct (logs_run 0 is_sample _ _ _ _ _
              (check_eq_image_shape_logs 0 is_sample p) (Nat.le_0_l _) H1)
    as [(evs1 & Hl1 & He1) _].
  assert (logs 0 is_sample (Forall (fun q => (0 <= q)%nat))
            (map_m (fun i => get_face_rgb L self i p rot) (py_range 12))) as Hm.
  { apply logs_map_m. intros. apply get_face_rgb_logs. }
  destruct (logs_run _ _ _ _ _ _ _ Hm (Nat.le_0_l _) H2) as [(evs2 & Hl2 & He2) _].
  exists (evs1 ++ evs2). rewrite Hl2, Hl1, app_assoc. split; [done|].
  by apply Forall_app.
Qed.

(** A new canvas satisfies the invariant. *)
Lemma canvas_inv_alloc on hh ww zeros c st st' log0 evs :
  np_zeros zero_px hh ww = Ok zeros ->
  alloc (NdRGBA zeros) st = (Ok c, st') ->
  log st = log0 ++ evs -> written c evs = [] ->
  canvas_inv on c log0 (Z.to_nat hh) (Z.to_nat ww) st' /\ 0 <= hh /\ 0 <= ww.
Proof.
  intros Hz Ha Hl Hw.
  apply np_zeros_Ok in Hz as (Hwf & Hh & Hww & Hpx).
  apply alloc_Ok in Ha as (-> & Hheap & Hlog).
  split; [|lia].
  exists zeros, evs.
  split; [rewrite Hheap; by apply list_lookup_middle|].
  split; [done|]. split; [lia|]. split; [lia|].
  split; [by rewrite Hlog|].
  intros i j _ _. rewrite Hw, Hpx. split; [|done].
  intros Hin. by apply elem_of_nil in Hin.
Qed.

Lemma get_pentagon_coords_inv on c log0 hh ww b up ce nm hm st r st' :
  get_pentagon_coords L self b up ce nm hm st = (r, st') ->
  canvas_inv on c log0 hh ww st -> canvas_inv on c log0 hh ww st'.
Proof.
  intros H Hinv.
  destruct (extends_run _ _ _ _ (get_pentagon_coords_extends L self b up ce nm hm) H)
    as [ext Hext].
  destruct (logs_run 0 no_event _ _ _ _ _
              (get_pentagon_coords_logs L self 0 no_event b up ce nm hm) (Nat.le_0_l _) H)
    as [(evs & Hl & He) _].
  eapply canvas_inv_step; try eassumption. by apply written_none.
Qed.

Lemma a4_rotate_face_rgb_inv on c log0 hh ww p deg up st r st' :
  a4_rotate_face_rgb L self p deg up st = (r, st') ->
  canvas_inv on c log0 hh ww st -> canvas_inv on c log0 hh ww st'.
Proof.
  intros H Hinv.
  destruct (extends_run _ _ _ _ (a4_rotate_face_rgb_extends L self p deg up) H)
    as [ext Hext].
  destruct (logs_run (length (heap st)) _ _ _ _ _ _
              (a4_rotate_face_rgb_logs L self (length (heap st)) p deg up) (Nat.le_refl _) H)
    as [(evs & Hl & He) _].
  eapply canvas_inv_step; try eassumption.
  eapply written_above; [exact He|].
  destruct Hinv as (im & ? & Hc & _). by eapply lookup_lt_Some.
Qed.

Lemma put_rotated_inv c rotated xy top left oy ox st st' c' log0 hh ww :
  put_rotated c rotated xy top left oy ox st = (Ok tt, st') ->
  canvas_inv (fun _ => True) c' log0 hh ww st ->
  canvas_inv (fun _ => True) c' log0 hh ww st'.
Proof.
  intros H Hinv. unfold put_rotated in H.
  apply bind_Ok in H as (rows & s1 & H1 & H). apply load_I_Ok in H1 as [_ ->].
  apply bind_Ok in H as (src & s1 & H1 & H). apply load_RGBA_Ok in H1 as [_ ->].
  apply bind_Ok in H as (vals & s1 & H1 & H). apply lift_Ok in H1 as [_ ->].
  apply bind_Ok in H as (rows' & s1 & H1 & H). apply load_I_Ok in H1 as [_ ->].
  by eapply setitem_rgba_inv.
Qed.

(** [unwrap]: the canvas it returns has the computed shape, and its alpha
    is 255 on the written pixels and 0 on the others. *)
Lemma unwrap_canvas p rot st c st' :
  unwrap L self p rot st = (Ok c, st') ->
  exists hh ww,
    py_int (fl (2 * pentagon_h self) + h self)%float = Ok hh /\
    py_int (fl (3 * (pentagon_l self + resolution self)) + l self)%float = Ok ww /\
    0 <= hh /\ 0 <= ww /\
    canvas_inv (fun a => a = 255) c (log st) (Z.to_nat hh) (Z.to_nat ww) st'.
Proof.
  intros H. unfold unwrap in H.
  apply bind_Ok in H as ([] & s1 & Hcheck & H).
  apply bind_Ok in H as (cs & s2 & Hcols & H).
  destruct (colors_logs _ _ _ _ _ _ Hcheck Hcols) as (evs & Hl & Hev).
  apply bind_Ok in H as (ww & s3 & H1 & H). apply lift_Ok in H1 as [Hww ->].
  apply bind_Ok in H as (hh & s3 & H1 & H). apply lift_Ok in H1 as [Hhh ->].
  apply bind_Ok in H as (zeros & s3 & H1 & H). apply lift_Ok in H1 as [Hz ->].
  apply bind_Ok in H as (c0 & s3 & Ha & H).
  destruct (canvas_inv_alloc (fun a => a = 255) _ _ _ _ _ _ _ _ Hz Ha Hl
              (written_samples _ _ Hev)) as (Hinv & Hh0 & Hw0).
  apply bind_Ok in H as (xy_up & s4 & H1 & H).
  apply (get_pentagon_coords_inv _ _ _ _ _ _ _ _ _ _ _ _ _ H1) in Hinv.
  apply bind_Ok in H as (xy_down & s5 & H2 & H).
  apply (get_pentagon_coords_inv _ _ _ _ _ _ _ _ _ _ _ _ _ H2) in Hinv.
  apply bind_Ok in H as (f0x & s6 & H3 & H). apply lift_Ok in H3 as [_ ->].
  apply bind_Ok in H as ([] & s6 & H3 & H).
  apply (put_face_inv _ _ _ _ _ _ _ _ _ _ _ _ H3) in Hinv.
  apply bind_Ok in H as ([] & s7 & H4 & H).
  apply (for_each_Ok (canvas_inv (fun a => a = 255) c0 (log st) (Z.to_nat hh) (Z.to_nat ww)))
    in H4; [|clear; intros num s s' Hi Hb|exact Hinv].
  2:{ apply bind_Ok in Hb as (oy & t1 & Hb1 & Hb). apply lift_Ok in Hb1 as [_ ->].
      apply bind_Ok in Hb as (ox & t1 & Hb1 & Hb). apply lift_Ok in Hb1 as [_ ->].
      by eapply put_face_inv. }
  apply bind_Ok in H as (f11y & s8 & H5 & H). apply lift_Ok in H5 as [_ ->].
  apply bind_Ok in H as ([] & s8 & H5 & H).
  apply (put_face_inv _ _ _ _ _ _ _ _ _ _ _ _ H5) in H4.
  apply bind_Ok in H as ([] & s9 & H6 & H).
  apply (for_each_Ok (canvas_inv (fun a => a = 255) c0 (log st) (Z.to_nat hh) (Z.to_nat ww)))
    in H6; [|clear; intros num s s' Hi Hb|exact H4].
  2:{ apply bind_Ok in Hb as (oy & t1 & Hb1 & Hb). apply lift_Ok in Hb1 as [_ ->].
      apply bind_Ok in Hb as (ox & t1 & Hb1 & Hb). apply lift_Ok in Hb1 as [_ ->].
      by eapply put_face_inv. }
  apply ret_Ok in H as [-> ->].
  exists hh, ww. done.
Qed.

(** [half_unwrap]: the same for its two canvases. *)
Lemma half_unwrap_canvas p rot st lower upper st' :
  half_unwrap L self p rot st = (Ok (lower, upper), st') ->
  exists hh,
    py_int (fl (2 * pentagon_h self) + h self)%float = Ok hh /\
    0 <= hh /\ 0 <= 2 * pentagon_l self + resolution self /\
    canvas_inv (fun a => a = 255) lower (log st) (Z.to_nat hh)
      (Z.to_nat (2 * pentagon_l self + resolution self)) st' /\
    canvas_inv (fun a => a = 255) upper (log st) (Z.to_nat hh)
      (Z.to_nat (2 * pentagon_l self + resolution self)) st'.
Proof.
  intros H. unfold half_unwrap in H.
  apply bind_Ok in H as ([] & s1 & Hcheck & H).
  apply bind_Ok in H as (cs & s2 & Hcols & H).
  destruct (colors_logs _ _ _ _ _ _ Hcheck Hcols) as (evs & Hl & Hev).
  apply bind_Ok in H as (hh & s3 & H1 & H). apply lift_Ok in H1 as [Hhh ->].
  apply bind_Ok in H as (zeros & s3 & H1 & H). apply lift_Ok in H1 as [Hz ->].
  apply bind_Ok in H as (cu & s3 & Ha & H).
  destruct (canvas_inv_alloc (fun a => a = 255) _ _ _ _ _ _ _ _ Hz Ha Hl
              (written_samples _ _ Hev)) as (Hu & Hh0 & Hw0).
  apply bind_Ok in H as (zeros' & s4 & H1 & H). apply lift_Ok in H1 as [Hz' ->].
  apply bind_Ok in H as (cl & s4 & Ha' & H).
  assert (log s3 = log st ++ evs) as Hl3.
  { apply alloc_Ok in Ha as (_ & _ & ->). done. }
  destruct (canvas_inv_alloc (fun a => a = 255) _ _ _ _ _ _ _ _ Hz' Ha' Hl3
              (written_samples _ _ Hev)) as (Hlo & _ & _).
  assert (canvas_inv (fun a => a = 255) cu (log st) (Z.to_nat hh)
            (Z.to_nat (2 * pentagon_l self + resolution self)) s4) as Hu4.
  { apply alloc_Ok in Ha' as (_ & Hheap & Hlog).
    apply (canvas_inv_step _ _ _ _ _ s3 s4 [NdRGBA zeros'] [] Hu Hheap); [|done].
    by rewrite Hlog, app_nil_r. }
  clear Hu. set (Inv := fun s =>
    canvas_inv (fun a => a = 255) cl (log st) (Z.to_nat hh)
      (Z.to_nat (2 * pentagon_l self + resolution self)) s /\
    canvas_inv (fun a => a = 255) cu (log st) (Z.to_nat hh)
      (Z.to_nat (2 * pentagon_l self + resolution self)) s).
  assert (Inv s4) as Hinv by done. clear Hlo Hu4.
  assert (forall c xy oy ox cs face s s',
            put_face c xy oy ox cs face s = (Ok tt, s') -> Inv s -> Inv s') as Hput.
  { intros ? ? ? ? ? ? s s' Hp [I1 I2]. split; by eapply put_face_inv. }
  apply bind_Ok in H as (xy_up & s5 & H1 & H).
  assert (Inv s5) as Hinv5.
  { destruct Hinv. split; by eapply get_pentagon_coords_inv. }
  apply bind_Ok in H as (xy_down & s6 & H2 & H).
  assert (Inv s6) as Hinv6.
  { destruct Hinv5. split; by eapply get_pentagon_coords_inv. }
  apply bind_Ok in H as (f0x & s7 & H3 & H). apply lift_Ok in H3 as [_ ->].
  apply bind_Ok in H as ([] & s7 & H3 & H).
  apply (Hput _ _ _ _ _ _ _ _ H3) in Hinv6.
  apply bind_Ok in H as ([] & s8 & H4 & H).
  apply (for_each_Ok Inv) in H4; [|clear -Hput; intros num s s' Hi Hb|exact Hinv6].
  2:{ apply bind_Ok in Hb as (oy & t1 & Hb1 & Hb). apply lift_Ok in Hb1 as [_ ->].
      apply bind_Ok in Hb as (ox & t1 & Hb1 & Hb). apply lift_Ok in Hb1 as [_ ->].
      by eapply Hput. }
  apply bind_Ok in H as (f11x & s9 & H5 & H). apply lift_Ok in H5 as [_ ->].
  apply bind_Ok in H as (f11y & s9 & H5 & H). apply lift_Ok in H5 as [_ ->].
  apply bind_Ok in H as ([] & s9 & H5 & H).
  apply (Hput _ _ _ _ _ _ _ _ H5) in H4.
  apply bind_Ok in H as ([] & s10 & H6 & H).
  apply (for_each_Ok Inv) in H6; [|clear -Hput; intros num s s' Hi Hb|exact H4].
  2:{ apply bind_Ok in Hb as (oy & t1 & Hb1 & Hb). apply lift_Ok in Hb1 as [_ ->].
      apply bind_Ok in Hb as (ox & t1 & Hb1 & Hb). apply lift_Ok in Hb1 as [_ ->].
      by eapply Hput. }
  apply ret_Ok in H as [[= -> ->] ->].
  destruct H6 as [I1 I2]. exists hh. done.
Qed.

(** [a4_optimised_unwrap]: the canvas has the computed shape, and alpha 0 on
    the pixels that were never written. *)
Lemma a4_optimised_unwrap_canvas p rot st c st' :
  a4_optimised_unwrap L self p rot st = (Ok c, st') ->
  exists hh ww,
    py_int (fl (2 * pentagon_h self) + h self)%float = Ok hh /\
    py_int (fl (3 * (pentagon_l self + scaled_edge_length self)) + l self)%float = Ok ww /\
    0 <= hh /\ 0 <= ww /\
    canvas_inv (fun _ => True) c (log st) (Z.to_nat hh) (Z.to_nat ww) st'.
Proof.
  intros H. unfold a4_optimised_unwrap in H.
  apply bind_Ok in H as ([] & s1 & Hcheck & H).
  apply bind_Ok in H as (cs & s2 & Hcols & H).
  destruct (colors_logs _ _ _ _ _ _ Hcheck Hcols) as (evs & Hl & Hev).
  apply bind_Ok in H as (ww & s3 & H1 & H). apply lift_Ok in H1 as [Hww ->].
  apply bind_Ok in H as (hh & s3 & H1 & H). apply lift_Ok in H1 as [Hhh ->].
  apply bind_Ok in H as (zeros & s3 & H1 & H). apply lift_Ok in H1 as [Hz ->].
  apply bind_Ok in H as (c0 & s3 & Ha & H).
  destruct (canvas_inv_alloc (fun _ => True) _ _ _ _ _ _ _ _ Hz Ha Hl
              (written_samples _ _ Hev)) as (Hinv & Hh0 & Hw0).
  set (Inv := canvas_inv (fun _ => True) c0 (log st) (Z.to_nat hh) (Z.to_nat ww)) in *.
  apply bind_Ok in H as (xy_up & s4 & H1 & H).
  apply (get_pentagon_coords_inv _ _ _ _ _ _ _ _ _ _ _ _ _ H1) in Hinv.
  apply bind_Ok in H as (xy_down & s5 & H2 & H).
  apply (get_pentagon_coords_inv _ _ _ _ _ _ _ _ _ _ _ _ _ H2) in Hinv.
  apply bind_Ok in H as (top & s6 & H3 & H). apply lift_Ok in H3 as [_ ->].
  apply bind_Ok in H as (left & s6 & H3 & H). apply lift_Ok in H3 as [_ ->].
  apply bind_Ok in H as (f0x & s6 & H3 & H). apply lift_Ok in H3 as [_ ->].
  apply bind_Ok in H as (f0y & s6 & H3 & H). apply lift_Ok in H3 as [_ ->].
  apply bind_Ok in H as (col & s6 & H3 & H). apply lift_Ok in H3 as [_ ->].
  apply bind_Ok in H as (rc & s6 & H3 & H).
  apply (a4_rotate_face_rgb_inv _ _ _ _ _ _ _ _ _ _ _ H3) in Hinv.
  apply bind_Ok in H as ([] & s7 & H4 & H).
  apply (put_rotated_inv _ _ _ _ _ _ _ _ _ _ _ _ _ H4) in Hinv.
  apply bind_Ok in H as ([] & s8 & H5 & H).
  apply (for_each_Ok Inv) in H5; [|clear; intros num s s' Hi Hb|exact Hinv].
  2:{ apply bind_Ok in Hb as (off & t1 & Hb1 & Hb). apply lift_Ok in Hb1 as [_ ->].
      apply bind_Ok in Hb as (col' & t1 & Hb1 & Hb). apply lift_Ok in Hb1 as [_ ->].
      apply bind_Ok in Hb as (rc' & t1 & Hb1 & Hb).
      apply (a4_rotate_face_rgb_inv _ _ _ _ _ _ _ _ _ _ _ Hb1) in Hi.
      destruct (_ =? 1); by eapply put_rotated_inv. }
  apply bind_Ok in H as ([] & s9 & H6 & H).
  apply (for_each_Ok Inv) in H6; [|clear; intros num s s' Hi Hb|exact H5].
  2:{ apply bind_Ok in Hb as (row & t1 & Hb1 & Hb). apply lift_Ok in Hb1 as [_ ->].
      apply bind_Ok in Hb as (col' & t1 & Hb1 & Hb). apply lift_Ok in Hb1 as [_ ->].
      apply bind_Ok in Hb as (rc' & t1 & Hb1 & Hb).
      apply (a4_rotate_face_rgb_inv _ _ _ _ _ _ _ _ _ _ _ Hb1) in Hi.
      destruct (row.2); by eapply put_rotated_inv. }
  apply ret_Ok in H as [-> ->].
  exists hh, ww. done.
Qed.

End Layouts.

(** ** The alpha of a face that went through the rotation *)

Section Rotated.
Import DodecahedralSampler.
Context (L : Library) (self : Sampler).

Local Abbreviation fl := float_of_int.











End Rotated.

(** * The public operations as calls *)

Module Calls.
Import DodecahedralSampler.

(** A call of a method of the sampler, with its arguments. *)
Inductive call : Type :=
| GetPentagonCoords (base_resolution : Z) (is_up center normalize homogeneous : bool)
| GetFaceXyz (face_no : Z)
| GetFaceRgb (face_no : Z) (eq_image : loc) (rotation_offset : float)
| GetFaceImage (face_no : Z) (eq_image : loc) (rotation_offset : float)
| Unwrap (eq_image : loc) (rotation_offset : float)
| HalfUnwrap (eq_image : loc) (rotation_offset : float)
| RotateFaceRgb (rgb_ : loc) (rotation_deg : float) (is_up : bool)
| A4OptimisedUnwrap (eq_image : loc) (rotation_offset : float).

(** The call, returning the references of the arrays the method returns. *)
Definition exec (L : Library) (self : Sampler) (c : call) : M (list loc) :=
  match c with
  | GetPentagonCoords b up ce nm hm =>
      p <- get_pentagon_coords L self b up ce nm hm ;; ret [p]
  | GetFaceXyz f => p <- get_face_xyz L self f ;; ret [p]
  | GetFaceRgb f im rot => p <- get_face_rgb L self f im rot ;; ret [p]
  | GetFaceImage f im rot => p <- get_face_image L self f im rot ;; ret [p]
  | Unwrap im rot => p <- unwrap L self im rot ;; ret [p]
  | HalfUnwrap im rot => pq <- half_unwrap L self im rot ;; ret [pq.1; pq.2]
  | RotateFaceRgb rgb_ deg up => p <- rotate_face_rgb L self rgb_ deg up ;; ret [p]
  | A4OptimisedUnwrap im rot => p <- a4_optimised_unwrap L self im rot ;; ret [p]
  end.

(** A sequence of calls; what they return or raise is dropped. *)
Fixpoint run_calls (L : Library) (self : Sampler) (cs : list call) (st : State) : State :=
  match cs with
  | [] => st
  | c :: cs' => run_calls L self cs' (exec L self c st).2
  end.

(** What the caller sees of a call: the exception, or the contents of the
    arrays returned. *)
Definition outcome (r : Result (list loc) * State) : Result (list (option ndarray)) :=
  match r.1 with
  | Ok ps => Ok (map (fun p => heap r.2 !! p) ps)
  | Err e => Err e
  end.

(** The same array, present in both stores. *)
Definition same_array (st1 st2 : State) (p1 p2 : loc) : Prop :=
  exists a, heap st1 !! p1 = Some a /\ heap st2 !! p2 = Some a.

(** Two samplers that were constructed alike. *)
Definition same_sampler (st1 st2 : State) (s1 s2 : Sampler) : Prop :=
  unit_edge_length s1 = unit_edge_length s2 /\
  resolution s1 = resolution s2 /\
  scaled_edge_length s1 = scaled_edge_length s2 /\
  h s1 = h s2 /\
  l s1 = l s2 /\
  pentagon_l s1 = pentagon_l s2 /\
  height_to_centre s1 = height_to_centre s2 /\
  pentagon_h s1 = pentagon_h s2 /\
  circumradius s1 = circumradius s2 /\
  same_array st1 st2 (faces s1) (faces s2) /\
  same_array st1 st2 (vertices s1) (vertices s2).

(** Two calls with identical inputs. *)
Definition same_call (st1 st2 : State) (c1 c2 : call) : Prop :=
  match c1, c2 with
  | GetPentagonCoords b1 up1 ce1 nm1 hm1, GetPentagonCoords b2 up2 ce2 nm2 hm2 =>
      b1 = b2 /\ up1 = up2 /\ ce1 = ce2 /\ nm1 = nm2 /\ hm1 = hm2
  | GetFaceXyz f1, GetFaceXyz f2 => f1 = f2
  | GetFaceRgb f1 p1 r1, GetFaceRgb f2 p2 r2
  | GetFaceImage f1 p1 r1, GetFaceImage f2 p2 r2 =>
      f1 = f2 /\ r1 = r2 /\ same_array st1 st2 p1 p2
  | Unwrap p1 r1, Unwrap p2 r2
  | HalfUnwrap p1 r1, HalfUnwrap p2 r2
  | A4OptimisedUnwrap p1 r1, A4OptimisedUnwrap p2 r2 =>
      r1 = r2 /\ same_array st1 st2 p1 p2
  | RotateFaceRgb p1 d1 up1, RotateFaceRgb p2 d2 up2 =>
      d1 = d2 /\ up1 = up2 /\ same_array st1 st2 p1 p2
  | _, _ => False
  end.

Lemma same_array_rel st1 st2 p1 p2 :
  same_array st1 st2 p1 p2 -> loc_rel (heap st1) (heap st2) p1 p2.
Proof.
  intros (a & H1 & H2). right. repeat split.
  - by eapply lookup_lt_Some.
  - by eapply lookup_lt_Some.
  - by rewrite H1, H2.
Qed.

Lemma same_sampler_rel st1 st2 s1 s2 :
  same_sampler st1 st2 s1 s2 -> sampler_rel (heap st1) (heap st2) s1 s2.
Proof.
  intros (? & ? & ? & ? & ? & ? & ? & ? & ? & Hf & Hv).
  unfold sampler_rel. repeat split; auto using same_array_rel.
Qed.

Lemma exec_rel L σ1 σ2 s1 s2 c1 c2 :
  sampler_rel σ1 σ2 s1 s2 ->
  (forall g1 g2, same_call (mkState σ1 g1) (mkState σ2 g2) c1 c2) ->
  rel σ1 σ2 (Forall2 (fresh_rel σ1 σ2)) (exec L s1 c1) (exec L s2 c2).
Proof.
  intros Hs Hc. specialize (Hc [] []).
  destruct c1, c2; simpl in Hc; try contradiction; simpl.
  - destruct Hc as (-> & -> & -> & -> & ->).
    eapply rel_bind; [by apply get_pentagon_coords_rel|].
    intros. apply rel_ret. by repeat constructor.
  - subst. eapply rel_bind; [by apply get_face_xyz_rel|].
    intros. apply rel_ret. by repeat constructor.
  - destruct Hc as (-> & -> & Hp%same_array_rel).
    eapply rel_bind; [by apply get_face_rgb_rel|].
    intros. apply rel_ret. by repeat constructor.
  - destruct Hc as (-> & -> & Hp%same_array_rel).
    eapply rel_bind; [by apply get_face_image_rel|].
    intros. apply rel_ret. by repeat constructor.
  - destruct Hc as (-> & Hp%same_array_rel).
    eapply rel_bind; [by apply unwrap_rel|].
    intros. apply rel_ret. by repeat constructor.
  - destruct Hc as (-> & Hp%same_array_rel).
    eapply rel_bind; [by apply half_unwrap_rel|].
    intros ? ? [? ?]. apply rel_ret. by repeat constructor.
  - destruct Hc as (-> & -> & Hp%same_array_rel).
    eapply rel_bind; [by apply rotate_face_rgb_rel|].
    intros. apply rel_ret. by repeat constructor.
  - destruct Hc as (-> & Hp%same_array_rel).
    eapply rel_bind; [by apply a4_optimised_unwrap_rel|].
    intros. apply rel_ret. by repeat constructor.
Qed.

(** A call only extends the store. *)
Lemma exec_extends L s c : extends (exec L s c).
Proof.
  intros st. unfold exec.
  assert (forall (m : M loc), extends m -> exists ext,
            heap ((p <- m ;; ret [p]) st).2 = heap st ++ ext) as H1.
  { intros m Hm. destruct (Hm st) as [ext Hext]. exists ext.
    unfold bind. destruct (m st) as [[a|e] st']; done. }
  destruct c.
  - apply H1, get_pentagon_coords_extends.
  - apply H1, get_face_xyz_extends.
  - apply H1, get_face_rgb_extends.
  - apply H1, get_face_image_extends.
  - apply H1, unwrap_extends.
  - destruct (half_unwrap_extends L s eq_image rotation_offset st) as [ext Hext].
    exists ext. unfold bind.
    destruct (half_unwrap L s eq_image rotation_offset st) as [[a|e] st']; done.
  - apply H1, rotate_face_rgb_extends.
  - apply H1, a4_optimised_unwrap_extends.
Qed.

Lemma run_calls_extends L s cs st : exists ext, heap (run_calls L s cs st) = heap st ++ ext.
Proof.
  revert st. induction cs as [|c cs IH]; intros st; simpl.
  - exists []. by rewrite app_nil_r.
  - destruct (exec_extends L s c st) as [e1 H1].
    destruct (IH (exec L s c st).2) as [e2 H2].
    exists (e1 ++ e2). by rewrite H2, H1, app_assoc.
Qed.

(** Calls with identical inputs have the same outcome, whatever else the
    two stores hold. *)
Lemma exec_deterministic L s1 s2 c1 c2 st1 st2 :
  same_sampler st1 st2 s1 s2 -> same_call st1 st2 c1 c2 ->
  outcome (exec L s1 c1 st1) = outcome (exec L s2 c2 st2).
Proof.
  intros Hs Hc. destruct st1 as [σ1 g1], st2 as [σ2 g2].
  assert (rel σ1 σ2 (Forall2 (fresh_rel σ1 σ2)) (exec L s1 c1) (exec L s2 c2)) as Hrel.
  { apply exec_rel; [by apply (same_sampler_rel _ _ _ _ Hs)|].
    intros g1' g2'. destruct c1, c2; exact Hc. }
  destruct (Hrel [] g1 g2) as (ext & g1' & g2' & r1 & r2 & E1 & E2 & Hr).
  rewrite !app_nil_r in *. unfold outcome. rewrite E1, E2. simpl.
  destruct r1 as [ps1|e1], r2 as [ps2|e2]; simpl in Hr; try contradiction; [|by subst].
  f_equal. clear E1 E2. induction Hr as [|p1 p2 ps1 ps2 (k & -> & ->) _ IH]; simpl; [done|].
  f_equal; [|exact IH].
  rewrite !lookup_app_r by lia. f_equal. lia.
Qed.

End Calls.

(** * Properties of the sampler *)

Section Properties.
Import DodecahedralSampler Calls.
Context (L : Library).

Local Abbreviation fl := float_of_int.

(** The alpha channel of the canvas [c] after a run from [st] to [st']: 255
    on the pixels the run wrote to [c], 0 on all others. *)
Definition opaque_where_written (c : loc) (st st' : State) : Prop :=
  exists im evs,
    heap st' !! c = Some (NdRGBA im) /\ log st' = log st ++ evs /\
    forall i j, (i < im_h im)%nat -> (j < im_w im)%nat ->
      alpha (px_get zero_px im i j) = if decide ((i, j) ∈ written c evs) then 255 else 0.

(** The weaker property: alpha 0 on the pixels the run did not write. *)
Definition transparent_where_unwritten (c : loc) (st st' : State) : Prop :=
  exists im evs,
    heap st' !! c = Some (NdRGBA im) /\ log st' = log st ++ evs /\
    forall i j, (i < im_h im)%nat -> (j < im_w im)%nat ->
      (i, j) ∉ written c evs -> alpha (px_get zero_px im i j) = 0.

Lemma canvas_inv_opaque c st st' hh ww :
  canvas_inv (fun a => a = 255) c (log st) hh ww st' -> opaque_where_written c st st'.
Proof.
  intros (im & evs & Hc & _ & <- & <- & Hl & Hpx). exists im, evs.
  split; [done|]. split; [done|]. intros i j Hi Hj.
  destruct (Hpx i j Hi Hj) as [H1 H2]. destruct (decide _); auto.
Qed.

Lemma canvas_inv_transparent c st st' hh ww :
  canvas_inv (fun _ => True) c (log st) hh ww st' -> transparent_where_unwritten c st st'.
Proof.
  intros (im & evs & Hc & _ & <- & <- & Hl & Hpx). exists im, evs.
  split; [done|]. split; [done|]. intros i j Hi Hj. by apply Hpx.
Qed.




(** C5.  The canvas [unwrap] returns has the height [int(2*pentagon_h + h)]
    and the width [int(3*(pentagon_l + resolution) + l)]. *)
Theorem C5_unwrap_canvas_shape (self : Sampler) (eq_image : loc) (rotation_offset : float)
    (st st' : State) (c : loc) :
  unwrap L self eq_image rotation_offset st = (Ok c, st') ->
  exists im,
    heap st' !! c = Some (NdRGBA im) /\
    py_int (fl (2 * pentagon_h self) + h self)%float = Ok (Z.of_nat (im_h im)) /\
    py_int (fl (3 * (pentagon_l self + resolution self)) + l self)%float
      = Ok (Z.of_nat (im_w im)).
Proof.
  intros H. apply unwrap_canvas in H as (hh & ww & Hh & Hw & H0 & H1 & Hinv).
  destruct Hinv as (im & evs & Hc & _ & Eh & Ew & _).
  exists im. split; [done|].
  rewrite Eh, Ew, !Z2Nat.id by done. done.
Qed.

(** C6.  The face table of a constructed sampler is the fixed 12 x 5 table:
    twelve faces, each of five distinct vertex indices below 20. *)
Theorem C6_face_table (res : Z) (st st' : State) (self : Sampler) :
  init L res st = (Ok self, st') ->
  heap st' !! faces self =
    Some (NdI [ [0; 1; 2; 3; 4]; [0; 5; 11; 6; 1]; [1; 6; 10; 7; 2]; [2; 7; 14; 8; 3];
                [3; 8; 13; 9; 4]; [4; 9; 12; 5; 0]; [15; 10; 7; 14; 19];
                [19; 14; 8; 13; 18]; [18; 13; 9; 12; 17]; [17; 12; 5; 11; 16];
                [16; 11; 6; 10; 15]; [19; 18; 17; 16; 15] ]) /\
  length FACES = 12%nat /\
  Forall (fun f => length f = 5%nat /\ NoDup f /\ Forall (fun v => 0 <= v < 20) f) FACES.
Proof.
  intros H. split; [|split; [done|]].
  - unfold init in H.
    apply bind_Ok in H as (pl & s1 & H1 & H). apply lift_Ok in H1 as [_ ->].
    apply bind_Ok in H as (ph & s1 & H1 & H). apply lift_Ok in H1 as [_ ->].
    apply bind_Ok in H as (cr & s1 & H1 & H). apply lift_Ok in H1 as [_ ->].
    apply bind_Ok in H as (fs & s1 & Ha & H).
    apply bind_Ok in H as (vs & s2 & Hv & H).
    apply ret_Ok in H as [-> ->]. simpl.
    apply alloc_Ok in Ha as (-> & Hheap & _).
    assert (extends (get_vertices L
              ((PrimFloat.sqrt 5 - 1) / PrimFloat.sqrt 3 * 1)%float 1%float)) as Hext.
    { apply (rel_extends (fun σ => fresh_rel σ σ)). intros. apply get_vertices_rel. }
    destruct (extends_run _ _ _ _ Hext Hv) as [ext ->].
    rewrite Hheap. apply lookup_app_l_Some. by apply list_lookup_middle.
  - apply (bool_decide_unpack _). vm_compute. reflexivity.
Qed.

(** C7.  Two calls with identical inputs, on the same sampler or on two
    samplers constructed alike, have the same outcome: the same exception, or
    returned arrays with the same contents.  The two stores may differ in
    everything else; and the same call repeated after any sequence of other
    calls on the sampler has the outcome of the first. *)
Theorem C7_deterministic (s1 s2 : Sampler) (c1 c2 : call) (st1 st2 : State) :
  same_sampler st1 st2 s1 s2 -> same_call st1 st2 c1 c2 ->
  outcome (exec L s1 c1 st1) = outcome (exec L s2 c2 st2) /\
  forall cs : list call,
    outcome (exec L s1 c1 (run_calls L s1 cs (exec L s1 c1 st1).2))
    = outcome (exec L s1 c1 st1).
Proof.
  intros Hs Hc. split; [by apply exec_deterministic|].
  intros cs. symmetry.
  destruct (exec_extends L s1 c1 st1) as [e1 H1].
  destruct (run_calls_extends L s1 cs (exec L s1 c1 st1).2) as [e2 H2].
  assert (forall p a, heap st1 !! p = Some a ->
            heap (run_calls L s1 cs (exec L s1 c1 st1).2) !! p = Some a) as Hkeep.
  { intros p a Hp. rewrite H2, H1. by apply lookup_app_l_Some, lookup_app_l_Some. }
  assert (forall p q, same_array st1 st2 p q ->
            same_array st1 (run_calls L s1 cs (exec L s1 c1 st1).2) p p) as Hsame.
  { intros p q (a & Hp & _). exists a. auto. }
  apply exec_deterministic.
  - destruct Hs as (? & ? & ? & ? & ? & ? & ? & ? & ? & Hf & Hv).
    unfold same_sampler. repeat split; eauto.
  - destruct c1, c2; simpl in Hc |- *; try contradiction;
      repeat match goal with H : _ /\ _ |- _ => destruct H end; repeat split; eauto.
Qed.

(** C8.  No call writes to an array that existed before it: the store after
    the call is the store before it followed by the arrays the call
    allocated.  In particular the panorama passed in is unchanged. *)
Theorem C8_inputs_unchanged (self : Sampler) (c : call) (st : State) :
  (exists ext, heap (exec L self c st).2 = heap st ++ ext) /\
  (forall p im, heap st !! p = Some (NdPano im) ->
     heap (exec L self c st).2 !! p = Some (NdPano im)).
Proof.
  destruct (exec_extends L self c st) as [ext H]. split; [by exists ext|].
  intros p im Hp. rewrite H. by apply lookup_app_l_Some.
Qed.

(** C9.  [get_pentagon_coords] ignores [base_resolution]: two calls that
    differ in it only run alike.  The canvas it rasters the pentagon on has
    the shape [pentagon_h, pentagon_l] of the sampler. *)
Theorem C9_base_resolution_unused (self : Sampler) (b1 b2 : Z)
    (is_up center normalize homogeneous : bool) (st : State) :
  get_pentagon_coords L self b1 is_up center normalize homogeneous st
  = get_pentagon_coords L self b2 is_up center normalize homogeneous st /\
  forall p st',
    get_pentagon_coords L self b1 is_up center normalize homogeneous st = (Ok p, st') ->
    exists m, heap st' !! length (heap st) = Some (NdMask m) /\
              Z.of_nat (im_h m) = pentagon_h self /\ Z.of_nat (im_w m) = pentagon_l self.
Proof.
  split; [reflexivity|].
  intros p st' H. unfold get_pentagon_coords, cv2_drawContours in H.
  apply bind_Ok in H as (zeros & s1 & H1 & H). apply lift_Ok in H1 as [Hz ->].
  apply np_zeros_Ok in Hz as (_ & Hh & Hw & _).
  apply bind_Ok in H as (canvas & s1 & Ha & H).
  apply alloc_Ok in Ha as (-> & Hheap1 & _).
  apply bind_Ok in H as ([] & s2 & Hd & H).
  apply bind_Ok in Hd as (m & t & Hd1 & Hd). apply load_Mask_Ok in Hd1 as [Hm ->].
  apply bind_Ok in Hd as (ct & t & Hd1 & Hd). apply lift_Ok in Hd1 as [_ ->].
  apply store_Ok in Hd as (Hlt & Hheap2 & _).
  rewrite Hheap1, list_lookup_middle in Hm by done. injection Hm as <-.
  exists (Image (im_h zeros) (im_w zeros)
            (draw_rows (cv2_filled L ct) 0 (im_px zeros))).
  split; [|done].
  assert (heap s2 !! length (heap st) = Some (NdMask
            (Image (im_h zeros) (im_w zeros)
               (draw_rows (cv2_filled L ct) 0 (im_px zeros))))) as Hc.
  { rewrite Hheap2. apply list_lookup_insert_eq. rewrite Hheap1, length_app. simpl. lia. }
  assert (length (heap s2) = S (length (heap st))) as Hlen.
  { rewrite Hheap2, length_insert, Hheap1, length_app. simpl. lia. }
  clear Hheap1 Hheap2 Hlt Hh Hw.
  run_inv;
    repeat match goal with
    | E : heap ?s = _ |- heap ?s !! _ = _ => rewrite E
    | |- (_ ++ _) !! _ = Some _ => apply lookup_app_l_Some
    | |- <[_ := _]> _ !! _ = Some _ =>
        rewrite list_lookup_insert_ne by (rewrite ?length_app; simpl; lia)
    end; exact Hc.
Qed.

(** C10.  The method [rotate_face_rgb] and the function of the same name
    inside [a4_optimised_unwrap] run alike on every input, and the canvas
    they return is a square of side [2 * circumradius]. *)
Theorem C10_rotate_face_rgb_twins (self : Sampler) (rgb_ : loc) (rotation_deg : float)
    (is_up : bool) (st : State) :
  rotate_face_rgb L self rgb_ rotation_deg is_up st
  = a4_rotate_face_rgb L self rgb_ rotation_deg is_up st /\
  forall r st',
    rotate_face_rgb L self rgb_ rotation_deg is_up st = (Ok r, st') ->
    exists im, heap st' !! r = Some (NdRGBA im) /\
               Z.of_nat (im_h im) = 2 * circumradius self /\
               Z.of_nat (im_w im) = 2 * circumradius self.
Proof.
  split; [reflexivity|].
  intros r st' H. unfold rotate_face_rgb in H.
  apply bind_Ok in H as (zeros & s1 & H1 & H). apply lift_Ok in H1 as [Hz ->].
  apply np_zeros_Ok in Hz as (_ & Hh & _ & _).
  apply bind_Ok in H as (padded & s1 & _ & H).
  apply bind_Ok in H as (top & s2 & _ & H).
  apply bind_Ok in H as (lft & s3 & _ & H).
  apply bind_Ok in H as (xy & s4 & _ & H).
  apply bind_Ok in H as (c1 & s5 & _ & H).
  apply bind_Ok in H as (u1 & s6 & _ & H).
  apply bind_Ok in H as (c2 & s7 & _ & H).
  apply bind_Ok in H as (u2 & s8 & _ & H).
  apply bind_Ok in H as (src & s9 & _ & H).
  apply bind_Ok in H as (rc & s10 & Ha & H).
  apply ret_Ok in H as [-> ->].
  apply alloc_Ok in Ha as (-> & Hheap & _).
  eexists. split; [rewrite Hheap; by apply list_lookup_middle|].
  unfold cv2_warpAffine; simpl. lia.
Qed.

Lemma check_invalid p im st :
  heap st !! p = Some (NdPano im) -> valid_shape im = false ->
  check_eq_image_shape p st = (Err ShapeValidationError, st).
Proof.
  intros Hp Hv. unfold check_eq_image_shape, load_Pano, bind, load.
  rewrite Hp. simpl. by rewrite Hv.
Qed.

Lemma check_valid p im st :
  heap st !! p = Some (NdPano im) -> valid_shape im = true ->
  check_eq_image_shape p st = (Ok tt, st).
Proof.
  intros Hp Hv. unfold check_eq_image_shape, load_Pano, bind, load.
  rewrite Hp. simpl. by rewrite Hv.
Qed.

(** C3.  On a panorama whose shape is not a non-empty 2:1 grid, every
    sampling and unwrapping operation raises the shape-validation error at
    once: the state is the one before the call, so nothing was sampled and no
    array was allocated. *)
Theorem C3_invalid_shape_fails_first (self : Sampler) (face_no : Z) (eq_image : loc)
    (rotation_offset : float) (im : image rgb) (st : State) :
  heap st !! eq_image = Some (NdPano im) ->
  valid_shape im = false ->
  get_face_rgb L self face_no eq_image rotation_offset st = (Err ShapeValidationError, st) /\
  get_face_image L self face_no eq_image rotation_offset st = (Err ShapeValidationError, st) /\
  unwrap L self eq_image rotation_offset st = (Err ShapeValidationError, st) /\
  half_unwrap L self eq_image rotation_offset st = (Err ShapeValidationError, st) /\
  a4_optimised_unwrap L self eq_image rotation_offset st = (Err ShapeValidationError, st).
Proof.
  intros Hp Hv. pose proof (check_invalid _ _ _ Hp Hv) as Hc.
  unfold get_face_rgb, get_face_image, unwrap, half_unwrap, a4_optimised_unwrap.
  repeat split; unfold bind at 1; by rewrite Hc.
Qed.

(** A path that ends before anything was logged. *)
Ltac wp_err := solve [exists []; split; [cbn; by rewrite ?app_nil_r | constructor]].

(** A typed load in a weakest-precondition proof: [k] names the cell and the
    fact that the store holds it. *)
Ltac wp_load_typed k :=
  apply wp_bind;
  unfold load_F, load_Fv, load_I, load_Mask, load_RGB, load_Pano, load_RGBA;
  apply wp_bind; apply wp_load;
  [ let c := fresh "c" in let Hc := fresh "Hc" in
    intros c Hc; cbn beta iota;
    destruct c; try (apply wp_throw; cbn beta iota; wp_err);
    apply wp_ret; cbn beta iota; k c Hc
  | intros _; cbn beta iota; wp_err ].

(** The reads of the panorama [im] that stay inside it. *)
Definition in_bounds (im : image rgb) (e : Event) : Prop :=
  match e with
  | EvSample shape rows cols =>
      shape = (im_h im, im_w im) /\
      Forall (fun y => 0 <= y < Z.of_nat (im_h im)) rows /\
      Forall (fun x => 0 <= x < Z.of_nat (im_w im)) cols
  | EvWrite _ _ => False
  end.

(** C4.  On a valid panorama, [get_face_rgb] reads the panorama only at
    rows in [0, height) and columns in [0, width), whatever the face number
    and the rotation offset. *)
Theorem C4_sampling_in_bounds (self : Sampler) (face_no : Z) (eq_image : loc)
    (rotation_offset : float) (im : image rgb) (st : State) :
  heap st !! eq_image = Some (NdPano im) ->
  valid_shape im = true ->
  exists evs,
    log (get_face_rgb L self face_no eq_image rotation_offset st).2 = log st ++ evs /\
    Forall (in_bounds im) evs.
Proof.
  intros Hp Hv.
  change (wp (get_face_rgb L self face_no eq_image rotation_offset)
            (fun _ st' => exists evs, log st' = log st ++ evs /\ Forall (in_bounds im) evs) st).
  unfold get_face_rgb. apply wp_bind.
  unfold wp at 1. rewrite (check_valid _ _ _ Hp Hv). cbn beta iota; simpl fst; simpl snd.
  apply wp_bind. unfold wp at 1.
  destruct (get_face_xyz L self face_no st) as [r s2] eqn:Hx.
  destruct (extends_run _ _ _ _ (get_face_xyz_extends L self face_no) Hx) as [ext Hext].
  destruct (logs_run 0 no_event _ _ _ _ _
              (get_face_xyz_logs L self 0 no_event face_no) (Nat.le_0_l _) Hx)
    as [(evs0 & Hl0 & He0) _].
  assert (evs0 = []) as -> by (destruct He0 as [|? ? []]; done).
  rewrite app_nil_r in Hl0.
  assert (heap s2 !! eq_image = Some (NdPano im)) as Hp2.
  { rewrite Hext. by apply lookup_app_l_Some. }
  simpl fst; simpl snd. rewrite <- Hl0. clear Hl0 Hext Hx Hp st He0.
  destruct r as [xyz|e]; [|exists []; by rewrite app_nil_r].
  wp_load_typed ltac:(fun c Hc => idtac).
  apply wp_bind, wp_alloc; cbn beta iota.
  wp_load_typed ltac:(fun c Hc => idtac).
  apply wp_bind, wp_store; cbn beta iota; [intros Hlt | intros _; wp_err].
  wp_load_typed ltac:(fun c Hc => idtac).
  assert (im0 = im) as ->.
  { pose proof (lookup_lt_Some _ _ _ Hp2) as Hlt2. cbn [heap] in Hc1.
    rewrite list_lookup_insert_ne in Hc1 by lia.
    rewrite lookup_app_l in Hc1 by done. congruence. }
  clear Hc1 Hc0 Hlt.
  wp_load_typed ltac:(fun c Hc => idtac).
  apply wp_bind, wp_trace; cbn beta iota.
  apply wp_bind, wp_lift.
  match goal with |- context [EvSample ?sh ?ys ?xs] => set (e := EvSample sh ys xs) end.
  assert (in_bounds im e) as He.
  { unfold valid_shape in Hv. apply andb_prop in Hv as [Hh Hw].
    apply Nat.ltb_lt in Hh. apply Nat.eqb_eq in Hw.
    split; [done|]. split; apply Forall_map, Forall_true; intros p;
      apply Z.mod_pos_bound; lia. }
  assert (exists evs, log s2 ++ [e] = log s2 ++ evs /\ Forall (in_bounds im) evs) as Hdone.
  { exists [e]. split; [done|]. by constructor. }
  destruct (getitem _ _ _ _) as [px|err]; [|exact Hdone].
  apply wp_bind, wp_alloc. apply wp_ret. exact Hdone.
Qed.

(** ** Face numbers *)

Lemma get_rotation_Ok face_no r : get_rotation face_no = Ok r -> 0 <= face_no <= 11.
Proof.
  unfold get_rotation.
  destruct (face_no =? 0) eqn:E0; [apply Z.eqb_eq in E0; lia|].
  destruct (face_no =? 11) eqn:E11; [apply Z.eqb_eq in E11; lia|].
  destruct (0 <? face_no) eqn:E1, (face_no <? 6) eqn:E2;
    destruct (6 <=? face_no) eqn:E3, (face_no <? 11) eqn:E4; simpl; try discriminate; lia.
Qed.

Lemma norm_index_out n i :
  i < - Z.of_nat n \/ Z.of_nat n <= i -> norm_index n i = Err IndexError.
Proof.
  intros Hi. unfold norm_index.
  destruct (0 <=? i) eqn:E1, (i <? Z.of_nat n) eqn:E2;
    destruct (- Z.of_nat n <=? i) eqn:E3, (i <? 0) eqn:E4; simpl; try reflexivity; lia.
Qed.

Lemma index_row_out {A} (rows : list A) i :
  i < - Z.of_nat (length rows) \/ Z.of_nat (length rows) <= i ->
  index_row rows i = Err IndexError.
Proof. intros Hi. unfold index_row. by rewrite norm_index_out. Qed.

Lemma get_face_xyz_Ok self face_no st p st' :
  get_face_xyz L self face_no st = (Ok p, st') -> 0 <= face_no <= 11.
Proof.
  intros H. unfold get_face_xyz in H.
  apply bind_Ok in H as (tbl & s1 & _ & H).
  apply bind_Ok in H as (face & s2 & _ & H).
  apply bind_Ok in H as (verts & s3 & _ & H).
  apply bind_Ok in H as (vertex_xyz & s4 & _ & H).
  apply bind_Ok in H as (xyz & s5 & _ & H).
  apply bind_Ok in H as (rows & s6 & _ & H).
  apply bind_Ok in H as ([] & s7 & _ & H).
  apply bind_Ok in H as (rows' & s8 & _ & H).
  apply bind_Ok in H as ([] & s9 & _ & H).
  apply bind_Ok in H as (z & s10 & Hr & _).
  apply lift_Ok in Hr as [Hr _]. by apply get_rotation_Ok in Hr.
Qed.

Lemma get_face_rgb_Ok self face_no eq_image rotation_offset st p st' :
  get_face_rgb L self face_no eq_image rotation_offset st = (Ok p, st') ->
  0 <= face_no <= 11.
Proof.
  intros H. unfold get_face_rgb in H.
  apply bind_Ok in H as ([] & s1 & _ & H).
  apply bind_Ok in H as (xyz & s2 & Hx & _).
  by apply get_face_xyz_Ok in Hx.
Qed.

Lemma get_face_image_Ok self face_no eq_image rotation_offset st p st' :
  get_face_image L self face_no eq_image rotation_offset st = (Ok p, st') ->
  0 <= face_no <= 11.
Proof.
  intros H. unfold get_face_image in H.
  apply bind_Ok in H as ([] & s1 & _ & H).
  apply bind_Ok in H as (colors & s2 & Hx & _).
  by apply get_face_rgb_Ok in Hx.
Qed.

Lemma fails_of_not_Ok {A} (r : Result A * State) :
  (forall a st', r = (Ok a, st') -> False) -> exists e, r.1 = Err e.
Proof. destruct r as [[a|e] st']; [intros H; by destruct (H a st')|by exists e]. Qed.

Lemma get_face_xyz_out self face_no tbl st :
  heap st !! faces self = Some (NdI tbl) ->
  face_no < - Z.of_nat (length tbl) \/ Z.of_nat (length tbl) <= face_no ->
  get_face_xyz L self face_no st = (Err IndexError, st).
Proof.
  intros Ht Hf. unfold get_face_xyz.
  assert (load_I (faces self) st = (Ok tbl, st)) as Hl.
  { unfold load_I, bind, load. by rewrite Ht. }
  rewrite (bind_run _ _ _ _ _ Hl). apply bind_Err.
  by rewrite index_row_out.
Qed.

End Properties.

(** * A run: resolution 10 on a 2 x 4 panorama

    The library calls are those of [Reference].  The store holds the
    panorama at reference 0 before the sampler is constructed. *)

Import DodecahedralSampler Calls.

Definition demo_pano : image rgb :=
  Image 2 4 [ [ (1, 2, 3); (4, 5, 6); (7, 8, 9); (10, 11, 12) ];
              [ (13, 14, 15); (16, 17, 18); (19, 20, 21); (22, 23, 24) ] ].

Definition demo_start : State := mkState [NdPano demo_pano] [].

Definition no_sampler : Sampler := mkSampler 0 0 0 0 0 0 0 0 0 0%nat 0%nat.

(** The sampler [DodecahedralSampler(10)] and the store after its
    construction. *)
Definition demo_self : Sampler :=
  Eval vm_compute in
    match (init Reference.library 10 demo_start).1 with Ok s => s | Err _ => no_sampler end.

Definition demo_state : State :=
  Eval vm_compute in (init Reference.library 10 demo_start).2.

(** A second sampler of the same resolution, constructed in another store:
    the panorama is at reference 1 there. *)
Definition demo_start' : State := mkState [NdI [[7]]; NdPano demo_pano] [].

Definition demo_self' : Sampler :=
  Eval vm_compute in
    match (init Reference.library 10 demo_start').1 with Ok s => s | Err _ => no_sampler end.

Definition demo_state' : State :=
  Eval vm_compute in (init Reference.library 10 demo_start').2.

(** A panorama of three columns on two rows: not a 2:1 grid. *)
Definition demo_bad_pano : image rgb :=
  Image 2 3 [ [ (1, 2, 3); (4, 5, 6); (7, 8, 9) ];
              [ (13, 14, 15); (16, 17, 18); (19, 20, 21) ] ].

Definition demo_bad_state : State := mkState [NdPano demo_bad_pano] [].

Local Abbreviation demo_unwrap :=
  (unwrap Reference.library demo_self 0%nat 0.25 demo_state).
Local Abbreviation demo_a4 :=
  (a4_optimised_unwrap Reference.library demo_self 0%nat 0.25 demo_state).

Lemma run_eq {A} (r : Result A * State) (a : A) : r.1 = Ok a -> r = (Ok a, r.2).
Proof. destruct r as [r st]. simpl. by intros ->. Qed.

Lemma demo_init_run : init Reference.library 10 demo_start = (Ok demo_self, demo_state).
Proof. vm_compute. reflexivity. Qed.

(** The constructor at resolution 10 leaves the face table of C6 in the store. *)
Lemma C6_face_table_witness :
  init Reference.library 10 demo_start = (Ok demo_self, demo_state) /\
  heap demo_state !! faces demo_self = Some (NdI FACES) /\
  length FACES = 12%nat.
Proof.
  assert (init Reference.library 10 demo_start = (Ok demo_self, demo_state)) as H
    by (vm_compute; reflexivity).
  split; [exact H|].
  destruct (C6_face_table Reference.library 10 demo_start demo_state demo_self H)
    as (Hf & Hl & _).
  split; [exact Hf | exact Hl].
Defined.

(** [unwrap] at resolution 10: the canvas has 39 rows and 81 columns. *)
Lemma C5_unwrap_canvas_shape_witness :
  demo_unwrap.1 = Ok 87%nat /\
  exists im,
    heap demo_unwrap.2 !! 87%nat = Some (NdRGBA im) /\
    py_int (float_of_int (2 * pentagon_h demo_self) + h demo_self)%float
      = Ok (Z.of_nat (im_h im)) /\
    py_int (float_of_int (3 * (pentagon_l demo_self + resolution demo_self))
            + l demo_self)%float = Ok (Z.of_nat (im_w im)).
Proof.
  assert (demo_unwrap.1 = Ok 87%nat) as H by (vm_compute; reflexivity).
  split; [exact H|].
  apply (C5_unwrap_canvas_shape Reference.library demo_self 0%nat 0.25 demo_state).
  exact (run_eq demo_unwrap _ H).
Defined.





(** Two samplers of resolution 10, each in its own store, asked for face 3
    of the same panorama. *)
Lemma C7_deterministic_witness :
  outcome (exec Reference.library demo_self (GetFaceImage 3 0%nat 0.25) demo_state)
  = outcome (exec Reference.library demo_self' (GetFaceImage 3 1%nat 0.25) demo_state') /\
  forall cs : list call,
    outcome (exec Reference.library demo_self (GetFaceImage 3 0%nat 0.25)
               (run_calls Reference.library demo_self cs
                  (exec Reference.library demo_self (GetFaceImage 3 0%nat 0.25) demo_state).2))
    = outcome (exec Reference.library demo_self (GetFaceImage 3 0%nat 0.25) demo_state).
Proof.
  apply (C7_deterministic Reference.library demo_self demo_self'
           (GetFaceImage 3 0%nat 0.25) (GetFaceImage 3 1%nat 0.25) demo_state demo_state').
  - repeat split; try reflexivity; eexists; split; vm_compute; reflexivity.
  - repeat split. exists (NdPano demo_pano). split; reflexivity.
Defined.

(** A 2 x 3 panorama is refused by all five operations. *)
Lemma C3_invalid_shape_witness :
  get_face_rgb Reference.library demo_self 3 0%nat 0.25 demo_bad_state
    = (Err ShapeValidationError, demo_bad_state) /\
  get_face_image Reference.library demo_self 3 0%nat 0.25 demo_bad_state
    = (Err ShapeValidationError, demo_bad_state) /\
  unwrap Reference.library demo_self 0%nat 0.25 demo_bad_state
    = (Err ShapeValidationError, demo_bad_state) /\
  half_unwrap Reference.library demo_self 0%nat 0.25 demo_bad_state
    = (Err ShapeValidationError, demo_bad_state) /\
  a4_optimised_unwrap Reference.library demo_self 0%nat 0.25 demo_bad_state
    = (Err ShapeValidationError, demo_bad_state).
Proof.
  apply (C3_invalid_shape_fails_first Reference.library demo_self 3 0%nat 0.25
           demo_bad_pano demo_bad_state); reflexivity.
Defined.

(** Face 3 of the 2 x 4 panorama: one read, all of its indices in range. *)
Lemma C4_sampling_in_bounds_witness :
  exists evs,
    log (get_face_rgb Reference.library demo_self 3 0%nat 0.25 demo_state).2
      = log demo_state ++ evs /\
    Forall (in_bounds demo_pano) evs.
Proof.
  apply (C4_sampling_in_bounds Reference.library demo_self 3 0%nat 0.25
           demo_pano demo_state); reflexivity.
Defined.

(** Face -1: the table lookup takes it for the last face, and
    [get_rotation] then has no branch for it. *)
Lemma C2_negative_face_counterexample :
  (get_face_xyz Reference.library demo_self (-1) demo_state).1 = Err UnboundLocalError /\
  (get_face_rgb Reference.library demo_self (-1) 0%nat 0.25 demo_state).1
    = Err UnboundLocalError /\
  (get_face_image Reference.library demo_self (-1) 0%nat 0.25 demo_state).1
    = Err UnboundLocalError.
Proof. repeat split; vm_compute; reflexivity. Qed.

(** * More of the class *)

(** The property [edge_length]:
    [np.sqrt(np.sum((self.vertices[0] - self.vertices[1]) ** 2))].  The sum of
    NumPy is a parameter, as the functions of [Library] are. *)
Definition edge_length (L : Library) (np_sum : list float -> float) (self : Sampler)
    : M float :=
  verts <- load_F (vertices self) ;;
  v0 <- lift (index_row verts 0) ;;
  v1 <- lift (index_row verts 1) ;;
  ret (PrimFloat.sqrt
         (np_sum (map (fun d => np_power L d 2) (zip_with PrimFloat.sub v0 v1)))).

Section MoreProperties.
Context (L : Library).

Local Abbreviation fl := float_of_int.

(** ** [get_rotation] *)

(** X1.  [get_rotation] has a value for the faces 0..11 and for no other
    number: outside, no branch assigns [rotation_offset] and the [return]
    raises [UnboundLocalError]. *)
Theorem get_rotation_domain (face_no : Z) :
  (0 <= face_no <= 11 -> exists r, get_rotation face_no = Ok r) /\
  (~ (0 <= face_no <= 11) -> get_rotation face_no = Err UnboundLocalError).
Proof.
  unfold get_rotation.
  destruct (face_no =? 0) eqn:E0; [apply Z.eqb_eq in E0; split; [eauto | lia]|].
  destruct (face_no =? 11) eqn:E11; [apply Z.eqb_eq in E11; split; [eauto | lia]|].
  apply Z.eqb_neq in E0, E11.
  destruct (0 <? face_no) eqn:E1, (face_no <? 6) eqn:E2;
    destruct (6 <=? face_no) eqn:E3, (face_no <? 11) eqn:E4; simpl;
    split; intros; eauto; lia.
Qed.

(** ** The tables of the constructor *)

Lemma take_rows_Ok {A} (rows : list A) (idx : list Z) :
  Forall (fun i => 0 <= i < Z.of_nat (length rows)) idx ->
  exists rs, take_rows rows idx = Ok rs /\ length rs = length idx.
Proof.
  induction 1 as [|i idx Hi _ (rs & IH & Hlen)]; simpl; [by exists []|].
  unfold index_row, norm_index.
  destruct (0 <=? i) eqn:E1; [|lia]. destruct (i <? Z.of_nat (length rows)) eqn:E2; [|lia].
  simpl. destruct (rows !! Z.to_nat i) as [r|] eqn:Er.
  - simpl. rewrite IH. simpl. exists (r :: rs). by rewrite <- Hlen.
  - apply lookup_ge_None in Er. lia.
Qed.

Lemma index_row_elem {A} (rows : list A) (i : Z) (r : A) :
  index_row rows i = Ok r -> r ∈ rows.
Proof.
  unfold index_row. destruct (norm_index _ _) as [k|]; simpl; [|discriminate].
  destruct (rows !! k) as [r'|] eqn:E; [|discriminate].
  intros [= <-]. by eapply list_elem_of_lookup_2.
Qed.

Lemma index_row_lookup {A} (rows : list A) (i : Z) (r : A) :
  0 <= i -> rows !! Z.to_nat i = Some r -> index_row rows i = Ok r.
Proof.
  intros Hi Hr. pose proof (lookup_lt_Some _ _ _ Hr) as Hlt.
  unfold index_row, norm_index.
  destruct (0 <=? i) eqn:E1; [|lia]. destruct (i <? Z.of_nat (length rows)) eqn:E2; [|lia].
  simpl. by rewrite Hr.
Qed.

Lemma FACES_range : Forall (Forall (fun v => 0 <= v < 20)) FACES.
Proof. unfold FACES. repeat constructor; lia. Qed.

Lemma get_vertices_Ok unit_edge radius st vs st' :
  get_vertices L unit_edge radius st = (Ok vs, st') ->
  vs = length (heap st) /\
  exists verts, heap st' = heap st ++ [NdF verts] /\ length verts = 20%nat /\ log st' = log st.
Proof.
  intros H. unfold get_vertices in H.
  apply bind_Ok in H as (p & s1 & Ha & H). apply alloc_Ok in Ha as (-> & Hh1 & Hl1).
  apply bind_Ok in H as (rows & s2 & H1 & H). apply load_F_Ok in H1 as [Hr ->].
  apply bind_Ok in H as ([] & s2 & H1 & H). apply store_Ok in H1 as (_ & Hh2 & Hl2).
  apply bind_Ok in H as (rows' & s3 & H1 & H). apply load_F_Ok in H1 as [Hr' ->].
  apply bind_Ok in H as ([] & s3 & H1 & H). apply store_Ok in H1 as (_ & Hh3 & Hl3).
  apply ret_Ok in H as [-> ->]. split; [done|].
  rewrite Hh1, list_lookup_middle in Hr by done. injection Hr as <-.
  rewrite Hh2, Hh1, list_lookup_insert_eq in Hr' by (rewrite length_app; simpl; lia).
  injection Hr' as <-.
  eexists. split; [|split].
  - rewrite Hh3, Hh2, Hh1, list_insert_insert_eq.
    rewrite insert_app_r_alt by done. by rewrite Nat.sub_diag.
  - rewrite !length_map. reflexivity.
  - congruence.
Qed.

(** X2.  The constructor appends two arrays to the store, the face table
    and then the vertex table, and changes nothing else.  The vertex table
    has 20 rows, so that [self.vertices[self.faces[f]]] is defined, with five
    rows, for every face number [f] the face table accepts. *)
Theorem init_tables (res : Z) (st st' : State) (self : Sampler) :
  init L res st = (Ok self, st') ->
  exists verts,
    heap st' = heap st ++ [NdI FACES; NdF verts] /\ log st' = log st /\
    faces self = length (heap st) /\ vertices self = S (length (heap st)) /\
    length verts = 20%nat /\
    forall f face, index_row FACES f = Ok face ->
      exists vertex_xyz, take_rows verts face = Ok vertex_xyz /\ length vertex_xyz = 5%nat.
Proof.
  intros H. unfold init in H.
  apply bind_Ok in H as (pl & s1 & H1 & H). apply lift_Ok in H1 as [_ ->].
  apply bind_Ok in H as (ph & s1 & H1 & H). apply lift_Ok in H1 as [_ ->].
  apply bind_Ok in H as (cr & s1 & H1 & H). apply lift_Ok in H1 as [_ ->].
  apply bind_Ok in H as (fs & s1 & Ha & H). apply alloc_Ok in Ha as (-> & Hh1 & Hl1).
  apply bind_Ok in H as (vs & s2 & Hv & H).
  apply get_vertices_Ok in Hv as (-> & verts & Hh2 & Hlen & Hl2).
  apply ret_Ok in H as [-> ->]. exists verts. cbn [faces vertices].
  split; [by rewrite Hh2, Hh1, <- app_assoc|].
  split; [congruence|]. split; [done|].
  split; [rewrite Hh1, length_app; simpl; lia|]. split; [done|].
  intros f face Hf. apply index_row_elem in Hf.
  pose proof FACES_range as Hr. rewrite Forall_forall in Hr. specialize (Hr _ Hf).
  destruct (take_rows_Ok verts face) as (rs & Hrs & Hl).
  { rewrite Hlen. exact Hr. }
  exists rs. split; [done|]. rewrite Hl.
  revert Hf. unfold FACES. rewrite !elem_of_cons, elem_of_nil.
  intros [->|[->|[->|[->|[->|[->|[->|[->|[->|[->|[->|[->|[]]]]]]]]]]]]]; reflexivity.
Qed.

(** ** [edge_length] *)

(** X3.  On a constructed sampler [edge_length] has a value, also after any
    number of calls of the other methods, and it leaves the store as it
    was: the vertices 0 and 1 it reads are there and no method changes
    them. *)
Theorem edge_length_defined (np_sum : list float -> float) (res : Z) (st st' : State)
    (self : Sampler) (cs : list call) :
  init L res st = (Ok self, st') ->
  exists e, edge_length L np_sum self (run_calls L self cs st')
            = (Ok e, run_calls L self cs st').
Proof.
  intros H. apply init_tables in H as (verts & Hh & _ & _ & Hv & Hlen & _).
  destruct (run_calls_extends L self cs st') as [ext Hext].
  assert (heap (run_calls L self cs st') !! vertices self = Some (NdF verts)) as Hlook.
  { rewrite Hext, Hh, Hv. apply lookup_app_l_Some.
    change [NdI FACES; NdF verts] with ([NdI FACES] ++ [NdF verts]).
    rewrite app_assoc. apply list_lookup_middle. rewrite length_app. simpl. lia. }
  destruct verts as [|v0 [|v1 verts]]; [discriminate..|].
  assert (load_F (vertices self) (run_calls L self cs st')
          = (Ok (v0 :: v1 :: verts), run_calls L self cs st')) as Hl.
  { unfold load_F, bind, load. by rewrite Hlook. }
  eexists. unfold edge_length. rewrite (bind_run _ _ _ _ _ Hl).
  rewrite (index_row_lookup _ 0 v0), (index_row_lookup _ 1 v1) by done.
  reflexivity.
Qed.

(** ** Sizes that are not sizes *)

(** X4.  Nothing checks the resolution.  When the constructor was given
    one for which [pentagon_h] or [pentagon_l] is negative, the sampler is
    constructed, and [get_pentagon_coords] then raises [ValueError] (from
    [np.zeros]) before it allocates anything. *)
Theorem get_pentagon_coords_negative (self : Sampler) (b : Z)
    (is_up center normalize homogeneous : bool) (st : State) :
  pentagon_h self < 0 \/ pentagon_l self < 0 ->
  get_pentagon_coords L self b is_up center normalize homogeneous st = (Err ValueError, st).
Proof.
  intros Hneg. unfold get_pentagon_coords. apply bind_Err.
  unfold lift, np_zeros.
  destruct (pentagon_h self <? 0) eqn:E1; [done|].
  destruct (pentagon_l self <? 0) eqn:E2; [done|]. lia.
Qed.

End MoreProperties.

(** ** The rasterised pentagon *)

Lemma argwhere_row_elem i j row r :
  r ∈ argwhere_row i j row <->
  exists k : nat, r = [j + Z.of_nat k; i] /\ row !! k = Some 1.
Proof.
  revert j. induction row as [|v row IH]; intros j; simpl.
  - split; [by intros ?%elem_of_nil | by intros (k & _ & ?)].
  - rewrite elem_of_app, IH. split.
    + intros [Hin|(k & -> & Hk)].
      * destruct (v =? 1) eqn:E; [|by apply elem_of_nil in Hin].
        apply Z.eqb_eq in E. apply list_elem_of_singleton in Hin.
        exists 0%nat. split; [by rewrite Hin, Z.add_0_r | by rewrite E].
      * exists (S k). split; [f_equal; lia | done].
    + intros ([|k] & -> & Hk).
      * left. injection Hk as ->. rewrite Z.add_0_r. simpl. apply list_elem_of_singleton. done.
      * right. exists k. split; [f_equal; lia | done].
Qed.

Lemma argwhere_row_NoDup i j row : NoDup (argwhere_row i j row).
Proof.
  revert j. induction row as [|v row IH]; intros j; simpl; [constructor|].
  apply NoDup_app. split; [|split; [|apply IH]].
  - destruct (v =? 1); [apply NoDup_singleton | constructor].
  - intros r Hr. destruct (v =? 1); [|by apply elem_of_nil in Hr].
    apply list_elem_of_singleton in Hr as ->.
    rewrite argwhere_row_elem. intros (k & [= Hk] & _). lia.
Qed.

Lemma argwhere_rows_elem i rows r :
  r ∈ argwhere_rows i rows <->
  exists (k : nat) row, rows !! k = Some row /\ r ∈ argwhere_row (i + Z.of_nat k) 0 row.
Proof.
  revert i. induction rows as [|row rows IH]; intros i; simpl.
  - split; [by intros ?%elem_of_nil | by intros (k & ? & ? & _)].
  - rewrite elem_of_app, IH. split.
    + intros [Hin|(k & row' & Hk & Hin)].
      * exists 0%nat, row. by rewrite Z.add_0_r.
      * exists (S k), row'. split; [done|].
        by replace (i + Z.of_nat (S k)) with (i + 1 + Z.of_nat k) by lia.
    + intros ([|k] & row' & Hk & Hin).
      * left. injection Hk as ->. by rewrite Z.add_0_r in Hin.
      * right. exists k, row'. split; [done|].
        by replace (i + 1 + Z.of_nat k) with (i + Z.of_nat (S k)) by lia.
Qed.

Lemma argwhere_rows_NoDup i rows : NoDup (argwhere_rows i rows).
Proof.
  revert i. induction rows as [|row rows IH]; intros i; simpl; [constructor|].
  apply NoDup_app. split; [apply argwhere_row_NoDup|]. split; [|apply IH].
  intros r Hr. apply argwhere_row_elem in Hr as (k & -> & _).
  rewrite argwhere_rows_elem. intros (k' & row' & _ & Hin).
  apply argwhere_row_elem in Hin as (k'' & [= _ Hi] & _). lia.
Qed.

Lemma draw_row_lookup inside j row (k : nat) :
  draw_row inside j row !! k
  = (fun v => if inside (j + Z.of_nat k) then 1 else v) <$> row !! k.
Proof.
  revert j k. induction row as [|v row IH]; intros j [|k]; simpl; try done.
  - by rewrite Z.add_0_r.
  - rewrite IH. by replace (j + 1 + Z.of_nat k) with (j + Z.of_nat (S k)) by lia.
Qed.

Lemma draw_rows_lookup inside i rows (k : nat) :
  draw_rows inside i rows !! k
  = (fun r => draw_row (fun j => inside j (i + Z.of_nat k)) 0 r) <$> rows !! k.
Proof.
  revert i k. induction rows as [|r rows IH]; intros i [|k]; simpl; try done.
  - by rewrite Z.add_0_r.
  - rewrite IH. by replace (i + 1 + Z.of_nat k) with (i + Z.of_nat (S k)) by lia.
Qed.

(** The coordinates read off a zero canvas of [hh] rows and [ww] columns on
    which a shape was filled with 1. *)
Lemma argwhere_filled inside (hh ww : nat) r :
  r ∈ argwhere_rows 0 (draw_rows inside 0 (replicate hh (replicate ww 0))) <->
  exists x y, r = [x; y] /\ 0 <= x < Z.of_nat ww /\ 0 <= y < Z.of_nat hh /\
              inside x y = true.
Proof.
  rewrite argwhere_rows_elem. split.
  - intros (k & row & Hk & Hin).
    rewrite draw_rows_lookup in Hk.
    destruct (replicate hh (replicate ww 0) !! k) as [row0|] eqn:E; [|discriminate].
    apply lookup_replicate in E as [-> Hkh]. injection Hk as <-.
    apply argwhere_row_elem in Hin as (k' & -> & Hk').
    rewrite draw_row_lookup in Hk'.
    destruct (replicate ww 0 !! k') as [v|] eqn:E'; [|discriminate].
    apply lookup_replicate in E' as [-> Hkw]. simpl in Hk'.
    exists (Z.of_nat k'), (Z.of_nat k). repeat split; try lia.
    rewrite !Z.add_0_l in Hk'. by destruct (inside _ _).
  - intros (x & y & -> & Hx & Hy & Hin).
    exists (Z.to_nat y), (draw_row (fun j => inside j y) 0 (replicate ww 0)). split.
    + rewrite draw_rows_lookup, lookup_replicate_2 by lia. simpl.
      by rewrite Z.add_0_l, Z2Nat.id by lia.
    + apply argwhere_row_elem. exists (Z.to_nat x).
      rewrite !Z.add_0_l, !Z2Nat.id by lia. split; [done|].
      rewrite draw_row_lookup, lookup_replicate_2 by lia. simpl.
      by rewrite Z.add_0_l, Z2Nat.id, Hin by lia.
Qed.

(** The contour [get_pentagon_coords] fills: [pentagon[int(is_up)]]. *)
Definition contour (self : Sampler) (is_up : bool) : list (Z * Z) :=
  nth (if is_up then 1 else 0)%nat (pentagon self) [].

Section Raster.
Context (L : Library) (self : Sampler).

(** X5.  Without centring, normalising and the homogeneous axis,
    [get_pentagon_coords] returns each pixel of the [pentagon_h] by
    [pentagon_l] canvas that the filled contour covers, once, as [[x; y]],
    and nothing else: every coordinate it returns indexes the canvas. *)
Theorem get_pentagon_coords_raw (b : Z) (is_up : bool) (st st' : State) (p : loc) :
  get_pentagon_coords L self b is_up false false false st = (Ok p, st') ->
  exists rows,
    heap st' !! p = Some (NdI rows) /\ NoDup rows /\
    forall r, r ∈ rows <->
      exists x y, r = [x; y] /\ 0 <= x < pentagon_l self /\ 0 <= y < pentagon_h self /\
                  cv2_filled L (contour self is_up) x y = true.
Proof.
  intros H. unfold get_pentagon_coords, cv2_drawContours in H.
  apply bind_Ok in H as (zeros & s1 & H1 & H). apply lift_Ok in H1 as [Hz ->].
  apply bind_Ok in H as (canvas & s1 & Ha & H).
  apply alloc_Ok in Ha as (-> & Hheap1 & _).
  apply bind_Ok in H as ([] & s2 & Hd & H).
  apply bind_Ok in Hd as (m & t & Hd1 & Hd). apply load_Mask_Ok in Hd1 as [Hm ->].
  apply bind_Ok in Hd as (ct & t & Hd1 & Hd). apply lift_Ok in Hd1 as [Hct ->].
  apply store_Ok in Hd as (Hlt & Hheap2 & _).
  rewrite Hheap1, list_lookup_middle in Hm by done. injection Hm as <-.
  apply bind_Ok in H as (m & s3 & H1 & H). apply load_Mask_Ok in H1 as [Hm ->].
  rewrite Hheap2, list_lookup_insert_eq in Hm by done. injection Hm as <-.
  apply bind_Ok in H as (coords & s3 & Ha & H).
  apply alloc_Ok in Ha as (-> & Hheap3 & _).
  apply bind_Ok in H as ([] & s4 & H1 & H). apply ret_Ok in H1 as [_ ->].
  apply bind_Ok in H as (c1 & s4 & H1 & H). apply ret_Ok in H1 as [-> ->].
  apply bind_Ok in H as (c2 & s4 & H1 & H). apply ret_Ok in H1 as [-> ->].
  apply ret_Ok in H as [-> ->].
  eexists. split; [rewrite Hheap3; by apply list_lookup_middle|].
  unfold argwhere_eq1_rev; cbn [im_px].
  split; [apply argwhere_rows_NoDup|].
  assert (ct = contour self is_up) as ->.
  { unfold contour. by destruct is_up; injection Hct as <-. }
  unfold np_zeros in Hz. destruct (_ || _) eqn:E; [discriminate|].
  apply orb_false_iff in E as [E1 E2]. apply Z.ltb_ge in E1, E2.
  injection Hz as <-. cbn [im_px].
  intros r. rewrite argwhere_filled, !Z2Nat.id by done. done.
Qed.

End Raster.

(** ** The canvases *)

Lemma check_Ok p st st' : check_eq_image_shape p st = (Ok tt, st') -> st' = st.
Proof.
  intros H. unfold check_eq_image_shape in H.
  apply bind_Ok in H as (im & s1 & H1 & H). apply load_Pano_Ok in H1 as [_ ->].
  destruct (valid_shape im); [by apply ret_Ok in H as [_ ->] | discriminate H].
Qed.

Lemma shifted_0 k xy : shifted k xy 0 = column k xy.
Proof.
  unfold shifted. rewrite <- (map_id (column k xy)) at 2.
  apply map_ext. intros. apply Z.add_0_r.
Qed.

Section Canvases.
Context (L : Library) (self : Sampler).

Local Abbreviation fl := float_of_int.

(** X6.  [get_face_image] returns a new canvas of [pentagon_h] rows and
    [pentagon_l] columns whose alpha is 255 on the pixels it wrote and 0 on
    all others. *)
Theorem get_face_image_canvas (face_no : Z) (eq_image : loc) (rotation_offset : float)
    (st st' : State) (c : loc) :
  get_face_image L self face_no eq_image rotation_offset st = (Ok c, st') ->
  (length (heap st) <= c)%nat /\
  (exists im, heap st' !! c = Some (NdRGBA im) /\
              Z.of_nat (im_h im) = pentagon_h self /\
              Z.of_nat (im_w im) = pentagon_l self) /\
  opaque_where_written c st st'.
Proof.
  intros H. unfold get_face_image in H.
  apply bind_Ok in H as ([] & s1 & Hcheck & H). apply check_Ok in Hcheck as ->.
  apply bind_Ok in H as (colors & s2 & Hrgb & H).
  destruct (extends_run _ _ _ _ (get_face_rgb_extends L self _ _ _) Hrgb) as [e1 He1].
  destruct (logs_run 0 is_sample _ _ _ _ _ (get_face_rgb_logs L self 0 _ _ _)
              (Nat.le_0_l _) Hrgb) as [(evs1 & Hl1 & Hs1) _].
  apply bind_Ok in H as (tbl & s3 & H1 & H). apply load_I_Ok in H1 as [_ ->].
  apply bind_Ok in H as (face & s3 & H1 & H). apply lift_Ok in H1 as [_ ->].
  apply bind_Ok in H as (verts & s3 & H1 & H). apply load_F_Ok in H1 as [_ ->].
  apply bind_Ok in H as (vxyz & s3 & H1 & H). apply lift_Ok in H1 as [_ ->].
  apply bind_Ok in H as (xy & s3 & Hxy & H).
  destruct (extends_run _ _ _ _ (get_pentagon_coords_extends L self _ _ _ _ _) Hxy)
    as [e2 He2].
  destruct (logs_run 0 no_event _ _ _ _ _
              (get_pentagon_coords_logs L self 0 no_event _ _ _ _ _) (Nat.le_0_l _) Hxy)
    as [(evs2 & Hl2 & Hs2) _].
  assert (evs2 = []) as -> by (destruct Hs2 as [|? ? []]; done).
  rewrite app_nil_r in Hl2.
  apply bind_Ok in H as (zeros & s4 & H1 & H). apply lift_Ok in H1 as [Hz ->].
  apply bind_Ok in H as (canvas & s4 & Ha & H).
  assert (log s3 = log st ++ evs1) as Hl3 by congruence.
  destruct (canvas_inv_alloc (fun a => a = 255) _ _ _ _ _ _ _ _ Hz Ha Hl3
              (written_samples _ _ Hs1)) as (Hinv & Hh0 & Hw0).
  assert (length (heap st) <= canvas)%nat as Hfresh.
  { apply alloc_Ok in Ha as (-> & _ & _). rewrite He2, He1, !length_app. lia. }
  apply bind_Ok in H as (r1 & s5 & Hr1 & H).
  apply bind_Ok in H as ([] & s6 & Hbgr & H).
  apply bind_Ok in H as (r2 & s7 & Hr2 & H).
  apply bind_Ok in H as ([] & s8 & Halpha & H). apply ret_Ok in H as [-> ->].
  assert (put_face canvas xy 0 0 [colors] 0 s4 = (Ok tt, s8)) as Hput'.
  { unfold put_face. change (lift (index_row [colors] 0)) with (@ret loc colors).
    unfold bind at 1, ret at 1.
    rewrite (bind_run _ _ _ _ _ Hr1), !shifted_0, (bind_run _ _ _ _ _ Hbgr).
    rewrite (bind_run _ _ _ _ _ Hr2), !shifted_0. exact Halpha. }
  apply (put_face_inv _ _ _ _ _ _ _ _ _ _ _ _ Hput') in Hinv.
  split; [done|]. split.
  - destruct Hinv as (im & evs & Hc & _ & Eh & Ew & _). exists im.
    split; [done|]. rewrite Eh, Ew, !Z2Nat.id by done. done.
  - by eapply canvas_inv_opaque.
Qed.

(** X7.  The canvas of [a4_optimised_unwrap] has
    [int(2 * pentagon_h + h)] rows and
    [int(3 * (pentagon_l + scaled_edge_length) + l)] columns: the size of the
    canvas of [unwrap], not a smaller one. *)
Theorem a4_canvas_shape (eq_image : loc) (rotation_offset : float)
    (st st' : State) (c : loc) :
  a4_optimised_unwrap L self eq_image rotation_offset st = (Ok c, st') ->
  exists im,
    heap st' !! c = Some (NdRGBA im) /\
    py_int (fl (2 * pentagon_h self) + h self)%float = Ok (Z.of_nat (im_h im)) /\
    py_int (fl (3 * (pentagon_l self + scaled_edge_length self)) + l self)%float
      = Ok (Z.of_nat (im_w im)).
Proof.
  intros H. apply a4_optimised_unwrap_canvas in H as (hh & ww & Hh & Hw & H0 & H1 & Hinv).
  destruct Hinv as (im & evs & Hc & _ & Eh & Ew & _).
  exists im. split; [done|].
  rewrite Eh, Ew, !Z2Nat.id by done. done.
Qed.

End Canvases.

(** ** Sampling, once the geometry is there *)

Lemma wp_load_known p c (Q : Result ndarray -> State -> Prop) st :
  heap st !! p = Some c -> Q (Ok c) st -> wp (load p) Q st.
Proof. intros Hp Hq. unfold wp, load. by rewrite Hp. Qed.

Lemma wp_store_known p c (Q : Result unit -> State -> Prop) st :
  (p < length (heap st))%nat ->
  Q (Ok tt) (mkState (<[p := c]> (heap st)) (log st)) -> wp (store p c) Q st.
Proof. intros Hp Hq. apply wp_store; [done|]. intros []. done. Qed.

Lemma norm_index_in n i : 0 <= i < Z.of_nat n -> norm_index n i = Ok (Z.to_nat i).
Proof.
  intros Hi. unfold norm_index.
  destruct (0 <=? i) eqn:E1; [|lia]. destruct (i <? Z.of_nat n) eqn:E2; [|lia]. done.
Qed.

Lemma norm_indices_total hh ww ys xs :
  length ys = length xs ->
  Forall (fun y => 0 <= y < Z.of_nat hh) ys -> Forall (fun x => 0 <= x < Z.of_nat ww) xs ->
  exists idx, norm_indices hh ww ys xs = Ok idx /\ length idx = length ys.
Proof.
  revert xs. induction ys as [|y ys IH]; intros [|x xs] Hlen Hy Hx; try discriminate.
  - by exists [].
  - apply Forall_cons in Hy as [Hy Hys]. apply Forall_cons in Hx as [Hx Hxs].
    destruct (IH xs) as (idx & Hidx & Hl); [by injection Hlen|done..|].
    exists ((Z.to_nat y, Z.to_nat x) :: idx). simpl.
    rewrite !norm_index_in, Hidx by done. simpl. by rewrite Hl.
Qed.

Section Sampling.
Context (L : Library) (self : Sampler).

Lemma get_face_xyz_result face_no st xyz st' :
  get_face_xyz L self face_no st = (Ok xyz, st') ->
  exists rows, heap st' !! xyz = Some (NdF rows).
Proof.
  intros H. unfold get_face_xyz in H.
  apply bind_Ok in H as (tbl & s1 & _ & H).
  apply bind_Ok in H as (face & s2 & _ & H).
  apply bind_Ok in H as (verts & s3 & _ & H).
  apply bind_Ok in H as (vertex_xyz & s4 & _ & H).
  apply bind_Ok in H as (xyz0 & s5 & _ & H).
  apply bind_Ok in H as (rows & s6 & _ & H).
  apply bind_Ok in H as ([] & s7 & _ & H).
  apply bind_Ok in H as (rows' & s8 & _ & H).
  apply bind_Ok in H as ([] & s9 & _ & H).
  apply bind_Ok in H as (z & s10 & _ & H).
  apply bind_Ok in H as (rows'' & s11 & _ & H).
  apply bind_Ok in H as (p & s12 & Ha & H). apply alloc_Ok in Ha as (-> & Hh & _).
  apply ret_Ok in H as [-> ->]. eexists. rewrite Hh. by apply list_lookup_middle.
Qed.

(** What [get_face_rgb] does on a valid panorama once [get_face_xyz] has
    returned the rays [rows]. *)
Lemma get_face_rgb_run face_no eq_image rotation_offset im st xyz s2 rows :
  heap st !! eq_image = Some (NdPano im) -> valid_shape im = true ->
  get_face_xyz L self face_no st = (Ok xyz, s2) ->
  heap s2 !! xyz = Some (NdF rows) ->
  exists rgb_ st' px ys xs,
    get_face_rgb L self face_no eq_image rotation_offset st = (Ok rgb_, st') /\
    heap st' !! rgb_ = Some (NdRGB px) /\ length px = length rows /\
    (exists ext, heap st' = heap st ++ ext) /\
    log st' = log st ++ [EvSample (im_h im, im_w im) ys xs] /\
    in_bounds im (EvSample (im_h im, im_w im) ys xs) /\
    length ys = length rows /\ length xs = length rows.
Proof.
  intros Hp Hv Hx Hrows.
  set (Q := fun (r : Result loc) st' => exists rgb_ px ys xs,
    r = Ok rgb_ /\
    heap st' !! rgb_ = Some (NdRGB px) /\ length px = length rows /\
    (exists ext, heap st' = heap st ++ ext) /\
    log st' = log st ++ [EvSample (im_h im, im_w im) ys xs] /\
    in_bounds im (EvSample (im_h im, im_w im) ys xs) /\
    length ys = length rows /\ length xs = length rows).
  assert (wp (get_face_rgb L self face_no eq_image rotation_offset) Q st) as Hwp.
  2:{ unfold wp in Hwp.
      destruct (get_face_rgb L self face_no eq_image rotation_offset st) as [r st'].
      unfold Q in Hwp. cbn [fst snd] in Hwp.
      destruct Hwp as (rgb_ & px & ys & xs & -> & H). by exists rgb_, st', px, ys, xs. }
  destruct (extends_run _ _ _ _ (get_face_xyz_extends L self face_no) Hx) as [ext Hext].
  destruct (logs_run 0 no_event _ _ _ _ _
              (get_face_xyz_logs L self 0 no_event face_no) (Nat.le_0_l _) Hx)
    as [(evs0 & Hl0 & He0) _].
  assert (evs0 = []) as -> by (destruct He0 as [|? ? []]; done).
  rewrite app_nil_r in Hl0.
  assert (heap s2 !! eq_image = Some (NdPano im)) as Hp2.
  { rewrite Hext. by apply lookup_app_l_Some. }
  pose proof (lookup_lt_Some _ _ _ Hp2) as Hlt.
  unfold get_face_rgb. apply wp_bind.
  unfold wp at 1. rewrite (check_valid _ _ _ Hp Hv). cbn beta iota; simpl fst; simpl snd.
  apply wp_bind. unfold wp at 1. rewrite Hx. cbn beta iota; simpl fst; simpl snd.
  apply wp_bind. unfold load_F at 1. apply wp_bind.
  apply (wp_load_known _ _ _ _ Hrows). cbn beta iota. apply wp_ret. cbn beta iota.
  apply wp_bind, wp_alloc. cbn beta iota.
  match goal with |- context [NdFv ?v] => set (v0 := v) end.
  assert (length v0 = length rows) as Hv0 by (unfold v0; by rewrite !length_map).
  apply wp_bind. unfold load_Fv at 1. apply wp_bind.
  apply (wp_load_known _ (NdFv v0)); [cbn [heap]; by apply list_lookup_middle|].
  cbn beta iota. apply wp_ret. cbn beta iota.
  apply wp_bind. apply wp_store_known; [cbn [heap]; rewrite length_app; simpl; lia|].
  cbn beta iota. cbn [heap log].
  match goal with |- context [<[_ := NdFv ?v]> _] => set (v1 := v) end.
  assert (length v1 = length rows) as Hv1 by (unfold v1; by rewrite length_map).
  apply wp_bind. unfold load_Pano at 1. apply wp_bind.
  apply (wp_load_known _ (NdPano im)).
  { cbn [heap]. rewrite list_lookup_insert_ne by lia. by apply lookup_app_l_Some. }
  cbn beta iota. apply wp_ret. cbn beta iota.
  apply wp_bind. unfold load_Fv at 1. apply wp_bind.
  apply (wp_load_known _ (NdFv v1)).
  { cbn [heap]. apply list_lookup_insert_eq. rewrite length_app. simpl. lia. }
  cbn beta iota. apply wp_ret. cbn beta iota.
  match goal with |- context [EvSample ?sh ?ys ?xs] =>
    set (rows_idx := ys); set (cols_idx := xs) end.
  assert (length rows_idx = length rows /\ length cols_idx = length rows) as [Hly Hlx].
  { unfold rows_idx, cols_idx.
    rewrite !length_map, !length_zip_with, !length_map, Hv1. lia. }
  assert (in_bounds im (EvSample (im_h im, im_w im) rows_idx cols_idx)) as Hin.
  { unfold valid_shape in Hv. apply andb_prop in Hv as [Hh Hw].
    apply Nat.ltb_lt in Hh. apply Nat.eqb_eq in Hw.
    split; [done|]. split; apply Forall_map, Forall_true; intros q;
      apply Z.mod_pos_bound; lia. }
  destruct Hin as (Hsh & Hys & Hxs).
  destruct (norm_indices_total (im_h im) (im_w im) rows_idx cols_idx)
    as (idx & Hidx & Hlidx); [congruence|done..|].
  apply wp_bind, wp_trace. cbn beta iota.
  apply wp_bind, wp_lift. unfold getitem. unfold rgb in Hidx |- *. rewrite Hidx.
  cbn beta iota. simpl rbind.
  cbn beta iota.
  apply wp_bind, wp_alloc. cbn beta iota. apply wp_ret.
  eexists _, _, rows_idx, cols_idx. split; [reflexivity|]. cbn [heap log].
  split; [by apply list_lookup_middle|].
  split; [rewrite length_map; congruence|].
  split.
  { rewrite Hext. eexists (ext ++ [NdFv v1; _]).
    rewrite insert_app_r_alt, Nat.sub_diag by done. simpl.
    rewrite <- !app_assoc. reflexivity. }
  split; [by rewrite Hl0|]. done.
Qed.

(** X8.  On a valid panorama the sampling itself cannot fail: when
    [get_face_xyz] returns the rays of a face, [get_face_rgb] returns a new
    array with one colour for each ray, after one read of the panorama at
    indices that are all in range. *)
Theorem get_face_rgb_after_geometry (face_no : Z) (eq_image : loc)
    (rotation_offset : float) (im : image rgb) (st s2 : State) (xyz : loc) :
  heap st !! eq_image = Some (NdPano im) -> valid_shape im = true ->
  get_face_xyz L self face_no st = (Ok xyz, s2) ->
  exists rows rgb_ st' px ys xs,
    heap s2 !! xyz = Some (NdF rows) /\
    get_face_rgb L self face_no eq_image rotation_offset st = (Ok rgb_, st') /\
    heap st' !! rgb_ = Some (NdRGB px) /\ length px = length rows /\
    log st' = log st ++ [EvSample (im_h im, im_w im) ys xs] /\
    in_bounds im (EvSample (im_h im, im_w im) ys xs).
Proof.
  intros Hp Hv Hx. destruct (get_face_xyz_result _ _ _ _ Hx) as [rows Hrows].
  destruct (get_face_rgb_run face_no eq_image rotation_offset _ _ _ _ _ Hp Hv Hx Hrows)
    as (rgb_ & st' & px & ys & xs & H1 & H2 & H3 & _ & H4 & H5 & _).
  by exists rows, rgb_, st', px, ys, xs.
Qed.

End Sampling.

(** ** Every read of the panorama *)

(** An event that is no read outside the panorama [im]. *)
Definition read_ok (im : image rgb) (e : Event) : Prop :=
  match e with
  | EvSample _ _ _ => in_bounds im e
  | EvWrite _ _ => True
  end.

(** The panorama a call is given. *)
Definition panorama_of (c : call) : option loc :=
  match c with
  | GetFaceRgb _ p _ | GetFaceImage _ p _ | Unwrap p _ | HalfUnwrap p _
  | A4OptimisedUnwrap p _ => Some p
  | GetPentagonCoords _ _ _ _ _ | GetFaceXyz _ | RotateFaceRgb _ _ _ => None
  end.

Section Reads.
Context (L : Library) (self : Sampler) (im : image rgb).

Local Abbreviation fl := float_of_int.

(** The log of a run from [st] grew by events that are fine. *)
Definition reads_ok {A} (st : State) (r : Result A * State) : Prop :=
  exists evs, log r.2 = log st ++ evs /\ Forall (read_ok im) evs.

Lemma reads_ok_logs {A} (Q : A -> Prop) (m : M A) st :
  logs 0 (read_ok im) Q m -> reads_ok st (m st).
Proof. intros H. by destruct (H st (Nat.le_0_l _)) as (_ & ? & _). Qed.

Lemma reads_ok_bind {A B} (m : M A) (k : A -> M B) st :
  reads_ok st (m st) ->
  (forall a s, m st = (Ok a, s) -> reads_ok s (k a s)) ->
  reads_ok st (bind m k st).
Proof.
  intros (evs & Hl & He) Hk. unfold bind.
  destruct (m st) as [[a|e] s] eqn:E; simpl in *; [|by exists evs].
  destruct (Hk a s eq_refl) as (evs' & Hl' & He').
  exists (evs ++ evs'). rewrite Hl', Hl, app_assoc. split; [done|]. by apply Forall_app.
Qed.

Local Hint Resolve logs_load_F logs_load_Fv logs_load_I logs_load_Mask logs_load_RGB
  logs_load_Pano logs_load_RGBA : logs.

Lemma setitem_bgr_reads n c ys xs p :
  logs n (read_ok im) (fun _ => True) (setitem_bgr c ys xs p).
Proof. unfold setitem_bgr. logs_go. Qed.

Lemma setitem_alpha_reads n c ys xs a :
  logs n (read_ok im) (fun _ => True) (setitem_alpha c ys xs a).
Proof. unfold setitem_alpha. logs_go. Qed.

Lemma setitem_rgba_reads n c ys xs vals :
  logs n (read_ok im) (fun _ => True) (setitem_rgba c ys xs vals).
Proof. unfold setitem_rgba. logs_go. Qed.

Local Hint Resolve setitem_bgr_reads setitem_alpha_reads setitem_rgba_reads : logs.
Local Hint Resolve get_pentagon_coords_logs get_face_xyz_logs : logs.

Lemma put_face_reads n c xy oy ox cs face :
  logs n (read_ok im) (fun _ => True) (put_face c xy oy ox cs face).
Proof. unfold put_face. logs_go. Qed.

Lemma put_rotated_reads n c r xy top left oy ox :
  logs n (read_ok im) (fun _ => True) (put_rotated c r xy top left oy ox).
Proof. unfold put_rotated. logs_go. Qed.

Lemma rotate_face_rgb_reads n p deg up :
  logs n (read_ok im) (fun _ => True) (rotate_face_rgb L self p deg up).
Proof. unfold rotate_face_rgb. logs_go. Qed.

Lemma a4_rotate_face_rgb_reads n p deg up :
  logs n (read_ok im) (fun _ => True) (a4_rotate_face_rgb L self p deg up).
Proof. unfold a4_rotate_face_rgb. logs_go. Qed.

Local Hint Resolve put_face_reads put_rotated_reads rotate_face_rgb_reads
  a4_rotate_face_rgb_reads : logs.

Section OnePanorama.
Context (eq_image : loc) (Hv : valid_shape im = true).

Lemma get_face_rgb_reads face_no rotation_offset st :
  heap st !! eq_image = Some (NdPano im) ->
  reads_ok st (get_face_rgb L self face_no eq_image rotation_offset st).
Proof.
  intros Hp. destruct (get_face_xyz L self face_no st) as [[xyz|e] s2] eqn:Hx.
  - destruct (get_face_xyz_result _ _ _ _ _ _ Hx) as [rows Hrows].
    destruct (get_face_rgb_run L self face_no eq_image rotation_offset _ _ _ _ _
                Hp Hv Hx Hrows)
      as (rgb_ & st' & px & ys & xs & -> & _ & _ & _ & Hl & Hin & _).
    eexists. split; [exact Hl|]. by constructor.
  - destruct (logs_run 0 no_event _ _ _ _ _
                (get_face_xyz_logs L self 0 no_event face_no) (Nat.le_0_l _) Hx)
      as [(evs0 & Hl0 & He0) _].
    assert (evs0 = []) as -> by (destruct He0 as [|? ? []]; done).
    unfold get_face_rgb.
    rewrite (bind_run _ _ _ _ _ (check_valid _ _ _ Hp Hv)), (bind_Err _ _ _ _ _ Hx).
    by exists [].
Qed.

Lemma colors_reads rotation_offset faces_ st :
  heap st !! eq_image = Some (NdPano im) ->
  reads_ok st (map_m (fun i => get_face_rgb L self i eq_image rotation_offset) faces_ st).
Proof.
  revert st. induction faces_ as [|f fs IH]; intros st Hp; simpl.
  - exists []. by rewrite app_nil_r.
  - apply reads_ok_bind; [by apply get_face_rgb_reads|].
    intros y s Hy. apply reads_ok_bind.
    + apply IH.
      destruct (extends_run _ _ _ _ (get_face_rgb_extends L self f eq_image rotation_offset)
                  Hy) as [ext ->].
      by apply lookup_app_l_Some.
    + intros ys s' _. exists []. by rewrite app_nil_r.
Qed.

(** A layout: the shape check, the twelve faces, and then writes only. *)
Lemma layout_reads {A} rotation_offset (k : list loc -> M A) st :
  heap st !! eq_image = Some (NdPano im) ->
  (forall cs, logs 0 (read_ok im) (fun _ => True) (k cs)) ->
  reads_ok st
    ((check_eq_image_shape eq_image ;;;
      colors <- map_m (fun i => get_face_rgb L self i eq_image rotation_offset)
                  (py_range 12) ;;
      k colors) st).
Proof.
  intros Hp Hk. rewrite (bind_run _ _ _ _ _ (check_valid _ _ _ Hp Hv)).
  apply reads_ok_bind; [by apply colors_reads|].
  intros cs s _. by eapply reads_ok_logs.
Qed.

End OnePanorama.

Lemma reads_ok_exec {A} (m : M A) (f : A -> list loc) st :
  reads_ok st (m st) -> reads_ok st ((p <- m ;; ret (f p)) st).
Proof.
  intros H. apply reads_ok_bind; [done|]. intros a s _. exists []. by rewrite app_nil_r.
Qed.

(** X9.  Whatever method is called, with whatever arguments and on
    whatever panorama: every read of the panorama that the call makes, up to
    its return or its exception, is at rows in [0, height) and columns in
    [0, width). *)
Theorem calls_read_in_bounds (c : call) (eq_image : loc) (st : State) :
  heap st !! eq_image = Some (NdPano im) ->
  (forall p, panorama_of c = Some p -> p = eq_image) ->
  exists evs, log (exec L self c st).2 = log st ++ evs /\ Forall (read_ok im) evs.
Proof.
  intros Hp Hc. change (reads_ok st (exec L self c st)).
  assert (valid_shape im = false ->
          forall A (k : unit -> M A), reads_ok st (bind (check_eq_image_shape eq_image) k st))
    as Hbad.
  { intros Hv A k. rewrite (bind_Err _ _ _ _ _ (check_invalid _ _ _ Hp Hv)).
    exists []. by rewrite app_nil_r. }
  destruct c as [b up ce nm hm|f|f p rot|f p rot|p rot|p rot|p deg up|p rot];
    cbn [panorama_of] in Hc; try (rewrite (Hc p eq_refl); clear Hc p);
    cbn [exec]; apply reads_ok_exec.
  - eapply reads_ok_logs. apply get_pentagon_coords_logs.
  - eapply reads_ok_logs. apply get_face_xyz_logs.
  - destruct (valid_shape im) eqn:Hv; [by apply get_face_rgb_reads | by apply Hbad].
  - destruct (valid_shape im) eqn:Hv; [|by apply Hbad].
    unfold get_face_image.
    rewrite (bind_run _ _ _ _ _ (check_valid _ _ _ Hp Hv)).
    apply reads_ok_bind; [by apply get_face_rgb_reads|].
    intros cs s _. eapply reads_ok_logs. logs_go.
  - destruct (valid_shape im) eqn:Hv; [|by apply Hbad].
    unfold unwrap. apply layout_reads; [done..|].
    intros cs. logs_go.
  - destruct (valid_shape im) eqn:Hv; [|by apply Hbad].
    unfold half_unwrap. apply layout_reads; [done..|].
    intros cs. logs_go.
  - eapply reads_ok_logs. apply rotate_face_rgb_reads.
  - destruct (valid_shape im) eqn:Hv; [|by apply Hbad].
    unfold a4_optimised_unwrap. apply layout_reads; [done..|].
    intros cs. logs_go.
Qed.

End Reads.

Section TwoCanvases.
Context (L : Library) (self : Sampler).

Local Abbreviation fl := float_of_int.

(** X10.  [half_unwrap] returns two arrays that it allocated itself, one
    after the other (the upper canvas first), of one and the same shape:
    [int(2 * pentagon_h + h)] rows and [2 * pentagon_l + resolution]
    columns. *)
Theorem half_unwrap_canvases (eq_image : loc) (rotation_offset : float)
    (st st' : State) (lower upper : loc) :
  half_unwrap L self eq_image rotation_offset st = (Ok (lower, upper), st') ->
  (length (heap st) <= upper)%nat /\ lower = S upper /\
  exists im_lower im_upper,
    heap st' !! lower = Some (NdRGBA im_lower) /\
    heap st' !! upper = Some (NdRGBA im_upper) /\
    py_int (fl (2 * pentagon_h self) + h self)%float = Ok (Z.of_nat (im_h im_lower)) /\
    Z.of_nat (im_w im_lower) = 2 * pentagon_l self + resolution self /\
    im_h im_upper = im_h im_lower /\ im_w im_upper = im_w im_lower.
Proof.
  intros H.
  destruct (half_unwrap_canvas L self _ _ _ _ _ _ H) as (hh & Hhh & H0 & H1 & Hlo & Hup).
  assert ((length (heap st) <= upper)%nat /\ lower = S upper) as [Hfresh Hnext].
  { unfold half_unwrap in H.
    apply bind_Ok in H as ([] & s1 & Hcheck & H). apply check_Ok in Hcheck as ->.
    apply bind_Ok in H as (cs & s2 & Hcols & H).
    assert (length (heap st) <= length (heap s2))%nat as Hlen.
    { assert (logs (length (heap st)) is_sample (Forall (fun q => (length (heap st) <= q)%nat))
                (map_m (fun i => get_face_rgb L self i eq_image rotation_offset)
                   (py_range 12))) as Hm.
      { apply logs_map_m. intros. apply get_face_rgb_logs. }
      destruct (Hm st (Nat.le_refl _)) as (Hge & _). by rewrite Hcols in Hge. }
    apply bind_Ok in H as (hh' & s3 & H2 & H). apply lift_Ok in H2 as [_ ->].
    apply bind_Ok in H as (zeros & s3 & H2 & H). apply lift_Ok in H2 as [_ ->].
    apply bind_Ok in H as (cu & s3 & Ha & H). apply alloc_Ok in Ha as (-> & Hh3 & _).
    apply bind_Ok in H as (zeros' & s4 & H2 & H). apply lift_Ok in H2 as [_ ->].
    apply bind_Ok in H as (cl & s4 & Ha & H). apply alloc_Ok in Ha as (-> & Hh4 & _).
    apply bind_Ok in H as (xy_up & s5 & _ & H).
    apply bind_Ok in H as (xy_down & s6 & _ & H).
    apply bind_Ok in H as (f0x & s7 & _ & H).
    apply bind_Ok in H as ([] & s8 & _ & H).
    apply bind_Ok in H as ([] & s9 & _ & H).
    apply bind_Ok in H as (f11x & s10 & _ & H).
    apply bind_Ok in H as (f11y & s11 & _ & H).
    apply bind_Ok in H as ([] & s12 & _ & H).
    apply bind_Ok in H as ([] & s13 & _ & H).
    apply ret_Ok in H as [[= -> ->] _].
    split; [done|]. rewrite Hh3, length_app. simpl. lia. }
  split; [done|]. split; [done|].
  destruct Hlo as (iml & evl & Hcl & _ & Ehl & Ewl & _).
  destruct Hup as (imu & evu & Hcu & _ & Ehu & Ewu & _).
  exists iml, imu. split; [done|]. split; [done|].
  rewrite Ehl, Ewl, Ehu, Ewu, !Z2Nat.id by done. done.
Qed.

End TwoCanvases.

(** ** Runs of the further properties *)

(** The sampler [DodecahedralSampler(4)], for the larger layouts. *)
Definition small_self : Sampler :=
  Eval vm_compute in
    match (init Reference.library 4 demo_start).1 with Ok s => s | Err _ => no_sampler end.

Definition small_state : State :=
  Eval vm_compute in (init Reference.library 4 demo_start).2.

(** The sampler [DodecahedralSampler(-10)]: the constructor accepts it. *)
Definition negative_self : Sampler :=
  Eval vm_compute in
    match (init Reference.library (-10) demo_start).1 with
    | Ok s => s | Err _ => no_sampler end.

Definition negative_state : State :=
  Eval vm_compute in (init Reference.library (-10) demo_start).2.

Lemma init_tables_witness :
  exists verts,
    heap demo_state = heap demo_start ++ [NdI FACES; NdF verts] /\
    log demo_state = log demo_start /\
    faces demo_self = length (heap demo_start) /\
    vertices demo_self = S (length (heap demo_start)) /\
    length verts = 20%nat /\
    forall f face, index_row FACES f = Ok face ->
      exists vertex_xyz, take_rows verts face = Ok vertex_xyz /\ length vertex_xyz = 5%nat.
Proof.
  apply (init_tables Reference.library 10 demo_start demo_state demo_self).
  vm_compute. reflexivity.
Defined.

Lemma edge_length_defined_witness :
  exists e,
    edge_length Reference.library Reference.fsum demo_self
      (run_calls Reference.library demo_self [GetFaceXyz 3; GetFaceXyz 12] demo_state)
    = (Ok e, run_calls Reference.library demo_self [GetFaceXyz 3; GetFaceXyz 12] demo_state).
Proof.
  apply (edge_length_defined Reference.library Reference.fsum 10 demo_start demo_state
           demo_self [GetFaceXyz 3; GetFaceXyz 12]).
  vm_compute. reflexivity.
Defined.

Lemma get_pentagon_coords_negative_witness :
  init Reference.library (-10) demo_start = (Ok negative_self, negative_state) /\
  get_pentagon_coords Reference.library negative_self (-10) true false false false
    negative_state = (Err ValueError, negative_state).
Proof.
  split; [vm_compute; reflexivity|].
  apply (get_pentagon_coords_negative Reference.library negative_self).
  left. reflexivity.
Defined.

Lemma get_pentagon_coords_raw_witness :
  exists rows,
    heap (get_pentagon_coords Reference.library demo_self 10 true false false false
            demo_state).2 !! 4%nat = Some (NdI rows) /\
    NoDup rows /\
    forall r, r ∈ rows <->
      exists x y, r = [x; y] /\ 0 <= x < pentagon_l demo_self /\
                  0 <= y < pentagon_h demo_self /\
                  cv2_filled Reference.library (contour demo_self true) x y = true.
Proof.
  apply (get_pentagon_coords_raw Reference.library demo_self 10 true demo_state).
  apply run_eq. vm_compute. reflexivity.
Defined.

Lemma get_face_image_canvas_witness :
  (length (heap demo_state) <= 12)%nat /\
  (exists im,
     heap (get_face_image Reference.library demo_self 3 0%nat 0.25 demo_state).2 !! 12%nat
       = Some (NdRGBA im) /\
     Z.of_nat (im_h im) = pentagon_h demo_self /\
     Z.of_nat (im_w im) = pentagon_l demo_self) /\
  opaque_where_written 12 demo_state
    (get_face_image Reference.library demo_self 3 0%nat 0.25 demo_state).2.
Proof.
  apply (get_face_image_canvas Reference.library demo_self 3 0%nat 0.25 demo_state).
  apply run_eq. vm_compute. reflexivity.
Defined.

Lemma a4_canvas_shape_witness :
  exists im,
    heap (a4_optimised_unwrap Reference.library small_self 0%nat 0.25 small_state).2
      !! 87%nat = Some (NdRGBA im) /\
    py_int (float_of_int (2 * pentagon_h small_self) + h small_self)%float
      = Ok (Z.of_nat (im_h im)) /\
    py_int (float_of_int (3 * (pentagon_l small_self + scaled_edge_length small_self))
            + l small_self)%float = Ok (Z.of_nat (im_w im)).
Proof.
  apply (a4_canvas_shape Reference.library small_self 0%nat 0.25 small_state).
  apply run_eq. vm_compute. reflexivity.
Defined.

Lemma get_face_rgb_after_geometry_witness :
  exists rows rgb_ st' px ys xs,
    heap (get_face_xyz Reference.library demo_self 3 demo_state).2 !! 7%nat
      = Some (NdF rows) /\
    get_face_rgb Reference.library demo_self 3 0%nat 0.25 demo_state = (Ok rgb_, st') /\
    heap st' !! rgb_ = Some (NdRGB px) /\ length px = length rows /\
    log st' = log demo_state ++ [EvSample (im_h demo_pano, im_w demo_pano) ys xs] /\
    in_bounds demo_pano (EvSample (im_h demo_pano, im_w demo_pano) ys xs).
Proof.
  apply (get_face_rgb_after_geometry Reference.library demo_self 3 0%nat 0.25 demo_pano
           demo_state); [reflexivity | reflexivity |].
  apply run_eq. vm_compute. reflexivity.
Defined.

Lemma calls_read_in_bounds_witness :
  exists evs,
    log (exec Reference.library demo_self (Unwrap 0%nat 0.25) demo_state).2
      = log demo_state ++ evs /\
    Forall (read_ok demo_pano) evs.
Proof.
  apply (calls_read_in_bounds Reference.library demo_self demo_pano (Unwrap 0%nat 0.25)
           0%nat demo_state); [reflexivity|].
  intros p [= <-]. reflexivity.
Defined.

Lemma half_unwrap_canvases_witness :
  (length (heap small_state) <= 87)%nat /\ 88%nat = S 87 /\
  exists im_lower im_upper,
    heap (half_unwrap Reference.library small_self 0%nat 0.25 small_state).2 !! 88%nat
      = Some (NdRGBA im_lower) /\
    heap (half_unwrap Reference.library small_self 0%nat 0.25 small_state).2 !! 87%nat
      = Some (NdRGBA im_upper) /\
    py_int (float_of_int (2 * pentagon_h small_self) + h small_self)%float
      = Ok (Z.of_nat (im_h im_lower)) /\
    Z.of_nat (im_w im_lower) = 2 * pentagon_l small_self + resolution small_self /\
    im_h im_upper = im_h im_lower /\ im_w im_upper = im_w im_lower.
Proof.
  apply (half_unwrap_canvases Reference.library small_self 0%nat 0.25 small_state).
  apply (run_eq _ (88%nat, 87%nat)). vm_compute. reflexivity.
Defined.

(** ** Face numbers outside 0..11 *)

Lemma get_rotation_out face_no :
  ~ (0 <= face_no <= 11) -> get_rotation face_no = Err UnboundLocalError.
Proof.
  intros Hf. destruct (get_rotation face_no) as [r|e] eqn:E.
  - apply get_rotation_Ok in E. lia.
  - revert E. unfold get_rotation.
    repeat (destruct (_ || _) || destruct (_ && _)); congruence.
Qed.

Lemma load_I_run p rows st : heap st !! p = Some (NdI rows) -> load_I p st = (Ok rows, st).
Proof. intros H. unfold load_I, bind, load. by rewrite H. Qed.

Lemma load_F_run p rows st : heap st !! p = Some (NdF rows) -> load_F p st = (Ok rows, st).
Proof. intros H. unfold load_F, bind, load. by rewrite H. Qed.

Lemma store_run p c st :
  (p < length (heap st))%nat ->
  store p c st = (Ok tt, mkState (<[p := c]> (heap st)) (log st)).
Proof. intros H. unfold store. by destruct (decide _). Qed.

Lemma bind_lift {A B} (r : Result A) (f : A -> M B) st a :
  r = Ok a -> bind (lift r) f st = f a st.
Proof. by intros ->. Qed.

(** The face table takes the numbers -12..-1 for the faces 0..11. *)
Lemma index_row_negative (face_no : Z) :
  -12 <= face_no <= -1 -> exists face, index_row FACES face_no = Ok face /\ face ∈ FACES.
Proof.
  intros Hf. destruct (FACES !! Z.to_nat (face_no + 12)) as [face|] eqn:E.
  - exists face. split; [|by eapply list_elem_of_lookup_2].
    unfold index_row, norm_index.
    change (- Z.of_nat (length FACES)) with (-12).
    change (Z.of_nat (length FACES)) with 12.
    destruct (0 <=? face_no) eqn:E1; [lia|].
    destruct (- 12 <=? face_no) eqn:E2; [|lia].
    destruct (face_no <? 0) eqn:E3; [|lia].
    cbn [andb rbind]. by rewrite E.
  - apply lookup_ge_None in E. simpl in E. lia.
Qed.

Section OutsideFaces.
Context (L : Library) (self : Sampler).

(** With [normalize] and [homogeneous], [get_pentagon_coords] returns an
    array of floats. *)
Lemma get_pentagon_coords_floats b up ce st p st' :
  get_pentagon_coords L self b up ce true true st = (Ok p, st') ->
  exists rows, heap st' !! p = Some (NdF rows).
Proof.
  intros H. unfold get_pentagon_coords in H.
  apply bind_Ok in H as (zeros & s1 & _ & H).
  apply bind_Ok in H as (canvas & s2 & _ & H).
  apply bind_Ok in H as ([] & s3 & _ & H).
  apply bind_Ok in H as (m & s4 & _ & H).
  apply bind_Ok in H as (coords & s5 & _ & H).
  apply bind_Ok in H as ([] & s6 & _ & H).
  apply bind_Ok in H as (c1 & s7 & Hn & H).
  apply bind_Ok in H as (c2 & s8 & Hh & H). apply ret_Ok in H as [-> ->].
  assert (exists rows, heap s7 !! c1 = Some (NdF rows)) as [rows1 Hc1].
  { apply bind_Ok in Hn as (c & t & Hl & Hn). apply load_Ok in Hl as [_ ->].
    destruct c; try discriminate Hn;
      apply alloc_Ok in Hn as (-> & -> & _); eexists; by apply list_lookup_middle. }
  apply bind_Ok in Hh as (c & t & Hl & Hh). apply load_Ok in Hl as [Hc ->].
  rewrite Hc1 in Hc. injection Hc as <-.
  apply alloc_Ok in Hh as (-> & -> & _). eexists. by apply list_lookup_middle.
Qed.

Lemma get_face_xyz_negative face_no verts st :
  heap st !! faces self = Some (NdI FACES) ->
  heap st !! vertices self = Some (NdF verts) -> length verts = 20%nat ->
  -12 <= face_no <= -1 ->
  (forall e s,
     get_pentagon_coords L self (resolution self) false true true true st = (Err e, s) ->
     get_face_xyz L self face_no st = (Err e, s)) /\
  (forall p s,
     get_pentagon_coords L self (resolution self) false true true true st = (Ok p, s) ->
     exists s', get_face_xyz L self face_no st = (Err UnboundLocalError, s')).
Proof.
  intros Hfaces Hverts Hlen Hf.
  destruct (index_row_negative face_no Hf) as (face & Hface & Hin).
  destruct (take_rows_Ok verts face) as (vxyz & Hvxyz & _).
  { rewrite Hlen. pose proof FACES_range as Hr. rewrite Forall_forall in Hr. by apply Hr. }
  assert (get_is_up face_no = false) as Hup.
  { unfold get_is_up. destruct (0 <? face_no) eqn:E1; [lia|].
    destruct (face_no =? 11) eqn:E2; [lia|]. done. }
  split; intros x s Hg; unfold get_face_xyz;
    rewrite (bind_run _ _ _ _ _ (load_I_run _ _ _ Hfaces)); cbn beta zeta;
    rewrite (bind_lift _ _ _ _ Hface); cbn beta zeta;
    rewrite (bind_run _ _ _ _ _ (load_F_run _ _ _ Hverts)); cbn beta zeta;
    rewrite (bind_lift _ _ _ _ Hvxyz); cbn beta zeta; rewrite Hup.
  - by apply bind_Err.
  - rewrite (bind_run _ _ _ _ _ Hg); cbn beta zeta.
    destruct (get_pentagon_coords_floats _ _ _ _ _ _ Hg) as [rows Hrows].
    pose proof (lookup_lt_Some _ _ _ Hrows) as Hlt.
    rewrite (bind_run _ _ _ _ _ (load_F_run _ _ _ Hrows)); cbn beta zeta.
    rewrite (bind_run _ _ _ _ _ (store_run _ _ _ Hlt)); cbn beta zeta.
    match goal with |- context [mkState ?h ?l] => set (s1 := mkState h l) end.
    assert (exists rows1, heap s1 !! x = Some (NdF rows1)) as [rows1 Hrows1].
    { eexists. unfold s1; cbn [heap]. by apply list_lookup_insert_eq. }
    pose proof (lookup_lt_Some _ _ _ Hrows1) as Hlt1.
    rewrite (bind_run _ _ _ _ _ (load_F_run _ _ _ Hrows1)); cbn beta zeta.
    rewrite (bind_run _ _ _ _ _ (store_run _ _ _ Hlt1)); cbn beta zeta.
    eexists. apply bind_Err. unfold lift. rewrite get_rotation_out by lia. reflexivity.
Qed.

(** On a valid panorama the two image operations raise what
    [get_face_xyz] raises. *)
Lemma face_error_passed_on face_no eq_image rotation_offset im st e s :
  heap st !! eq_image = Some (NdPano im) -> valid_shape im = true ->
  get_face_xyz L self face_no st = (Err e, s) ->
  get_face_rgb L self face_no eq_image rotation_offset st = (Err e, s) /\
  get_face_image L self face_no eq_image rotation_offset st = (Err e, s).
Proof.
  intros Hp Hv Hx.
  assert (get_face_rgb L self face_no eq_image rotation_offset st = (Err e, s)) as Hrgb.
  { unfold get_face_rgb. rewrite (bind_run _ _ _ _ _ (check_valid _ _ _ Hp Hv)).
    by apply bind_Err. }
  split; [done|].
  unfold get_face_image. rewrite (bind_run _ _ _ _ _ (check_valid _ _ _ Hp Hv)).
  by apply bind_Err.
Qed.

(** C2, as the code has it.  For a face number outside 0..11 none of
    [get_face_xyz], [get_face_rgb], [get_face_image] returns a result: each
    raises.  On a valid panorama the two image operations raise the error
    that [get_face_xyz] raises.  With the face table of the constructor in
    the store, [get_face_xyz] raises [IndexError] for a face number above 11
    or below -12, before anything is allocated.  For the face numbers
    -12..-1, with the 20 vertices of the constructor, the table lookups
    succeed; [get_face_xyz] then raises what [get_pentagon_coords] raises
    if that call fails, and [UnboundLocalError], from [get_rotation],
    otherwise. *)
Theorem C2_invalid_face_fails (face_no : Z) (eq_image : loc)
    (rotation_offset : float) (st : State) :
  ~ (0 <= face_no <= 11) ->
  ((exists e, (get_face_xyz L self face_no st).1 = Err e) /\
   (exists e, (get_face_rgb L self face_no eq_image rotation_offset st).1 = Err e) /\
   (exists e, (get_face_image L self face_no eq_image rotation_offset st).1 = Err e)) /\
  (forall im e s,
     heap st !! eq_image = Some (NdPano im) -> valid_shape im = true ->
     get_face_xyz L self face_no st = (Err e, s) ->
     get_face_rgb L self face_no eq_image rotation_offset st = (Err e, s) /\
     get_face_image L self face_no eq_image rotation_offset st = (Err e, s)) /\
  (heap st !! faces self = Some (NdI FACES) ->
   (face_no < -12 \/ 11 < face_no ->
    get_face_xyz L self face_no st = (Err IndexError, st)) /\
   (-12 <= face_no <= -1 ->
    forall verts,
      heap st !! vertices self = Some (NdF verts) -> length verts = 20%nat ->
      (forall e s,
         get_pentagon_coords L self (resolution self) false true true true st = (Err e, s) ->
         get_face_xyz L self face_no st = (Err e, s)) /\
      (forall p s,
         get_pentagon_coords L self (resolution self) false true true true st = (Ok p, s) ->
         exists s', get_face_xyz L self face_no st = (Err UnboundLocalError, s')))).
Proof.
  intros Hf. split; [|split].
  - repeat split; apply fails_of_not_Ok; intros p st' H; apply Hf.
    + by apply get_face_xyz_Ok in H.
    + by apply get_face_rgb_Ok in H.
    + by apply get_face_image_Ok in H.
  - intros im e s Hp Hv Hx. by eapply face_error_passed_on.
  - intros Ht. split.
    + intros Hout. apply (get_face_xyz_out _ _ _ FACES); [done|]. simpl. lia.
    + intros Hneg verts Hverts Hlen. by eapply get_face_xyz_negative.
Qed.

End OutsideFaces.

(** Face 12 and face -1 on the sampler of resolution 10: [IndexError] from
    the three operations for the first, [UnboundLocalError] for the second.
    Face -1 on the sampler of resolution -10: the [ValueError] of
    [get_pentagon_coords]. *)
Lemma C2_invalid_face_witness :
  (get_face_xyz Reference.library demo_self 12 demo_state = (Err IndexError, demo_state) /\
   get_face_rgb Reference.library demo_self 12 0%nat 0.25 demo_state
     = (Err IndexError, demo_state) /\
   get_face_image Reference.library demo_self 12 0%nat 0.25 demo_state
     = (Err IndexError, demo_state)) /\
  (exists s', get_face_xyz Reference.library demo_self (-1) demo_state
              = (Err UnboundLocalError, s')) /\
  get_face_xyz Reference.library negative_self (-1) negative_state
    = (Err ValueError, negative_state).
Proof.
  split; [|split].
  - destruct (C2_invalid_face_fails Reference.library demo_self 12 0%nat 0.25 demo_state
                ltac:(lia)) as (_ & Himg & Htab).
    destruct (Htab eq_refl) as [Hout _].
    pose proof (Hout ltac:(lia)) as Hx. split; [exact Hx|].
    exact (Himg demo_pano _ _ eq_refl eq_refl Hx).
  - destruct (C2_invalid_face_fails Reference.library demo_self (-1) 0%nat 0.25 demo_state
                ltac:(lia)) as (_ & _ & Htab).
    destruct (Htab eq_refl) as [_ Hneg].
    destruct (Hneg ltac:(lia) _ ltac:(vm_compute; reflexivity) eq_refl) as [_ Hok].
    eapply Hok. apply run_eq. vm_compute. reflexivity.
  - destruct (C2_invalid_face_fails Reference.library negative_self (-1) 0%nat 0.25
                negative_state ltac:(lia)) as (_ & _ & Htab).
    destruct (Htab eq_refl) as [_ Hneg].
    destruct (Hneg ltac:(lia) _ ltac:(vm_compute; reflexivity) eq_refl) as [Herr _].
    apply Herr. vm_compute. reflexivity.
Defined.
